(** * latticegpm: binary sequence spaces, landscape search and lattice
      thermodynamics

    A shallow embedding of [latticegpm/utils.py] and [latticegpm/gpm.py].

    Conventions of the embedding:
    - a Python [str] (and a list of one-letter strings, which is what
      [RandomSequence] returns) is a [list ascii]; [''.join] is then the
      identity and is written [join];
    - a Python [float] is idealised as a real number ([R]); comparisons of
      floats are the decidable comparisons of [R];
    - a Python [int] is a [Z]; a [len] is a [nat];
    - a raised exception is a value of [exn], carried by [result]. *)

From Stdlib Require Import List Bool Arith ZArith NArith Lia.
From Stdlib Require Import Ascii String DecimalString.
From Stdlib Require Import Reals Lra.
From Stdlib Require Import Sorted.
Import ListNotations.

Set Implicit Arguments.
#[local] Set Warnings "-register-all".


(** [len] of a list or of a string. *)
Abbreviation len := List.length.

(** ** Python values shared by both source files *)

Definition str := list ascii.

(** A string literal of the source as a [str]. *)
Definition lit (s : string) : str := list_ascii_of_string s.

(** [''.join(sequence)] for a sequence of one-letter strings. *)
Definition join (sequence : str) : str := sequence.

(** The exceptions the two files can raise, with the message of the
    [raise] statement where the source gives one. *)
Inductive exn : Type :=
| IndexError (msg : string)
| Exception (msg : string)
| UnboundLocalError (name : string)
| AttributeError (name : string)
| TypeError (msg : string)
| ValueError (msg : string).

Inductive result (A : Type) : Type :=
| Ok (a : A)
| Raise (e : exn).

Arguments Ok {A} a.
Arguments Raise {A} e.

Definition bind {A B : Type} (m : result A) (k : A -> result B) : result B :=
  match m with
  | Ok a => k a
  | Raise e => Raise e
  end.

Notation "x <- m ;; k" := (bind m (fun x => k))
  (at level 61, m at next level, right associativity).

(** [s[i]]: indexing a string or a list raises [IndexError] out of range. *)
Definition getitem {A : Type} (s : list A) (i : nat) : result A :=
  match nth_error s i with
  | Some c => Ok c
  | None => Raise (IndexError "index out of range")
  end.

(** A list comprehension / [for] loop that appends one [f x] per element,
    stopping at the first exception. *)
Fixpoint for_each {A B : Type} (f : A -> result B) (l : list A)
  : result (list B) :=
  match l with
  | [] => Ok []
  | x :: l' =>
      y <- f x ;;
      ys <- for_each f l' ;;
      Ok (y :: ys)
  end.

(** [x < y] on floats. *)
Definition float_lt (x y : R) : bool :=
  if Rlt_dec x y then true else false.

(** [x == y] on floats. *)
Definition float_eq (x y : R) : bool :=
  if Req_dec_T x y then true else false.

(** [a[i] = v] on a list or a numpy array: in range it replaces slot [i],
    out of range it raises [IndexError]. *)
Fixpoint update {A : Type} (a : list A) (i : nat) (v : A) : list A :=
  match a, i with
  | [], _ => []
  | _ :: a', O => v :: a'
  | x :: a', S i' => x :: update a' i' v
  end.

Definition setitem {A : Type} (a : list A) (i : nat) (v : A)
  : result (list A) :=
  if i <? len a then Ok (update a i v)
  else Raise (IndexError "index out of range").

(** ** latticegpm/utils.py *)

Module Utils.

(** [latticeproteins.sequences.HammingDistance]: the number of positions
    at which the two sequences differ. Every call in this file passes two
    sequences of one length. *)
Fixpoint HammingDistance (seq1 seq2 : str) : nat :=
  match seq1, seq2 with
  | c1 :: r1, c2 :: r2 =>
      (if Ascii.eqb c1 c2 then 0 else 1) + HammingDistance r1 r2
  | _, _ => 0
  end.

(** [a is b] on two integers computed at run time: CPython keeps one
    object per integer from -5 to 256, so identity coincides with equality
    there; above 256 two computed integers are distinct objects. *)
Definition int_is (a b : nat) : bool :=
  (a =? b) && (a <=? 256).

(** *** generate_binary_space *)

(** [itertools.product(alphabet, repeat=n)]: the leftmost position varies
    slowest. *)
Fixpoint product {A : Type} (alphabet : list A) (repeat : nat)
  : list (list A) :=
  match repeat with
  | O => [[]]
  | S n => flat_map (fun a => map (cons a) (product alphabet n)) alphabet
  end.

(** Python's order on strings: lexicographic on code points, a proper
    prefix first. *)
Fixpoint str_ltb (a b : str) : bool :=
  match a, b with
  | [], [] => false
  | [], _ :: _ => true
  | _ :: _, [] => false
  | x :: a', y :: b' =>
      if (N_of_ascii x <? N_of_ascii y)%N then true
      else if (N_of_ascii x =? N_of_ascii y)%N then str_ltb a' b'
      else false
  end.

(** [sorted]: a stable sort, here by insertion from the right; an element
    is put before the first one that is not below it. *)
Fixpoint insert (x : str) (l : list str) : list str :=
  match l with
  | [] => [x]
  | y :: l' => if str_ltb y x then y :: insert x l' else x :: l
  end.

Definition sorted (l : list str) : list str :=
  fold_right insert [] l.

(** [binaries = sorted([''.join(list(s)) for s in it.product('01', repeat=L)])] *)
Definition binaries (L : nat) : list str :=
  sorted (map join (product (lit "01") L)).

(** The inner loop: one character per site, chosen by the bit. *)
Definition build_sequence (wildtype mutant b : str) : result str :=
  for_each
    (fun i =>
       bi <- getitem b i ;;
       if Ascii.eqb bi "0"%char then getitem wildtype i
       else getitem mutant i)
    (seq 0 (len wildtype)).

Definition generate_binary_space (wildtype mutant : str)
  : result (list str) :=
  if negb (len wildtype =? len mutant) then
    Raise (IndexError
      "ancestor_sequence and derived sequence must be the same length.")
  else if negb (HammingDistance wildtype mutant =? len wildtype) then
    Raise (Exception "Wildtype and mutant must differ at all sites.")
  else
    for_each
      (fun b => sequence <- build_sequence wildtype mutant b ;;
                Ok (join sequence))
      (binaries (len wildtype)).

(** *** search_conformation_space and search_fitness_landscape *)

(** The oracle objects, by the methods the searches call.
    [FoldSequence] stands for [output[0]], the energy. *)
Record Conformations : Type := {
  Length : nat;
  FoldSequence : str -> R -> R
}.

Record FitnessOracle : Type := {
  Fitness_Length : nat;
  Fitness : str -> R
}.

Definition max_iterations_msg : string :=
  "Random search reached max iterations before finding satisfying sequences.".

Section Search.

(** The random source: the k-th call of [RandomSequence(length)] of a
    run, counted from 0, returns [RandomSequence k]. Each pass of the
    loop makes one call, so the call made when [counter = k] is the
    k-th. *)
Variable RandomSequence : nat -> str.

(** What the two searches share: [passes sequence] is the threshold
    test of the function at hand. *)
Section Loop.

Variable passes : str -> bool.
Variable length : nat.
Variable max_iter : Z.

(** One pass of the loop body, before [counter += 1]. *)
Definition body (counter : Z) (sequences : list str) : list str :=
  let sequence := RandomSequence (Z.to_nat counter) in
  if passes sequence then
    match sequences with
    | s0 :: _ =>
        if int_is (HammingDistance s0 sequence) length
        then sequences ++ [join sequence]
        else sequences
    | [] => sequences ++ [join sequence]
    end
  else sequences.

(** [while len(sequences) < 2 and counter < max_iter: ...]; the loop
    makes at most [max_iter] passes, which is the fuel [search]
    gives it. *)
Fixpoint while_loop (fuel : nat) (counter : Z) (sequences : list str)
  : Z * list str :=
  match fuel with
  | O => (counter, sequences)
  | S fuel' =>
      if (len sequences <? 2) && (counter <? max_iter)%Z then
        while_loop fuel' (counter + 1)%Z (body counter sequences)
      else (counter, sequences)
  end.

Definition search : result (list str) :=
  let '(counter, sequences) := while_loop (Z.to_nat max_iter) 0%Z [] in
  if (counter =? max_iter)%Z then Raise (Exception max_iterations_msg)
  else Ok sequences.

End Loop.

Definition search_conformation_space
    (C : Conformations) (temperature threshold : R) (max_iter : Z)
  : result (list str) :=
  search
    (fun sequence =>
       let energy := FoldSequence C sequence temperature in
       float_lt energy threshold)
    (Length C) max_iter.

Definition search_fitness_landscape
    (F : FitnessOracle) (threshold : R) (max_iter : Z)
  : result (list str) :=
  search
    (fun sequence =>
       let fitness := Fitness F sequence in
       float_lt threshold fitness)
    (Fitness_Length F) max_iter.

End Search.

End Utils.

(** ** latticegpm/gpm.py *)

Module Gpm.

(** A numpy array of dtype ["U<k>"]: every stored string is cut to its
    first [itemsize] characters. *)
Record ustr_array : Type := {
  itemsize : nat;
  items : list str
}.

Definition setitem_U (a : ustr_array) (i : nat) (v : str)
  : result ustr_array :=
  its <- setitem (items a) i (firstn (itemsize a) v) ;;
  Ok {| itemsize := itemsize a; items := its |}.

(** The mutations dictionary of [gpmap]: site -> letters, or [None]. *)
Definition mutations_t : Type := list (Z * option (list str)).

(** [Conformations.fold_sequence(g, temperature)]: the tuple
    (native energy, conformation, partition sum, folded). *)
Definition fold_oracle : Type := str -> R -> R * str * R * bool.

(** The locals of one pass of the genotype loop of
    [recalculate_partition_sum]. [folded] is [None] while the name is
    unbound. ([fold = True] of the source binds a name nothing reads.) *)
Record locals : Type := {
  z : R;
  conf_energies : list R;
  min_conf : str;
  min_energy : R;
  folded : option bool
}.

Definition types : list str :=
  [lit "nativeEs"; lit "stabilities"; lit "fracfolded"].

Definition str_eqb (a b : str) : bool :=
  if list_eq_dec ascii_dec a b then true else false.

(** numpy's elementwise operation on two one-dimensional arrays, with
    broadcasting of an array of one element. *)
Definition np_binop (f : R -> R -> R) (a b : list R) : result (list R) :=
  if len a =? len b then Ok (map (fun p => f (fst p) (snd p)) (combine a b))
  else
    match a, b with
    | [x], _ => Ok (map (f x) b)
    | _, [y] => Ok (map (fun x => f x y) a)
    | _, _ => Raise (ValueError "operands could not be broadcast together")
    end.

(** JSON documents, which are also the values [json.load] returns:
    [None], a [bool], a number, a [str], a [list], a [dict]. *)
Inductive json : Type :=
| JNull
| JBool (b : bool)
| JNum (x : R)
| JStr (s : str)
| JList (l : list json)
| JDict (d : list (string * json)).

(** The value of an attribute of a loaded map: a value as loaded, a numpy
    array made from a loaded list, or an object of another library. *)
Inductive pyval : Type :=
| Plain (v : json)
| ndarray (l : list json)
| Opaque (class : string).

(** A [dict] with string keys, in insertion order. *)
Fixpoint dict_get {V : Type} (d : list (string * V)) (k : string)
  : option V :=
  match d with
  | [] => None
  | (k', v) :: d' => if String.eqb k' k then Some v else dict_get d' k
  end.

Definition dict_mem {V : Type} (d : list (string * V)) (k : string) : bool :=
  match dict_get d k with
  | Some _ => true
  | None => false
  end.

Fixpoint dict_set {V : Type} (d : list (string * V)) (k : string) (v : V)
  : list (string * V) :=
  match d with
  | [] => [(k, v)]
  | (k', v') :: d' =>
      if String.eqb k' k then (k', v) :: d' else (k', v') :: dict_set d' k v
  end.

Definition dict_update {V : Type} (d kwargs : list (string * V))
  : list (string * V) :=
  fold_left (fun d kv => dict_set d (fst kv) (snd kv)) kwargs d.

(** What [json.dump] writes for the mutations dictionary: the integer
    keys become their decimal strings. *)
Definition dump_mutations (m : mutations_t) : json :=
  JDict
    (map (fun kv =>
            (NilZero.string_of_int (Z.to_int (fst kv)),
             match snd kv with
             | Some letters => JList (map JStr letters)
             | None => JNull
             end))
         m).

Definition necessary_args : list string :=
  ["wildtype"; "genotypes"; "nativeEs"; "partition_sum"; "confs"; "folded";
   "phenotype_type"; "temperature"; "mutations"]%string.

(** Reading a loaded array back as floats, strings or booleans. *)
Fixpoint as_floats (l : list json) : option (list R) :=
  match l with
  | [] => Some []
  | JNum x :: l' => option_map (cons x) (as_floats l')
  | _ => None
  end.

Fixpoint as_strs (l : list json) : option (list str) :=
  match l with
  | [] => Some []
  | JStr x :: l' => option_map (cons x) (as_strs l')
  | _ => None
  end.

Fixpoint as_bools (l : list json) : option (list bool) :=
  match l with
  | [] => Some []
  | JBool x :: l' => option_map (cons x) (as_bools l')
  | _ => None
  end.

Definition array_of (v : option pyval) : option (list json) :=
  match v with
  | Some (ndarray l) => Some l
  | _ => None
  end.

Section Model.

(** What the file imports and this repository's sources do not hold:
    the type of interaction tables with the default table, the energy
    function of [latticegpm.thermo], [gpmap]'s enumeration of the
    genotypes, and what [np.empty] finds in memory. *)
Variable table : Type.
Variable miyazawa_jernigan : table.
Variable fold_energy : str -> str -> table -> R.
Variable mutations_to_genotypes : str -> mutations_t -> list str.
Variable uninit_float : string -> nat -> R.
Variable uninit_str : nat -> str.
Variable uninit_bool : nat -> bool.

(** The attributes of a map. The four arrays are [None] until [fold]
    (or a setter) creates them. *)
Record gpm : Type := {
  wildtype : str;
  mutations : mutations_t;
  interaction_energies : table;
  temperature : R;
  target_conf : option str;
  _phenotype_type : str;
  genotypes : list str;
  log_transform : bool;
  _nativeEs : option (list R);
  _confs : option ustr_array;
  _partition_sum : option (list R);
  _folded : option (list bool);
  partition_confs : option (list str);
  partition_confs_ : option (list str);
  Conformations : option fold_oracle
}.

(** [n] and [length] of the [gpmap] base class: the number of genotypes
    and the length of the sequences. *)
Definition n (self : gpm) : nat := len (genotypes self).
Definition length (self : gpm) : nat := len (wildtype self).

(** *** Attribute assignment *)

Definition set_nativeEs (self : gpm) (v : option (list R)) : gpm :=
  {| wildtype := wildtype self; mutations := mutations self;
     interaction_energies := interaction_energies self;
     temperature := temperature self; target_conf := target_conf self;
     _phenotype_type := _phenotype_type self;
     genotypes := genotypes self; log_transform := log_transform self;
     _nativeEs := v; _confs := _confs self;
     _partition_sum := _partition_sum self; _folded := _folded self;
     partition_confs := partition_confs self;
     partition_confs_ := partition_confs_ self;
     Conformations := Conformations self |}.

Definition set_confs (self : gpm) (v : option ustr_array) : gpm :=
  {| wildtype := wildtype self; mutations := mutations self;
     interaction_energies := interaction_energies self;
     temperature := temperature self; target_conf := target_conf self;
     _phenotype_type := _phenotype_type self;
     genotypes := genotypes self; log_transform := log_transform self;
     _nativeEs := _nativeEs self; _confs := v;
     _partition_sum := _partition_sum self; _folded := _folded self;
     partition_confs := partition_confs self;
     partition_confs_ := partition_confs_ self;
     Conformations := Conformations self |}.

Definition set_partition_sum (self : gpm) (v : option (list R)) : gpm :=
  {| wildtype := wildtype self; mutations := mutations self;
     interaction_energies := interaction_energies self;
     temperature := temperature self; target_conf := target_conf self;
     _phenotype_type := _phenotype_type self;
     genotypes := genotypes self; log_transform := log_transform self;
     _nativeEs := _nativeEs self; _confs := _confs self;
     _partition_sum := v; _folded := _folded self;
     partition_confs := partition_confs self;
     partition_confs_ := partition_confs_ self;
     Conformations := Conformations self |}.

Definition set_folded (self : gpm) (v : option (list bool)) : gpm :=
  {| wildtype := wildtype self; mutations := mutations self;
     interaction_energies := interaction_energies self;
     temperature := temperature self; target_conf := target_conf self;
     _phenotype_type := _phenotype_type self;
     genotypes := genotypes self; log_transform := log_transform self;
     _nativeEs := _nativeEs self; _confs := _confs self;
     _partition_sum := _partition_sum self; _folded := v;
     partition_confs := partition_confs self;
     partition_confs_ := partition_confs_ self;
     Conformations := Conformations self |}.

Definition set_target (self : gpm) (v : option str) : gpm :=
  {| wildtype := wildtype self; mutations := mutations self;
     interaction_energies := interaction_energies self;
     temperature := temperature self; target_conf := v;
     _phenotype_type := _phenotype_type self;
     genotypes := genotypes self; log_transform := log_transform self;
     _nativeEs := _nativeEs self; _confs := _confs self;
     _partition_sum := _partition_sum self; _folded := _folded self;
     partition_confs := partition_confs self;
     partition_confs_ := partition_confs_ self;
     Conformations := Conformations self |}.

Definition set_partition_confs_attr (self : gpm) (v : list str) : gpm :=
  {| wildtype := wildtype self; mutations := mutations self;
     interaction_energies := interaction_energies self;
     temperature := temperature self; target_conf := target_conf self;
     _phenotype_type := _phenotype_type self;
     genotypes := genotypes self; log_transform := log_transform self;
     _nativeEs := _nativeEs self; _confs := _confs self;
     _partition_sum := _partition_sum self; _folded := _folded self;
     partition_confs := Some v;
     partition_confs_ := partition_confs_ self;
     Conformations := Conformations self |}.

Definition set_partition_confs__attr (self : gpm) (v : list str) : gpm :=
  {| wildtype := wildtype self; mutations := mutations self;
     interaction_energies := interaction_energies self;
     temperature := temperature self; target_conf := target_conf self;
     _phenotype_type := _phenotype_type self;
     genotypes := genotypes self; log_transform := log_transform self;
     _nativeEs := _nativeEs self; _confs := _confs self;
     _partition_sum := _partition_sum self; _folded := _folded self;
     partition_confs := partition_confs self;
     partition_confs_ := Some v;
     Conformations := Conformations self |}.

Definition set_Conformations (self : gpm) (v : fold_oracle) : gpm :=
  {| wildtype := wildtype self; mutations := mutations self;
     interaction_energies := interaction_energies self;
     temperature := temperature self; target_conf := target_conf self;
     _phenotype_type := _phenotype_type self;
     genotypes := genotypes self; log_transform := log_transform self;
     _nativeEs := _nativeEs self; _confs := _confs self;
     _partition_sum := _partition_sum self; _folded := _folded self;
     partition_confs := partition_confs self;
     partition_confs_ := partition_confs_ self;
     Conformations := Some v |}.

(** Reading an attribute that was never assigned. *)
Definition getattr {A : Type} (name : string) (v : option A) : result A :=
  match v with
  | Some a => Ok a
  | None => Raise (AttributeError name)
  end.

(** [self._nativeEs[i] = v] and its three siblings. *)
Definition store_nativeE (self : gpm) (i : nat) (v : R) : result gpm :=
  a <- getattr "_nativeEs" (_nativeEs self) ;;
  a' <- setitem a i v ;;
  Ok (set_nativeEs self (Some a')).

Definition store_partition_sum (self : gpm) (i : nat) (v : R)
  : result gpm :=
  a <- getattr "_partition_sum" (_partition_sum self) ;;
  a' <- setitem a i v ;;
  Ok (set_partition_sum self (Some a')).

Definition store_folded (self : gpm) (i : nat) (v : bool) : result gpm :=
  a <- getattr "_folded" (_folded self) ;;
  a' <- setitem a i v ;;
  Ok (set_folded self (Some a')).

Definition store_conf (self : gpm) (i : nat) (v : str) : result gpm :=
  a <- getattr "_confs" (_confs self) ;;
  a' <- setitem_U a i v ;;
  Ok (set_confs self (Some a')).

Definition set_phenotype_type (self : gpm) (v : str) : gpm :=
  {| wildtype := wildtype self; mutations := mutations self;
     interaction_energies := interaction_energies self;
     temperature := temperature self; target_conf := target_conf self;
     _phenotype_type := v;
     genotypes := genotypes self; log_transform := log_transform self;
     _nativeEs := _nativeEs self; _confs := _confs self;
     _partition_sum := _partition_sum self; _folded := _folded self;
     partition_confs := partition_confs self;
     partition_confs_ := partition_confs_ self;
     Conformations := Conformations self |}.

(** *** recalculate_partition_sum *)

(** The body of [for conf in conf_list], for the genotype [g]. *)
Definition score_conf (self : gpm) (g : str) (l : locals) (conf : str)
  : locals :=
  let fe := fold_energy g conf (interaction_energies self) in
  let z' := (z l + exp (- fe / temperature self))%R in
  let conf_energies' := conf_energies l ++ [fe] in
  if float_lt fe (min_energy l) then
    {| z := z'; conf_energies := conf_energies';
       min_conf := conf; min_energy := fe; folded := Some true |}
  else if float_eq fe (min_energy l) then
    {| z := z'; conf_energies := conf_energies';
       min_conf := min_conf l; min_energy := min_energy l;
       folded := Some false |}
  else
    {| z := z'; conf_energies := conf_energies';
       min_conf := min_conf l; min_energy := min_energy l;
       folded := folded l |}.

(** The locals at the top of a pass of the genotype loop: everything is
    reset but [folded], which keeps what the previous pass left. *)
Definition fresh_locals (folded0 : option bool) : locals :=
  {| z := 0; conf_energies := []; min_conf := lit "";
     min_energy := 0; folded := folded0 |}.

(** Reading the local [folded]. *)
Definition read_folded (l : locals) : result bool :=
  match folded l with
  | Some b => Ok b
  | None => Raise (UnboundLocalError "folded")
  end.

(** One pass of [for i in range(self.n)]. *)
Definition score_genotype (conf_list : list str) (self : gpm)
    (folded0 : option bool) (i : nat) : result (gpm * option bool) :=
  g <- getitem (genotypes self) i ;;
  let l := fold_left (score_conf self g) conf_list (fresh_locals folded0) in
  self <- store_partition_sum self i (z l) ;;
  match target_conf self with
  | None =>
      self <- store_nativeE self i (min_energy l) ;;
      f <- read_folded l ;;
      self <- store_folded self i f ;;
      self <- store_conf self i (min_conf l) ;;
      Ok (self, folded l)
  | Some _ => Ok (self, folded l)
  end.

Fixpoint score_genotypes (conf_list : list str) (self : gpm)
    (folded0 : option bool) (indices : list nat)
  : result (gpm * option bool) :=
  match indices with
  | [] => Ok (self, folded0)
  | i :: rest =>
      r <- score_genotype conf_list self folded0 i ;;
      score_genotypes conf_list (fst r) (snd r) rest
  end.

Definition recalculate_partition_sum (self : gpm) (conf_list : list str)
  : result gpm :=
  let self := set_partition_confs_attr self conf_list in
  r <- score_genotypes conf_list self None (seq 0 (n self)) ;;
  Ok (fst r).

(** *** set_partition_confs, set_target_conf *)

Definition set_partition_confs (self : gpm) (confs : list str)
  : result gpm :=
  recalculate_partition_sum (set_partition_confs__attr self confs) confs.

Fixpoint retarget (self : gpm) (target : str) (indices : list nat)
  : result gpm :=
  match indices with
  | [] => Ok self
  | i :: rest =>
      g <- getitem (genotypes self) i ;;
      self <- store_nativeE self i
                (fold_energy g target (interaction_energies self)) ;;
      self <- store_conf self i target ;;
      retarget self target rest
  end.

Definition set_target_conf (self : gpm) (target : str) : result gpm :=
  let self := set_target self (Some target) in
  retarget self target (seq 0 (n self)).

(** *** fold *)

(** [np.empty(n, dtype=...)]: [n] slots holding whatever was there. *)
Definition np_empty {A : Type} (junk : nat -> A) (n : nat) : list A :=
  map junk (seq 0 n).

(** The width of dtype ["U" + str(self.length - 1)]: ["U-1"] is no
    dtype, and numpy widens ["U0"] to one character. *)
Definition confs_itemsize (self : gpm) : result nat :=
  match length self with
  | O => Raise (TypeError "data type 'U-1' not understood")
  | S k => Ok (Nat.max 1 k)
  end.

Fixpoint fold_with_oracle (self : gpm) (C : fold_oracle)
    (indexed : list (nat * str)) : result gpm :=
  match indexed with
  | [] => Ok self
  | (i, g) :: rest =>
      let output := C g (temperature self) in
      self <- store_nativeE self i (fst (fst (fst output))) ;;
      self <- store_conf self i (snd (fst (fst output))) ;;
      self <- store_partition_sum self i (snd (fst output)) ;;
      self <- store_folded self i (snd output) ;;
      fold_with_oracle self C rest
  end.

Definition fold (self : gpm) (conf_list : option (list str))
    (C : option fold_oracle) : result gpm :=
  let self :=
    set_nativeEs self (Some (np_empty (uninit_float "_nativeEs") (n self))) in
  w <- confs_itemsize self ;;
  let self :=
    set_confs self
      (Some {| itemsize := w; items := np_empty uninit_str (n self) |}) in
  let self :=
    set_partition_sum self
      (Some (np_empty (uninit_float "_partition_sum") (n self))) in
  let self := set_folded self (Some (np_empty uninit_bool (n self))) in
  self <-
    match conf_list, C with
    | Some confs, _ => recalculate_partition_sum self confs
    | None, Some C =>
        fold_with_oracle (set_Conformations self C) C
          (combine (seq 0 (n self)) (genotypes self))
    | None, None =>
        Raise (Exception "Not to give conf_list or Conformations object")
    end ;;
  match target_conf self with
  | Some target => set_target_conf self target
  | None => Ok self
  end.

(** *** Derived phenotypes *)

Definition nativeEs (self : gpm) : result (list R) :=
  getattr "_nativeEs" (_nativeEs self).

(** [nativeEs + temperature * np.log(partition_sum -
    np.exp(-nativeEs/temperature))], array operation by array
    operation. Where numpy's [log] is not defined the model's [ln] is
    not numpy's. *)
Definition stabilities (self : gpm) : result (list R) :=
  nE <- nativeEs self ;;
  Z <- getattr "_partition_sum" (_partition_sum self) ;;
  nE' <- nativeEs self ;;
  let boltz :=
    map exp (map (fun x => x / temperature self)%R (map Ropp nE')) in
  rest <- np_binop Rminus Z boltz ;;
  let scaled := map (Rmult (temperature self)) (map ln rest) in
  np_binop Rplus nE scaled.

Definition fracfolded (self : gpm) : result (list R) :=
  s <- stabilities self ;;
  Ok (map (fun x => 1 / x)%R
        (map (Rplus 1)
           (map exp (map (fun x => x / temperature self)%R s)))).

(** [getattr(self, self.phenotype_type)]. *)
Definition phenotypes (self : gpm) : result (list R) :=
  if str_eqb (_phenotype_type self) (lit "nativeEs") then nativeEs self
  else if str_eqb (_phenotype_type self) (lit "stabilities")
  then stabilities self
  else if str_eqb (_phenotype_type self) (lit "fracfolded")
  then fracfolded self
  else Raise (AttributeError (string_of_list_ascii (_phenotype_type self))).

(** *** Construction *)

(** The setter of [phenotype_type]. *)
Definition phenotype_type_setter (self : gpm) (phenotype_type : str)
  : result gpm :=
  if negb (existsb (str_eqb phenotype_type) types) then
    Raise (Exception (string_of_list_ascii phenotype_type
                        ++ " is not a valid phenotype type."))
  else Ok (set_phenotype_type self phenotype_type).

(** [_build]: [log_transform = False]; the other three attributes it
    sets belong to [gpmap] and nothing in this file reads them. *)
Definition _build (self : gpm) : gpm :=
  {| wildtype := wildtype self; mutations := mutations self;
     interaction_energies := interaction_energies self;
     temperature := temperature self; target_conf := target_conf self;
     _phenotype_type := _phenotype_type self;
     genotypes := genotypes self; log_transform := false;
     _nativeEs := _nativeEs self; _confs := _confs self;
     _partition_sum := _partition_sum self; _folded := _folded self;
     partition_confs := partition_confs self;
     partition_confs_ := partition_confs_ self;
     Conformations := Conformations self |}.

(** [__init__]; the parameter [interaction_energies] is the caller's
    table. The attributes are assigned in the order of the source; the
    only assignment that can raise is the one of [phenotype_type]. *)
Definition __init__ (wildtype_ : str) (mutations_ : mutations_t)
    (target_conf_ : option str) (temperature_ : R)
    (phenotype_type : str) (interaction_energies_ : table)
  : result gpm :=
  let self :=
    {| wildtype := wildtype_; mutations := mutations_;
       interaction_energies := miyazawa_jernigan;
       temperature := temperature_; target_conf := target_conf_;
       _phenotype_type := lit "";
       genotypes := []; log_transform := false;
       _nativeEs := None; _confs := None;
       _partition_sum := None; _folded := None;
       partition_confs := None; partition_confs_ := None;
       Conformations := None |} in
  self <- phenotype_type_setter self phenotype_type ;;
  let self :=
    {| wildtype := wildtype self; mutations := mutations self;
       interaction_energies := interaction_energies self;
       temperature := temperature self; target_conf := target_conf self;
       _phenotype_type := _phenotype_type self;
       genotypes := mutations_to_genotypes wildtype_ mutations_;
       log_transform := log_transform self;
       _nativeEs := _nativeEs self; _confs := _confs self;
       _partition_sum := _partition_sum self; _folded := _folded self;
       partition_confs := partition_confs self;
       partition_confs_ := partition_confs_ self;
       Conformations := Conformations self |} in
  Ok (_build self).

(** *** Persistence *)

Definition partition_sum (self : gpm) : result (list R) :=
  getattr "_partition_sum" (_partition_sum self).

Definition confs (self : gpm) : result ustr_array :=
  getattr "_confs" (_confs self).

(** The property [folded]. *)
Definition get_folded (self : gpm) : result (list bool) :=
  getattr "_folded" (_folded self).

(** [to_json]: the document that [json.dump] writes to the file, which
    is the document [json.load] reads back from it. *)
Definition to_json (self : gpm) : result (list (string * json)) :=
  nE <- nativeEs self ;;
  Z <- partition_sum self ;;
  c <- confs self ;;
  f <- get_folded self ;;
  Ok [("wildtype", JStr (wildtype self));
      ("genotypes", JList (map JStr (genotypes self)));
      ("nativeEs", JList (map JNum nE));
      ("partition_sum", JList (map JNum Z));
      ("confs", JList (map JStr (items c)));
      ("folded", JList (map JBool f));
      ("phenotype_type", JStr (_phenotype_type self));
      ("temperature", JNum (temperature self));
      ("mutations", dump_mutations (mutations self))]%string.

(** The exception of the [phenotype_type] setter for a value that is
    no string: such a value is never in [types]. *)
Variable invalid_phenotype_type : pyval -> exn.

Fixpoint check_necessary_args (args : list string)
    (data : list (string * pyval)) : result unit :=
  match args with
  | [] => Ok tt
  | arg :: rest =>
      if negb (dict_mem data arg) then
        Raise (Exception (arg ++ " not in json."))
      else check_necessary_args rest data
  end.

(** [setattr(gpm, key, val)] on an object made by [__new__]: the
    properties of the class with a setter store under their private
    name, [phenotype_type] validates, the properties without a setter
    refuse, any other key is a plain attribute. *)
Definition setattr (obj : list (string * pyval)) (key : string)
    (val : pyval) : result (list (string * pyval)) :=
  if String.eqb key "nativeEs" then Ok (dict_set obj "_nativeEs" val)
  else if String.eqb key "partition_sum"
  then Ok (dict_set obj "_partition_sum" val)
  else if String.eqb key "confs" then Ok (dict_set obj "_confs" val)
  else if String.eqb key "folded" then Ok (dict_set obj "_folded" val)
  else if String.eqb key "phenotype_type" then
    match val with
    | Plain (JStr phenotype_type) =>
        if negb (existsb (str_eqb phenotype_type) types) then
          Raise (Exception (string_of_list_ascii phenotype_type
                              ++ " is not a valid phenotype type."))
        else Ok (dict_set obj "_phenotype_type" val)
    | _ => Raise (invalid_phenotype_type val)
    end
  else if String.eqb key "phenotypes" || String.eqb key "stabilities"
          || String.eqb key "fracfolded"
  then Raise (AttributeError key)
  else Ok (dict_set obj key val).

Fixpoint setattrs (obj : list (string * pyval))
    (items : list (string * pyval)) : result (list (string * pyval)) :=
  match items with
  | [] => Ok obj
  | (key, val) :: rest =>
      let val :=
        match val with
        | Plain (JList l) => ndarray l
        | _ => val
        end in
      obj <- setattr obj key val ;;
      setattrs obj rest
  end.

(** [_build] on the attribute dictionary. *)
Definition build_attrs (obj : list (string * pyval))
  : list (string * pyval) :=
  dict_set
    (dict_set
       (dict_set
          (dict_set obj "log_transform" (Plain (JBool false)))
          "n_replicates" (Plain JNull))
       "stdeviations" (Plain JNull))
    "binary" (Opaque "BinaryMap").

(** [from_json], from the loaded [data] on; the result is the attribute
    dictionary of the new object. *)
Definition from_json (data : list (string * json))
    (kwargs : list (string * pyval)) : result (list (string * pyval)) :=
  let data := map (fun kv => (fst kv, Plain (snd kv))) data in
  _ <- check_necessary_args necessary_args data ;;
  let data := dict_update data kwargs in
  gpm <- setattrs [] data ;;
  Ok (build_attrs gpm).

End Model.

End Gpm.

(** * Properties *)

(** ** Loops and indexing *)

Lemma for_each_map {A B : Type} (f : A -> result B) (g : A -> B)
    (l : list A) :
  (forall x, In x l -> f x = Ok (g x)) ->
  for_each f l = Ok (map g l).
Proof.
  induction l as [|x l IH]; intros Hf; simpl.
  - reflexivity.
  - rewrite (Hf x (or_introl eq_refl)); simpl.
    rewrite IH by (intros y Hy; apply Hf; now right).
    reflexivity.
Qed.

Lemma getitem_nth {A : Type} (s : list A) (i : nat) (d : A) :
  i < len s -> getitem s i = Ok (nth i s d).
Proof.
  intros Hi. unfold getitem.
  rewrite (nth_error_nth' s d Hi). reflexivity.
Qed.

(** ** generate_binary_space *)

Module BinarySpace.
Import Utils.

Definition str_lt (a b : str) : Prop := str_ltb a b = true.

Definition is_bit (c : ascii) : Prop := c = "0"%char \/ c = "1"%char.

(** [int(b, 2)]: the value of a binary numeral, first digit most
    significant. *)
Definition int2 (b : str) : nat :=
  fold_left (fun acc c => 2 * acc + (if Ascii.eqb c "1"%char then 1 else 0))
    b 0.

(** The sequence the inner loop builds for the binary string [b]. *)
Definition chosen (wildtype mutant b : str) : str :=
  map (fun i =>
         if Ascii.eqb (nth i b "0"%char) "0"%char
         then nth i wildtype "0"%char
         else nth i mutant "0"%char)
      (seq 0 (len wildtype)).

Lemma str_ltb_irrefl (a : str) : str_ltb a a = false.
Proof.
  induction a as [|x a IH]; simpl; [reflexivity|].
  rewrite N.ltb_irrefl, N.eqb_refl. exact IH.
Qed.

Lemma str_ltb_asym (a b : str) : str_ltb a b = true -> str_ltb b a = false.
Proof.
  revert b; induction a as [|x a IH]; intros [|y b]; simpl;
    try reflexivity; try discriminate.
  destruct (N.ltb_spec (N_of_ascii x) (N_of_ascii y)) as [Hlt|Hge].
  - intros _.
    destruct (N.ltb_spec (N_of_ascii y) (N_of_ascii x)); [lia|].
    destruct (N.eqb_spec (N_of_ascii y) (N_of_ascii x)); [lia|reflexivity].
  - destruct (N.eqb_spec (N_of_ascii x) (N_of_ascii y)) as [He|Hne];
      [|discriminate].
    intros H. rewrite He, N.ltb_irrefl, N.eqb_refl. now apply IH.
Qed.

Lemma str_ltb_cons (c : ascii) (a b : str) :
  str_ltb (c :: a) (c :: b) = str_ltb a b.
Proof. simpl. now rewrite N.ltb_irrefl, N.eqb_refl. Qed.

(** Sorting a strictly ascending list leaves it as it is. *)
Lemma insert_below (x : str) (l : list str) :
  Forall (str_lt x) l -> insert x l = x :: l.
Proof.
  destruct l as [|y l]; simpl; [reflexivity|].
  intros H. inversion H as [|? ? Hxy _]; subst.
  now rewrite (str_ltb_asym _ _ Hxy).
Qed.

Lemma sorted_ascending (l : list str) :
  StronglySorted str_lt l -> sorted l = l.
Proof.
  induction 1 as [|x l Hs IH Hx]; [reflexivity|].
  change (sorted (x :: l)) with (insert x (sorted l)).
  rewrite IH. now apply insert_below.
Qed.

Lemma StronglySorted_append {A : Type} (R : A -> A -> Prop) (l1 l2 : list A) :
  StronglySorted R l1 -> StronglySorted R l2 ->
  (forall x y, In x l1 -> In y l2 -> R x y) ->
  StronglySorted R (l1 ++ l2).
Proof.
  induction 1 as [|x l1 Hs IH Hx]; intros H2 Hc; simpl; [exact H2|].
  constructor.
  - apply IH; [exact H2|]. intros a b Ha Hb. apply Hc; [now right|exact Hb].
  - apply Forall_app; split; [exact Hx|].
    apply Forall_forall. intros y Hy. apply Hc; [now left|exact Hy].
Qed.

Lemma StronglySorted_map_cons (c : ascii) (l : list str) :
  StronglySorted str_lt l -> StronglySorted str_lt (map (cons c) l).
Proof.
  induction 1 as [|x l Hs IH Hx]; simpl; constructor; [exact IH|].
  apply Forall_forall. intros y Hy. apply in_map_iff in Hy as [b [<- Hb]].
  unfold str_lt. rewrite str_ltb_cons.
  rewrite Forall_forall in Hx. now apply Hx.
Qed.

Lemma product_01 (L : nat) :
  product (lit "01") (S L)
  = map (cons "0"%char) (product (lit "01") L)
    ++ map (cons "1"%char) (product (lit "01") L).
Proof. simpl. now rewrite app_nil_r. Qed.

Lemma product_ascending (L : nat) :
  StronglySorted str_lt (product (lit "01") L).
Proof.
  induction L as [|L IH].
  - simpl. repeat constructor.
  - rewrite product_01. apply StronglySorted_append.
    + now apply StronglySorted_map_cons.
    + now apply StronglySorted_map_cons.
    + intros x y Hx Hy.
      apply in_map_iff in Hx as [a [<- _]].
      apply in_map_iff in Hy as [b [<- _]].
      reflexivity.
Qed.

Lemma binaries_product (L : nat) : binaries L = product (lit "01") L.
Proof.
  unfold binaries, join. rewrite map_id.
  apply sorted_ascending, product_ascending.
Qed.

Lemma product_length (L : nat) : len (product (lit "01") L) = 2 ^ L.
Proof.
  induction L as [|L IH]; [reflexivity|].
  rewrite product_01, length_app, !length_map, IH. simpl. lia.
Qed.

Lemma product_complete (L : nat) (b : str) :
  In b (product (lit "01") L) <-> len b = L /\ Forall is_bit b.
Proof.
  revert b; induction L as [|L IH]; intros b.
  - simpl. split.
    + intros [<-|[]]. split; [reflexivity|constructor].
    + intros [Hl _]. left. symmetry. now apply length_zero_iff_nil.
  - rewrite product_01, in_app_iff, !in_map_iff. split.
    + intros [[a [<- Ha]]|[a [<- Ha]]]; apply IH in Ha as [Hl Hb];
        (split; [simpl; now rewrite Hl|constructor; [|exact Hb]]).
      * now left.
      * now right.
    + intros [Hl Hb]. destruct b as [|c b]; [discriminate|].
      inversion Hb as [|? ? Hc Hb']; subst.
      assert (Ha : In b (product (lit "01") L))
        by (apply IH; split; [simpl in Hl; lia|exact Hb']).
      destruct Hc as [->| ->]; [left|right]; exists b; now split.
Qed.

Lemma product_NoDup (L : nat) : NoDup (product (lit "01") L).
Proof.
  pose proof (product_ascending L) as H.
  induction H as [|x l Hs IH Hx]; constructor; [|exact IH].
  intros Hin. rewrite Forall_forall in Hx. specialize (Hx x Hin).
  unfold str_lt in Hx. now rewrite str_ltb_irrefl in Hx.
Qed.

(** The i-th string of the product is the numeral of [i]. *)
Lemma int2_acc (b : str) (acc : nat) :
  fold_left (fun acc c => 2 * acc + (if Ascii.eqb c "1"%char then 1 else 0))
    b acc
  = acc * 2 ^ len b + int2 b.
Proof.
  unfold int2. revert acc; induction b as [|c b IH]; intros acc.
  - simpl. lia.
  - cbn [fold_left len]. rewrite IH. rewrite (IH (2 * 0 + _)).
    rewrite Nat.pow_succ_r'. lia.
Qed.

Lemma int2_cons (c : ascii) (b : str) :
  int2 (c :: b) = (if Ascii.eqb c "1"%char then 1 else 0) * 2 ^ len b + int2 b.
Proof.
  unfold int2 at 1. cbn [fold_left]. rewrite int2_acc. lia.
Qed.

Lemma product_numeral (L i : nat) (b : str) :
  nth_error (product (lit "01") L) i = Some b -> int2 b = i.
Proof.
  revert i b; induction L as [|L IH]; intros i b.
  - destruct i as [|i]; simpl.
    + now intros [= <-].
    + destruct i; discriminate.
  - rewrite product_01.
    assert (Hlen : forall a, In a (product (lit "01") L) -> len a = L)
      by (intros a Ha; now apply product_complete in Ha).
    destruct (Nat.lt_ge_cases i (2 ^ L)) as [Hi|Hi].
    + rewrite nth_error_app1 by (now rewrite length_map, product_length).
      rewrite nth_error_map.
      destruct (nth_error (product (lit "01") L) i) as [a|] eqn:Ha;
        [|discriminate].
      intros [= <-]. rewrite int2_cons. simpl. now apply IH.
    + rewrite nth_error_app2 by (now rewrite length_map, product_length).
      rewrite length_map, product_length, nth_error_map.
      destruct (nth_error (product (lit "01") L) (i - 2 ^ L)) as [a|] eqn:Ha;
        [|discriminate].
      intros [= <-]. rewrite int2_cons.
      rewrite (Hlen a (nth_error_In _ _ Ha)).
      apply IH in Ha. simpl Ascii.eqb. cbv iota. lia.
Qed.

(** Full divergence, as the source tests it and as a relation. *)
Lemma HammingDistance_le (a b : str) : HammingDistance a b <= len a.
Proof.
  revert b; induction a as [|x a IH]; intros [|y b]; simpl; try lia.
  specialize (IH b). destruct (Ascii.eqb x y); lia.
Qed.

Lemma HammingDistance_full (a b : str) :
  len a = len b ->
  (HammingDistance a b = len a <-> Forall2 (fun x y => x <> y) a b).
Proof.
  revert b; induction a as [|x a IH]; intros [|y b] Hl; try discriminate.
  - simpl. split; [constructor|reflexivity].
  - simpl in Hl. injection Hl as Hl. specialize (IH b Hl). simpl.
    pose proof (HammingDistance_le a b) as Hle.
    destruct (Ascii.eqb_spec x y) as [->|Hne]; split.
    + intros H. lia.
    + intros H. inversion H; subst. congruence.
    + intros H. constructor; [exact Hne|]. apply IH. lia.
    + intros H. inversion H; subst. simpl. f_equal. now apply IH.
Qed.

(** The inner loop never indexes out of range. *)
Lemma build_sequence_chosen (wildtype mutant b : str) :
  len mutant = len wildtype -> len b = len wildtype ->
  build_sequence wildtype mutant b = Ok (chosen wildtype mutant b).
Proof.
  intros Hm Hb. unfold build_sequence, chosen.
  apply for_each_map. intros i Hi. apply in_seq in Hi.
  rewrite (getitem_nth b "0"%char) by lia. simpl.
  destruct (Ascii.eqb (nth i b "0"%char) "0"%char);
    apply getitem_nth; lia.
Qed.

Lemma chosen_cons (w m c : ascii) (ws ms cs : str) :
  chosen (w :: ws) (m :: ms) (c :: cs)
  = (if Ascii.eqb c "0"%char then w else m) :: chosen ws ms cs.
Proof.
  unfold chosen. cbn [len]. rewrite <- cons_seq. cbn [map nth].
  f_equal. rewrite <- seq_shift, map_map. reflexivity.
Qed.

Lemma chosen_length (wildtype mutant b : str) :
  len (chosen wildtype mutant b) = len wildtype.
Proof. unfold chosen. now rewrite length_map, length_seq. Qed.

Lemma chosen_injective (wildtype mutant b1 b2 : str) :
  Forall2 (fun x y => x <> y) wildtype mutant ->
  len b1 = len wildtype -> len b2 = len wildtype ->
  Forall is_bit b1 -> Forall is_bit b2 ->
  chosen wildtype mutant b1 = chosen wildtype mutant b2 -> b1 = b2.
Proof.
  intros Hd. revert b1 b2.
  induction Hd as [|w m ws ms Hwm Hd IH]; intros b1 b2 H1 H2 B1 B2 He.
  - apply length_zero_iff_nil in H1, H2. congruence.
  - destruct b1 as [|c1 b1]; [discriminate|].
    destruct b2 as [|c2 b2]; [discriminate|].
    rewrite !chosen_cons in He. injection He as Hc Ht.
    inversion B1 as [|? ? Hb1 B1']; inversion B2 as [|? ? Hb2 B2']; subst.
    f_equal.
    + destruct Hb1 as [->| ->], Hb2 as [->| ->]; simpl in Hc;
        congruence.
    + apply IH; auto.
Qed.

Lemma chosen_nth (wildtype mutant b : str) (j : nat) :
  len mutant = len wildtype -> len b = len wildtype -> Forall is_bit b ->
  j < len wildtype ->
  exists bj wj mj,
    nth_error b j = Some bj /\ nth_error wildtype j = Some wj /\
    nth_error mutant j = Some mj /\ is_bit bj /\
    nth_error (chosen wildtype mutant b) j
    = Some (if Ascii.eqb bj "1"%char then mj else wj).
Proof.
  intros Hm Hb Hbits Hj.
  exists (nth j b "0"%char), (nth j wildtype "0"%char),
         (nth j mutant "0"%char).
  assert (Hbit : is_bit (nth j b "0"%char)).
  { rewrite Forall_forall in Hbits. apply Hbits, nth_In. lia. }
  repeat split; try (apply nth_error_nth'; lia); [exact Hbit|].
  unfold chosen. rewrite nth_error_map.
  rewrite nth_error_nth' with (d := 0) by (rewrite length_seq; lia).
  rewrite seq_nth by lia. simpl.
  destruct Hbit as [-> | ->]; reflexivity.
Qed.

(** What the function returns on a valid pair. *)
Lemma generate_binary_space_valid (wildtype mutant : str) :
  Forall2 (fun x y => x <> y) wildtype mutant ->
  generate_binary_space wildtype mutant
  = Ok (map (chosen wildtype mutant) (product (lit "01") (len wildtype))).
Proof.
  intros Hd. pose proof (Forall2_length Hd) as Hl.
  unfold generate_binary_space.
  rewrite <- Hl, Nat.eqb_refl. simpl negb. cbv iota.
  rewrite (proj2 (HammingDistance_full wildtype mutant Hl) Hd), Nat.eqb_refl.
  simpl negb. cbv iota. rewrite binaries_product.
  apply for_each_map. intros b Hb. apply product_complete in Hb as [Hb _].
  rewrite build_sequence_chosen by congruence. reflexivity.
Qed.

(** C1. For a wildtype and a mutant of one length L that differ at every
    site, [generate_binary_space] returns 2^L sequences, all distinct and
    all of length L. They follow the binary strings of length L in
    ascending lexicographic order ([binaries L] is strictly ascending and
    holds exactly the strings of L characters '0' or '1', so its i-th
    string is the numeral of i): character j of the i-th sequence is the
    mutant's character j when character j of the i-th binary string is
    '1', and the wildtype's otherwise. *)
Theorem generate_binary_space_enumerates (wildtype mutant : str) :
  Forall2 (fun x y => x <> y) wildtype mutant ->
  exists space,
    generate_binary_space wildtype mutant = Ok space /\
    len space = 2 ^ len wildtype /\
    NoDup space /\
    (forall s, In s space -> len s = len wildtype) /\
    StronglySorted str_lt (binaries (len wildtype)) /\
    (forall b, In b (binaries (len wildtype))
               <-> len b = len wildtype /\ Forall is_bit b) /\
    forall i, i < 2 ^ len wildtype ->
      exists s b,
        nth_error space i = Some s /\
        nth_error (binaries (len wildtype)) i = Some b /\
        int2 b = i /\
        forall j, j < len wildtype ->
          exists bj wj mj,
            nth_error b j = Some bj /\ nth_error wildtype j = Some wj /\
            nth_error mutant j = Some mj /\
            nth_error s j = Some (if Ascii.eqb bj "1"%char then mj else wj).
Proof.
  intros Hd. pose proof (Forall2_length Hd) as Hl.
  exists (map (chosen wildtype mutant) (product (lit "01") (len wildtype))).
  rewrite binaries_product.
  split; [now apply generate_binary_space_valid|].
  split; [now rewrite length_map, product_length|].
  split.
  { apply NoDup_map_NoDup_ForallPairs; [|apply product_NoDup].
    intros b1 b2 H1 H2 He.
    apply product_complete in H1 as [L1 B1], H2 as [L2 B2].
    now apply (chosen_injective Hd). }
  split.
  { intros s Hs. apply in_map_iff in Hs as [b [<- _]].
    apply chosen_length. }
  split; [apply product_ascending|].
  split; [apply product_complete|].
  intros i Hi.
  destruct (nth_error (product (lit "01") (len wildtype)) i) as [b|] eqn:Hb.
  2:{ apply nth_error_None in Hb. rewrite product_length in Hb. lia. }
  exists (chosen wildtype mutant b), b.
  split.
  { rewrite nth_error_map.
    exact (f_equal (option_map (chosen wildtype mutant)) Hb). }
  split; [exact Hb|].
  split; [now apply (product_numeral (len wildtype))|].
  intros j Hj.
  apply nth_error_In, product_complete in Hb as [Lb Bb].
  destruct (@chosen_nth wildtype mutant b j) as (bj & wj & mj & H);
    try congruence; try assumption.
  exists bj, wj, mj. tauto.
Qed.

Lemma generate_binary_space_enumerates_witness :
  Forall2 (fun x y => x <> y) (lit "AB") (lit "CD") /\
  exists space,
    generate_binary_space (lit "AB") (lit "CD") = Ok space /\
    len space = 2 ^ len (lit "AB") /\
    NoDup space /\
    (forall s, In s space -> len s = len (lit "AB")) /\
    StronglySorted str_lt (binaries (len (lit "AB"))) /\
    (forall b, In b (binaries (len (lit "AB")))
               <-> len b = len (lit "AB") /\ Forall is_bit b) /\
    forall i, i < 2 ^ len (lit "AB") ->
      exists s b,
        nth_error space i = Some s /\
        nth_error (binaries (len (lit "AB"))) i = Some b /\
        int2 b = i /\
        forall j, j < len (lit "AB") ->
          exists bj wj mj,
            nth_error b j = Some bj /\ nth_error (lit "AB") j = Some wj /\
            nth_error (lit "CD") j = Some mj /\
            nth_error s j = Some (if Ascii.eqb bj "1"%char then mj else wj).
Proof.
  assert (H : Forall2 (fun x y => x <> y) (lit "AB") (lit "CD"))
    by (repeat constructor; discriminate).
  split; [exact H|].
  exact (generate_binary_space_enumerates H).
Defined.

(** C9. [generate_binary_space] raises the length error ([IndexError],
    the spec's ValidationError) when the lengths differ, the divergence
    error (the plain [Exception], the spec's DivergenceError) when the
    lengths agree and some site does not differ, and nothing on a pair of
    one length that differs at every site. *)
Theorem generate_binary_space_errors (wildtype mutant : str) :
  (len wildtype <> len mutant ->
   generate_binary_space wildtype mutant
   = Raise (IndexError
       "ancestor_sequence and derived sequence must be the same length."))
  /\
  (len wildtype = len mutant ->
   ~ Forall2 (fun x y => x <> y) wildtype mutant ->
   generate_binary_space wildtype mutant
   = Raise (Exception "Wildtype and mutant must differ at all sites."))
  /\
  (Forall2 (fun x y => x <> y) wildtype mutant ->
   exists space, generate_binary_space wildtype mutant = Ok space).
Proof.
  repeat split.
  - intros Hl. unfold generate_binary_space.
    apply Nat.eqb_neq in Hl. now rewrite Hl.
  - intros Hl Hd. unfold generate_binary_space.
    rewrite Hl, Nat.eqb_refl. simpl negb. cbv iota.
    destruct (Nat.eqb_spec (HammingDistance wildtype mutant) (len mutant))
      as [He|Hne]; [|reflexivity].
    exfalso. apply Hd. apply HammingDistance_full; congruence.
  - intros Hd. eexists. now apply generate_binary_space_valid.
Qed.

Lemma generate_binary_space_errors_witness :
  generate_binary_space (lit "AB") (lit "ABC")
  = Raise (IndexError
      "ancestor_sequence and derived sequence must be the same length.")
  /\
  generate_binary_space (lit "AB") (lit "AB")
  = Raise (Exception "Wildtype and mutant must differ at all sites.")
  /\
  exists space, generate_binary_space (lit "AB") (lit "CD") = Ok space.
Proof.
  split; [|split].
  - apply (generate_binary_space_errors (lit "AB") (lit "ABC")).
    simpl. lia.
  - apply (generate_binary_space_errors (lit "AB") (lit "AB")).
    + reflexivity.
    + intros H. inversion H as [|? ? ? ? Hne _]; subst. now apply Hne.
  - apply (generate_binary_space_errors (lit "AB") (lit "CD")).
    repeat constructor; discriminate.
Defined.

End BinarySpace.

(** ** search_conformation_space and search_fitness_landscape *)

Module LandscapeSearch.
Import Utils.

Lemma int_is_eq (a b : nat) : int_is a b = true -> a = b.
Proof.
  unfold int_is. intros H. apply andb_true_iff in H as [H _].
  now apply Nat.eqb_eq.
Qed.

Section Loop.

Variable RandomSequence : nat -> str.
Variable passes : str -> bool.
Variable length : nat.
Variable max_iter : Z.

(** What holds of [sequences] all along the loop. *)
Definition accepted (sequences : list str) : Prop :=
  len sequences <= 2 /\
  Forall (fun s => passes s = true) sequences /\
  forall s0 s1, sequences = [s0; s1] -> HammingDistance s0 s1 = length.

Lemma accepted_nil : accepted [].
Proof.
  split; [simpl; lia|]. split; [constructor|]. intros ? ? [=].
Qed.

Lemma body_accepted (counter : Z) (sequences : list str) :
  accepted sequences -> len sequences < 2 ->
  accepted (body RandomSequence passes length counter sequences).
Proof.
  intros (Hlen & Hall & Hpair) Hlt. unfold body, join.
  destruct (passes (RandomSequence (Z.to_nat counter))) eqn:Hp;
    [|now repeat split].
  destruct sequences as [|s0 [|s1 rest]]; [| |simpl in Hlt; lia].
  - split; [simpl; lia|]. split; [now repeat constructor|]. intros ? ? [=].
  - destruct (int_is _ _) eqn:His; [|now repeat split].
    split; [simpl; lia|]. split.
    + inversion Hall; subst. now repeat constructor.
    + intros a b [= <- <-]. now apply int_is_eq.
Qed.

(** The loop leaves with its condition false, the counter having gone up
    by one per pass and never past [max_iter]. *)
Lemma while_loop_exit (fuel : nat) (counter : Z) (sequences : list str) :
  accepted sequences ->
  (Z.to_nat (max_iter - counter) <= fuel)%nat ->
  let r := while_loop RandomSequence passes length max_iter
             fuel counter sequences in
  accepted (snd r) /\
  (counter <= fst r <= Z.max counter max_iter)%Z /\
  (len (snd r) <? 2) && (fst r <? max_iter)%Z = false.
Proof.
  revert counter sequences.
  induction fuel as [|fuel IH]; intros counter sequences Hacc Hfuel; simpl.
  - split; [exact Hacc|]. split; [lia|].
    apply andb_false_iff. right. apply Z.ltb_ge. lia.
  - destruct ((len sequences <? 2) && (counter <? max_iter)%Z) eqn:Hc.
    + apply andb_true_iff in Hc as [Hl Hm].
      apply Nat.ltb_lt in Hl. apply Z.ltb_lt in Hm.
      destruct (IH (counter + 1)%Z
                   (body RandomSequence passes length counter sequences))
        as (Ha & Hb & Hd); [now apply body_accepted|lia|].
      split; [exact Ha|]. split; [lia|exact Hd].
    + simpl. split; [exact Hacc|]. split; [lia|exact Hc].
Qed.

(** With a budget that is not negative, a normal return is a pair of
    sequences that pass the threshold and differ at every site. *)
Lemma search_returns_pair (sequences : list str) :
  (0 <= max_iter)%Z ->
  search RandomSequence passes length max_iter = Ok sequences ->
  exists s0 s1,
    sequences = [s0; s1] /\ HammingDistance s0 s1 = length /\
    passes s0 = true /\ passes s1 = true.
Proof.
  intros Hm. unfold search.
  pose proof (@while_loop_exit (Z.to_nat max_iter) 0%Z [] accepted_nil)
    as H.
  destruct (while_loop _ _ _ _ _ _ _) as [counter seqs].
  destruct H as ((Hlen & Hall & Hpair) & Hc & Hexit); [lia|].
  simpl in *.
  destruct (Z.eqb_spec counter max_iter) as [He|Hne]; [discriminate|].
  intros [= <-].
  apply andb_false_iff in Hexit as [Hexit|Hexit];
    [apply Nat.ltb_ge in Hexit|apply Z.ltb_ge in Hexit; lia].
  destruct seqs as [|s0 [|s1 [|s2 rest]]]; simpl in *; try lia.
  exists s0, s1. inversion Hall as [|? ? H0 Hall']; subst.
  inversion Hall'; subst. repeat split; auto.
Qed.

(** A negative budget: no pass of the loop, [counter = 0] is not
    [max_iter], and the empty list is returned. *)
Lemma search_negative_budget :
  (max_iter < 0)%Z ->
  search RandomSequence passes length max_iter = Ok [].
Proof.
  intros Hm. unfold search.
  replace (Z.to_nat max_iter) with 0%nat by lia. cbn [while_loop].
  destruct (Z.eqb_spec 0 max_iter); [lia|reflexivity].
Qed.

End Loop.

Lemma float_lt_true (x y : R) : (x < y)%R -> float_lt x y = true.
Proof. intros H. unfold float_lt. now destruct (Rlt_dec x y). Qed.

Lemma float_lt_false (x y : R) : ~ (x < y)%R -> float_lt x y = false.
Proof. intros H. unfold float_lt. now destruct (Rlt_dec x y). Qed.

Lemma float_lt_iff (x y : R) : float_lt x y = true <-> (x < y)%R.
Proof.
  unfold float_lt. destruct (Rlt_dec x y); split; auto; discriminate.
Qed.

(** With a budget that is not negative, both searches return only pairs
    that differ at every site and meet the threshold. *)
Lemma search_conformation_space_pair (RandomSequence : nat -> str)
    (C : Conformations) (temperature threshold : R) (max_iter : Z)
    (sequences : list str) :
  (0 <= max_iter)%Z ->
  search_conformation_space RandomSequence C temperature threshold max_iter
  = Ok sequences ->
  exists s0 s1,
    sequences = [s0; s1] /\ HammingDistance s0 s1 = Length C /\
    (FoldSequence C s0 temperature < threshold)%R /\
    (FoldSequence C s1 temperature < threshold)%R.
Proof.
  intros Hm Hs. unfold search_conformation_space in Hs.
  apply search_returns_pair in Hs as (s0 & s1 & He & Hd & H0 & H1);
    [|exact Hm].
  exists s0, s1. rewrite <- !float_lt_iff. auto.
Qed.

Lemma search_fitness_landscape_pair (RandomSequence : nat -> str)
    (F : FitnessOracle) (threshold : R) (max_iter : Z)
    (sequences : list str) :
  (0 <= max_iter)%Z ->
  search_fitness_landscape RandomSequence F threshold max_iter
  = Ok sequences ->
  exists s0 s1,
    sequences = [s0; s1] /\ HammingDistance s0 s1 = Fitness_Length F /\
    (threshold < Fitness F s0)%R /\ (threshold < Fitness F s1)%R.
Proof.
  intros Hm Hs. unfold search_fitness_landscape in Hs.
  apply search_returns_pair in Hs as (s0 & s1 & He & Hd & H0 & H1);
    [|exact Hm].
  exists s0, s1. rewrite <- !float_lt_iff. auto.
Qed.

(** A run of two draws, "A" then "B" ever after, on an oracle for
    sequences of length 1 under which every sequence has energy -1 and
    fitness 1. *)
Definition draws_A_B (k : nat) : str :=
  match k with
  | O => lit "A"
  | S _ => lit "B"
  end.

Definition every_sequence_folds : Conformations :=
  {| Length := 1; FoldSequence := fun _ _ => (-1)%R |}.

Definition every_sequence_fit : FitnessOracle :=
  {| Fitness_Length := 1; Fitness := fun _ => 1%R |}.

(** C4 (the code departs from the claim). With a budget of two draws,
    the threshold 0 and the draws "A", "B", the loop of
    [search_conformation_space] stops with the fully divergent pair
    ["A"; "B"], both of energy -1, found on the second of its two draws;
    the function then raises, because [counter] equals [max_iter]. The
    same holds of [search_fitness_landscape]. With a budget of three
    draws the same pair is returned. *)
Theorem search_raises_with_pair_found :
  while_loop draws_A_B
    (fun sequence =>
       float_lt (FoldSequence every_sequence_folds sequence 1) 0)
    (Length every_sequence_folds) 2 (Z.to_nat 2) 0 []
  = (2%Z, [lit "A"; lit "B"]) /\
  search_conformation_space draws_A_B every_sequence_folds 1 0 2
  = Raise (Exception max_iterations_msg) /\
  search_fitness_landscape draws_A_B every_sequence_fit 0 2
  = Raise (Exception max_iterations_msg) /\
  search_conformation_space draws_A_B every_sequence_folds 1 0 3
  = Ok [lit "A"; lit "B"].
Proof.
  assert (Hlt : float_lt (-1) 0 = true) by (apply float_lt_true; lra).
  assert (Hgt : float_lt 0 1 = true) by (apply float_lt_true; lra).
  unfold search_conformation_space, search_fitness_landscape, search.
  cbn -[float_lt]. rewrite !Hlt, !Hgt. cbn -[float_lt].
  rewrite ?Hlt, ?Hgt. cbn -[float_lt]. repeat split; reflexivity.
Qed.

(** C5 (the code departs from the claim). With the budget -1 both
    searches return normally, whatever the draws, the oracle and the
    threshold, and what they return is the empty list, not a pair. *)
Theorem search_negative_budget_returns_no_pair
    (RandomSequence : nat -> str) (C : Conformations) (F : FitnessOracle)
    (temperature threshold : R) :
  search_conformation_space RandomSequence C temperature threshold (-1)
  = Ok [] /\
  search_fitness_landscape RandomSequence F threshold (-1) = Ok [].
Proof.
  split; [unfold search_conformation_space|unfold search_fitness_landscape];
    apply search_negative_budget; lia.
Qed.

End LandscapeSearch.

(** ** recalculate_partition_sum *)

Module Thermodynamics.
Import Gpm.

Lemma float_lt_spec (x y : R) : reflect (x < y)%R (float_lt x y).
Proof. unfold float_lt. destruct (Rlt_dec x y); now constructor. Qed.

Lemma float_eq_spec (x y : R) : reflect (x = y) (float_eq x y).
Proof. unfold float_eq. destruct (Req_dec_T x y); now constructor. Qed.

(** Arrays. *)
Lemma update_length {A : Type} (a : list A) (i : nat) (v : A) :
  len (update a i v) = len a.
Proof.
  revert i; induction a as [|x a IH]; intros [|i]; simpl; auto.
Qed.

Lemma update_same {A : Type} (a : list A) (i : nat) (v : A) :
  i < len a -> nth_error (update a i v) i = Some v.
Proof.
  revert i; induction a as [|x a IH]; intros [|i] Hi; simpl in *;
    try lia; [reflexivity|]. apply IH. lia.
Qed.

Lemma update_other {A : Type} (a : list A) (i j : nat) (v : A) :
  j <> i -> nth_error (update a i v) j = nth_error a j.
Proof.
  revert i j; induction a as [|x a IH]; intros [|i] [|j] Hne; simpl;
    try reflexivity; try congruence.
  apply IH. congruence.
Qed.

Section Inner.

Variable table : Type.
Variable fold_energy : str -> str -> table -> R.
Variable self : gpm table.
Variable g : str.

(** The energy of [g] in a conformation, as the loop computes it. *)
Definition fe (conf : str) : R :=
  fold_energy g conf (interaction_energies self).

Definition energies (confs : list str) : list R := map fe confs.

(** The sum of the Boltzmann weights over a list of conformations. *)
Definition boltzmann_sum (confs : list str) : R :=
  fold_right Rplus 0%R
    (map (fun conf => exp (- fe conf / temperature self)) confs).

(** The locals after the loop over [confs], entered with [folded0]. *)
Definition inner (confs : list str) (folded0 : option bool) : locals :=
  fold_left (score_conf fold_energy self g) confs (fresh_locals folded0).

Lemma inner_snoc (confs : list str) (conf : str) (folded0 : option bool) :
  inner (confs ++ [conf]) folded0
  = score_conf fold_energy self g (inner confs folded0) conf.
Proof. unfold inner. now rewrite fold_left_app. Qed.

Lemma z_fold (confs : list str) (l : locals) :
  z (fold_left (score_conf fold_energy self g) confs l)
  = (z l + boltzmann_sum confs)%R.
Proof.
  revert l; induction confs as [|conf confs IH]; intros l.
  - unfold boltzmann_sum. simpl. lra.
  - cbn [fold_left]. rewrite IH. unfold boltzmann_sum. cbn [map fold_right].
    fold (fe conf). unfold score_conf. fold (fe conf).
    destruct (float_lt _ _); [|destruct (float_eq _ _)]; cbn [z]; lra.
Qed.

(** The partition sum of the loop is the sum of the weights. *)
Lemma inner_z (confs : list str) (folded0 : option bool) :
  z (inner confs folded0) = boltzmann_sum confs.
Proof. unfold inner. rewrite z_fold. simpl. lra. Qed.

(** The minimum search: what the loop knows after [confs]. *)
Lemma inner_min (confs : list str) (folded0 : option bool) :
  let l := inner confs folded0 in
  (min_energy l <= 0)%R /\
  (forall conf, In conf confs -> (min_energy l <= fe conf)%R) /\
  ((min_energy l < 0)%R ->
     In (min_conf l) confs /\ fe (min_conf l) = min_energy l) /\
  (min_energy l = 0%R -> min_conf l = lit "").
Proof.
  induction confs as [|conf confs IH] using rev_ind.
  - simpl. repeat split; try lra; try tauto.
  - rewrite inner_snoc. destruct IH as (H0 & Hle & Hneg & Hzero).
    set (l := inner confs folded0) in *.
    unfold score_conf. fold (fe conf).
    destruct (float_lt_spec (fe conf) (min_energy l)) as [Hlt|Hge];
      [|destruct (float_eq_spec (fe conf) (min_energy l)) as [Heq|Hne]];
      cbn [min_energy min_conf].
    + split; [lra|]. split.
      { intros c Hc. apply in_app_iff in Hc as [Hc|[<-|[]]]; [|lra].
        specialize (Hle c Hc). lra. }
      split; [|intros; lra].
      intros _. split; [apply in_app_iff; right; now left|reflexivity].
    + split; [exact H0|]. split.
      { intros c Hc. apply in_app_iff in Hc as [Hc|[<-|[]]]; [auto|lra]. }
      split; [|exact Hzero].
      intros Hm. destruct (Hneg Hm) as [Hin He].
      split; [apply in_app_iff; now left|exact He].
    + split; [exact H0|]. split.
      { intros c Hc. apply in_app_iff in Hc as [Hc|[<-|[]]]; [auto|lra]. }
      split; [|exact Hzero].
      intros Hm. destruct (Hneg Hm) as [Hin He].
      split; [apply in_app_iff; now left|exact He].
Qed.

(** [folded] stays as it was while every energy is above 0. *)
Lemma inner_folded_untouched (confs : list str) (folded0 : option bool) :
  (forall conf, In conf confs -> (0 < fe conf)%R) ->
  folded (inner confs folded0) = folded0 /\
  min_energy (inner confs folded0) = 0%R.
Proof.
  induction confs as [|conf confs IH] using rev_ind; intros Hpos.
  - now simpl.
  - rewrite inner_snoc.
    destruct IH as [Hf Hm];
      [intros c Hc; apply Hpos, in_app_iff; now left|].
    assert (Hc : (0 < fe conf)%R)
      by (apply Hpos, in_app_iff; right; now left).
    unfold score_conf. fold (fe conf). rewrite Hm.
    destruct (float_lt_spec (fe conf) 0); [lra|].
    destruct (float_eq_spec (fe conf) 0); [lra|].
    cbn [folded min_energy]. now split.
Qed.

(** Once an energy is at most 0, [folded] is bound, and it is [True]
    exactly when the minimum is below 0 and reached once. *)
Lemma inner_folded_bound (confs : list str) (folded0 : option bool) :
  (exists conf, In conf confs /\ (fe conf <= 0)%R) ->
  let l := inner confs folded0 in
  exists b,
    folded l = Some b /\
    (b = true <->
     (min_energy l < 0)%R /\
     count_occ Req_dec_T (energies confs) (min_energy l) = 1).
Proof.
  induction confs as [|conf confs IH] using rev_ind.
  - intros [c [[] _]].
  - intros Hex. rewrite inner_snoc.
    pose proof (inner_min confs folded0) as (H0 & Hle & Hneg & _).
    set (l := inner confs folded0) in *.
    unfold energies. rewrite map_app, count_occ_app.
    fold (energies confs). cbn [map count_occ].
    unfold score_conf. fold (fe conf).
    destruct (float_lt_spec (fe conf) (min_energy l)) as [Hlt|Hge];
      [|destruct (float_eq_spec (fe conf) (min_energy l)) as [Heq|Hne]];
      cbn [min_energy folded].
    + exists true. split; [reflexivity|]. split; [|reflexivity].
      intros _. split; [lra|].
      destruct (Req_dec_T (fe conf) (fe conf)); [|congruence].
      rewrite (proj1 (count_occ_not_In Req_dec_T _ _)); [reflexivity|].
      intros Hin. apply in_map_iff in Hin as [c [Hc Hin]].
      specialize (Hle c Hin). lra.
    + exists false. split; [reflexivity|]. split; [discriminate|].
      intros [Hm Hcount]. exfalso.
      destruct (Req_dec_T (fe conf) (min_energy l)); [|congruence].
      destruct (Hneg Hm) as [Hin He].
      assert (Hpos : count_occ Req_dec_T (energies confs) (min_energy l) > 0).
      { apply count_occ_In. rewrite <- He. unfold energies.
        now apply in_map. }
      lia.
    + assert (Hex' : exists c, In c confs /\ (fe c <= 0)%R).
      { destruct Hex as [c [Hc Hc0]].
        apply in_app_iff in Hc as [Hc|[<-|[]]]; [now exists c|].
        assert (Hm : (min_energy l < 0)%R) by lra.
        destruct (Hneg Hm) as [Hin He]. exists (min_conf l).
        split; [exact Hin|lra]. }
      destruct (IH Hex') as [b [Hb Hiff]]. exists b.
      split; [exact Hb|].
      destruct (Req_dec_T (fe conf) (min_energy l)); [congruence|].
      now rewrite Nat.add_0_r.
Qed.

End Inner.

Section Outer.

Variable table : Type.
Variable fold_energy : str -> str -> table -> R.
Variable conf_list : list str.

(** The four arrays exist and have one slot per genotype, as [fold]
    leaves them. *)
Definition allocated (self : gpm table) : Prop :=
  exists nE c Z f,
    _nativeEs self = Some nE /\ _confs self = Some c /\
    _partition_sum self = Some Z /\ _folded self = Some f /\
    len nE = n self /\ len (items c) = n self /\
    len Z = n self /\ len f = n self.

(** The width of the array of conformations. *)
Definition width (self : gpm table) : nat :=
  match _confs self with
  | Some c => itemsize c
  | None => 0
  end.

(** The thermodynamic record of genotype [i]: native energy, native
    conformation, partition sum, folded. *)
Definition slot (self : gpm table) (i : nat) : option (R * str * R * bool) :=
  match _nativeEs self, _confs self, _partition_sum self, _folded self with
  | Some nE, Some c, Some Z, Some f =>
      match nth_error nE i, nth_error (items c) i,
            nth_error Z i, nth_error f i with
      | Some e, Some s, Some z, Some b => Some (e, s, z, b)
      | _, _, _, _ => None
      end
  | _, _, _, _ => None
  end.

(** Two states of one map: the same genotypes, settings and array
    shapes. *)
Definition same_map (a b : gpm table) : Prop :=
  genotypes b = genotypes a /\ target_conf b = target_conf a /\
  temperature b = temperature a /\
  interaction_energies b = interaction_energies a /\
  width b = width a.

Lemma same_map_refl (a : gpm table) : same_map a a.
Proof. now repeat split. Qed.

Lemma same_map_trans (a b c : gpm table) :
  same_map a b -> same_map b c -> same_map a c.
Proof.
  intros (H1 & H2 & H3 & H4 & H5) (K1 & K2 & K3 & K4 & K5).
  repeat split; congruence.
Qed.

Lemma inner_same_map (a b : gpm table) (g : str) (folded0 : option bool) :
  same_map a b ->
  inner fold_energy b g conf_list folded0
  = inner fold_energy a g conf_list folded0.
Proof.
  intros (_ & _ & HT & Hi & _). unfold inner, score_conf.
  now rewrite HT, Hi.
Qed.

(** Slot [i] holds what the loop over [conf_list] computes for genotype
    [i] of [ref], whatever [folded] was on entry. *)
Definition scored (ref self : gpm table) (i : nat) : Prop :=
  exists g folded0 b,
    nth_error (genotypes ref) i = Some g /\
    let l := inner fold_energy ref g conf_list folded0 in
    folded l = Some b /\
    slot self i
    = Some (min_energy l, firstn (width ref) (min_conf l), z l, b).

Lemma scored_same_map (a b self : gpm table) (i : nat) :
  same_map a b -> scored b self i -> scored a self i.
Proof.
  intros Hs (g & f0 & b0 & Hg & Hf & Hslot).
  pose proof Hs as (Hgen & _ & _ & _ & Hw).
  exists g, f0, b0. rewrite <- Hgen, <- Hw, <- (inner_same_map _ _ Hs).
  auto.
Qed.

(** One pass of the genotype loop. *)
Lemma score_genotype_step (self : gpm table) (folded0 : option bool)
    (i : nat) (g : str) :
  target_conf self = None -> allocated self -> i < n self ->
  nth_error (genotypes self) i = Some g ->
  let l := inner fold_energy self g conf_list folded0 in
  match folded l with
  | None =>
      score_genotype fold_energy conf_list self folded0 i
      = Raise (UnboundLocalError "folded")
  | Some b =>
      exists self',
        score_genotype fold_energy conf_list self folded0 i
        = Ok (self', Some b) /\
        same_map self self' /\ allocated self' /\
        slot self' i
        = Some (min_energy l, firstn (width self) (min_conf l), z l, b) /\
        forall j, j <> i -> slot self' j = slot self j
  end.
Proof.
  intros Ht (nE & c & Z & f & HnE & Hc & HZ & Hf & LnE & Lc & LZ & Lf) Hi Hg.
  intros l. unfold score_genotype, getitem. rewrite Hg. cbn [bind].
  fold (inner fold_energy self g conf_list folded0). fold l.
  unfold store_partition_sum. rewrite HZ. cbn [getattr bind]. unfold setitem.
  rewrite (proj2 (Nat.ltb_lt i (len Z))) by lia. cbn [bind].
  cbn [target_conf set_partition_sum]. rewrite Ht.
  unfold store_nativeE. cbn [_nativeEs set_partition_sum]. rewrite HnE.
  cbn [getattr bind]. unfold setitem.
  rewrite (proj2 (Nat.ltb_lt i (len nE))) by lia. cbn [bind].
  unfold read_folded. destruct (folded l) as [b|] eqn:Hfl; [|reflexivity].
  cbn [bind]. unfold store_folded. cbn [_folded set_nativeEs set_partition_sum].
  rewrite Hf. cbn [getattr bind]. unfold setitem.
  rewrite (proj2 (Nat.ltb_lt i (len f))) by lia. cbn [bind].
  unfold store_conf.
  cbn [_confs set_folded set_nativeEs set_partition_sum].
  rewrite Hc. cbn [getattr bind]. unfold setitem_U, setitem.
  rewrite (proj2 (Nat.ltb_lt i (len (items c)))) by lia. cbn [bind].
  eexists. split; [reflexivity|].
  split; [unfold same_map, width; cbn; rewrite Hc; now repeat split|].
  split.
  { unfold allocated, n. cbn.
    exists (update nE i (min_energy l)),
           {| itemsize := itemsize c;
              items := update (items c) i
                         (firstn (itemsize c) (min_conf l)) |},
           (update Z i (z l)), (update f i b).
    cbn [items]. rewrite !update_length. unfold n in *. tauto. }
  split.
  - unfold slot, width. cbn. rewrite Hc.
    rewrite !update_same by lia. reflexivity.
  - intros j Hj. unfold slot. cbn. rewrite HnE, Hc, HZ, Hf.
    rewrite !update_other by exact Hj. reflexivity.
Qed.

Lemma folded_stays_bound (self : gpm table) (g : str) (confs : list str)
    (l : locals) :
  folded l <> None ->
  folded (fold_left (score_conf fold_energy self g) confs l) <> None.
Proof.
  revert l; induction confs as [|conf confs IH]; intros l Hl; [exact Hl|].
  cbn [fold_left]. apply IH. unfold score_conf.
  destruct (float_lt _ _); [|destruct (float_eq _ _)]; cbn [folded];
    try discriminate. exact Hl.
Qed.

(** The genotype loop over a list of indices: it completes as soon as
    [folded] is bound on entry or the first genotype binds it, and then
    every index of the list holds its record. *)
Lemma score_genotypes_spec (indices : list nat) :
  forall (self : gpm table) (folded0 : option bool),
  target_conf self = None -> allocated self ->
  (forall i, In i indices -> i < n self) -> NoDup indices ->
  (folded0 = None ->
   forall i0 rest, indices = i0 :: rest ->
     exists g conf, nth_error (genotypes self) i0 = Some g /\
                    In conf conf_list /\
                    (fe fold_energy self g conf <= 0)%R) ->
  exists self' f',
    score_genotypes fold_energy conf_list self folded0 indices
    = Ok (self', f') /\
    same_map self self' /\ allocated self' /\
    (forall i, In i indices -> scored self self' i) /\
    (forall j, ~ In j indices -> slot self' j = slot self j).
Proof.
  induction indices as [|i rest IH]; intros self folded0 Ht Ha Hin Hnd Hb.
  - exists self, folded0. split; [reflexivity|].
    split; [apply same_map_refl|]. split; [exact Ha|].
    split; [intros i []|reflexivity].
  - assert (Hi : i < n self) by (apply Hin; now left).
    destruct (nth_error (genotypes self) i) as [g|] eqn:Hg.
    2:{ apply nth_error_None in Hg. unfold n in Hi. lia. }
    pose proof (@score_genotype_step self folded0 i g Ht Ha Hi Hg) as Hstep.
    cbv zeta in Hstep.
    destruct (folded (inner fold_energy self g conf_list folded0))
      as [b|] eqn:Hfl.
    2:{ exfalso. destruct folded0 as [b0|].
        - revert Hfl. unfold inner. now apply folded_stays_bound.
        - destruct (Hb eq_refl i rest eq_refl) as (g' & conf & Hg' & Hc & Hle).
          assert (g' = g) by congruence. subst g'.
          destruct (@inner_folded_bound _ fold_energy self g conf_list None)
            as [b [Hbb _]]; [now exists conf|].
          cbv zeta in Hbb. congruence. }
    destruct Hstep as (self1 & Hrun & Hsame1 & Ha1 & Hslot1 & Hothers1).
    pose proof Hsame1 as (Hgen1 & Ht1 & _).
    inversion Hnd as [|? ? Hnotin Hnd']; subst.
    destruct (IH self1 (Some b)) as (self' & f' & Hrun' & Hsame' & Ha' & Hsc & Hoth).
    + congruence.
    + exact Ha1.
    + intros j Hj. unfold n. rewrite Hgen1. apply Hin. now right.
    + exact Hnd'.
    + discriminate.
    + exists self', f'. cbn [score_genotypes]. rewrite Hrun. cbn [bind fst snd].
      split; [exact Hrun'|].
      split; [now apply (same_map_trans Hsame1)|].
      split; [exact Ha'|].
      split.
      * intros j [<-|Hj].
        -- exists g, folded0, b. split; [exact Hg|]. cbv zeta.
           split; [exact Hfl|].
           rewrite (Hoth i Hnotin). exact Hslot1.
        -- apply (scored_same_map Hsame1). now apply Hsc.
      * intros j Hj. rewrite Hoth by (intros Hr; apply Hj; now right).
        apply Hothers1. intros ->. apply Hj. now left.
Qed.

(** A whole pass. *)
Lemma recalculate_partition_sum_scores (self : gpm table) :
  target_conf self = None -> allocated self ->
  (forall g0, nth_error (genotypes self) 0 = Some g0 ->
     exists conf, In conf conf_list /\ (fe fold_energy self g0 conf <= 0)%R) ->
  exists self',
    recalculate_partition_sum fold_energy self conf_list = Ok self' /\
    same_map self self' /\ allocated self' /\
    forall i, i < n self -> scored self self' i.
Proof.
  intros Ht Ha Hfirst. unfold recalculate_partition_sum.
  set (self0 := set_partition_confs_attr self conf_list).
  assert (Hsame0 : same_map self self0) by now repeat split.
  assert (Ha0 : allocated self0) by exact Ha.
  destruct (@score_genotypes_spec (seq 0 (n self0)) self0 None)
    as (self' & f' & Hrun & Hsame & Ha' & Hsc & _).
  - exact Ht.
  - exact Ha0.
  - intros i Hi. apply in_seq in Hi. lia.
  - apply seq_NoDup.
  - intros _ i0 rest Hseq.
    assert (Hi0 : i0 = 0).
    { destruct (n self0); [discriminate|]. simpl in Hseq. congruence. }
    subst i0.
    assert (Hn : 0 < n self0).
    { destruct (n self0); [discriminate|]. lia. }
    destruct (nth_error (genotypes self) 0) as [g0|] eqn:Hg0.
    2:{ apply nth_error_None in Hg0. unfold n in Hn. simpl in Hn. lia. }
    destruct (Hfirst g0 eq_refl) as [conf [Hc Hle]].
    exists g0, conf. repeat split; assumption.
  - exists self'. rewrite Hrun. cbn [bind fst].
    split; [reflexivity|]. split; [now apply (same_map_trans Hsame0)|].
    split; [exact Ha'|].
    intros i Hi. apply (scored_same_map Hsame0). apply Hsc.
    apply in_seq. unfold n in *. simpl. lia.
Qed.

End Outer.

(** [fold] with a conformation list allocates the four arrays, one slot
    per genotype, before it scores. *)
Lemma fold_allocates (table : Type) (fold_energy : str -> str -> table -> R)
    (uninit_float : string -> nat -> R) (uninit_str : nat -> str)
    (uninit_bool : nat -> bool) (self : gpm table) (conf_list : list str) :
  wildtype self <> [] ->
  exists self0,
    allocated self0 /\
    genotypes self0 = genotypes self /\
    target_conf self0 = target_conf self /\
    temperature self0 = temperature self /\
    interaction_energies self0 = interaction_energies self /\
    width self0 = Nat.max 1 (len (wildtype self) - 1) /\
    fold fold_energy uninit_float uninit_str uninit_bool self
      (Some conf_list) None
    = (self1 <- recalculate_partition_sum fold_energy self0 conf_list ;;
       match target_conf self1 with
       | Some target => set_target_conf fold_energy self1 target
       | None => Ok self1
       end).
Proof.
  intros Hw. unfold fold, confs_itemsize, length.
  cbn [wildtype set_nativeEs].
  destruct (wildtype self) as [|c0 w] eqn:Hwt; [congruence|].
  cbn [len bind].
  match goal with
  | |- exists self0, _ /\ _ /\ _ /\ _ /\ _ /\ _ /\
         bind (recalculate_partition_sum _ ?s _) _ = _ => exists s
  end.
  split.
  { unfold allocated, n, np_empty. cbn. do 4 eexists.
    repeat (split; [reflexivity|]).
    cbn [items]. rewrite !length_map, !length_seq. tauto. }
  do 4 (split; [reflexivity|]). split; [|reflexivity].
  unfold width. cbn. now rewrite Nat.sub_0_r.
Qed.

(** The maps of the examples: genotypes of length 3 over a table that
    plays no part, the arrays allocated, no target conformation. *)
Definition blank_map (genos : list str) (T : R) : gpm unit :=
  {| wildtype := lit "ABC"; mutations := [];
     interaction_energies := tt; temperature := T; target_conf := None;
     _phenotype_type := lit "stabilities"; genotypes := genos;
     log_transform := false;
     _nativeEs := Some (map (fun _ => 0%R) genos);
     _confs := Some {| itemsize := 2; items := map (fun _ => lit "") genos |};
     _partition_sum := Some (map (fun _ => 0%R) genos);
     _folded := Some (map (fun _ => false) genos);
     partition_confs := None; partition_confs_ := None;
     Conformations := None |}.

Lemma blank_map_allocated (genos : list str) (T : R) :
  allocated (blank_map genos T).
Proof.
  unfold allocated, n. cbn. do 4 eexists.
  repeat (split; [reflexivity|]). cbn. now rewrite !length_map.
Qed.

(** Every conformation costs the same energy [e]. *)
Definition flat_energy (e : R) : str -> str -> unit -> R :=
  fun _ _ _ => e.

(** Genotypes that start with 'A' fold with energy -1 in any
    conformation, the others with energy +1. *)
Definition only_A_folds : str -> str -> unit -> R :=
  fun g _ _ =>
    match g with
    | "A"%char :: _ => (-1)%R
    | _ => 1%R
    end.

(** Genotypes that start with 'A' fold with energy -2 in a conformation
    that starts with 'U' and with energy -1 in any other; the other
    genotypes have energy +1 in every conformation. *)
Definition first_conformation_best : str -> str -> unit -> R :=
  fun g conf _ =>
    match g, conf with
    | "A"%char :: _, "U"%char :: _ => (-2)%R
    | "A"%char :: _, _ => (-1)%R
    | _, _ => 1%R
    end.

(** C10. With no target conformation and the arrays allocated, when
    every conformation of the list gives the first genotype an energy
    above 0 (an empty list included), [recalculate_partition_sum] reads
    the local [folded] while it is unbound and ends in that name error;
    no map is returned. *)
Theorem recalculate_partition_sum_unbound_folded (table : Type)
    (fold_energy : str -> str -> table -> R) (self : gpm table)
    (conf_list : list str) (g : str) (rest : list str) :
  target_conf self = None -> allocated self ->
  genotypes self = g :: rest ->
  (forall conf, In conf conf_list ->
     (0 < fold_energy g conf (interaction_energies self))%R) ->
  recalculate_partition_sum fold_energy self conf_list
  = Raise (UnboundLocalError "folded").
Proof.
  intros Ht Ha Hg Hpos. unfold recalculate_partition_sum.
  set (self0 := set_partition_confs_attr self conf_list).
  assert (Hn : n self0 = S (len rest)) by (unfold n; cbn; now rewrite Hg).
  rewrite Hn. cbn [seq score_genotypes].
  assert (Hstep := @score_genotype_step table fold_energy conf_list
                     self0 None 0 g Ht Ha).
  cbv zeta in Hstep.
  destruct (@inner_folded_untouched table fold_energy self0 g conf_list None)
    as [Hf _]; [exact Hpos|].
  rewrite Hf in Hstep. rewrite Hstep; [reflexivity|lia|].
  cbn. now rewrite Hg.
Qed.

Lemma recalculate_partition_sum_unbound_folded_witness :
  recalculate_partition_sum (flat_energy 1)
    (blank_map [lit "ABC"] 1) [lit "UR"; lit "RU"]
  = Raise (UnboundLocalError "folded").
Proof.
  apply (@recalculate_partition_sum_unbound_folded unit (flat_energy 1)
           (blank_map [lit "ABC"] 1) [lit "UR"; lit "RU"]
           (lit "ABC") []).
  - reflexivity.
  - apply blank_map_allocated.
  - reflexivity.
  - intros conf _. unfold flat_energy. lra.
Defined.

(** The claim of the spec on the native state, as it is worded: after
    the pass every genotype's stored native energy is the minimum of its
    energies over [conf_list] and its stored conformation is one of the
    list with that energy. *)
Definition native_is_list_minimum (table : Type)
    (fold_energy : str -> str -> table -> R) (self : gpm table)
    (conf_list : list str) (self' : gpm table) : Prop :=
  forall i g, nth_error (genotypes self) i = Some g ->
    exists e c z b,
      slot self' i = Some (e, c, z, b) /\
      In c conf_list /\ fe fold_energy self g c = e /\
      forall conf, In conf conf_list ->
        (e <= fe fold_energy self g conf)%R.

(** The stored native state is not always the minimum of the list. Two
    genotypes, one conformation "UR": "ABC" has energy -1 in it, "BBC"
    has energy +1. The pass completes, and for "BBC" it stores the seed
    of the search (energy 0, which no conformation of the list has) and
    not the minimum of the list, 1. *)
Lemma native_state_not_list_minimum :
  ~ exists self',
      recalculate_partition_sum only_A_folds
        (blank_map [lit "ABC"; lit "BBC"] 1) [lit "UR"] = Ok self' /\
      native_is_list_minimum only_A_folds
        (blank_map [lit "ABC"; lit "BBC"] 1) [lit "UR"] self'.
Proof.
  intros (self' & Hrun & Hclaim).
  destruct (Hclaim 1 (lit "BBC") eq_refl)
    as (e & c & z0 & b & Hslot & Hin & He & _).
  destruct (@recalculate_partition_sum_scores unit only_A_folds [lit "UR"]
              (blank_map [lit "ABC"; lit "BBC"] 1))
    as (self'' & Hrun' & _ & _ & Hsc).
  - reflexivity.
  - apply blank_map_allocated.
  - intros g0 [= <-]. exists (lit "UR"). split; [now left|].
    unfold fe, only_A_folds. cbn. lra.
  - assert (self'' = self') by congruence. subst self''.
    destruct (Hsc 1) as (g & f0 & b' & Hg & Hfl & Hslot');
      [unfold n; cbn; lia|].
    assert (Hgeq : g = lit "BBC")
      by (cbn in Hg; injection Hg as <-; reflexivity).
    cbv zeta in Hslot'.
    destruct (@inner_folded_untouched unit only_A_folds
                (blank_map [lit "ABC"; lit "BBC"] 1) g
                [lit "UR"] f0) as [_ Hmin].
    { intros conf _. rewrite Hgeq. unfold fe, only_A_folds. cbn. lra. }
    rewrite Hmin in Hslot'. rewrite Hslot in Hslot'.
    injection Hslot' as He0 _ _ _.
    unfold fe, only_A_folds in He. cbn in He. lra.
Qed.

(** What the search seeded with 0 stores (the behaviour of the code,
    not the intended one). With no target conformation, the arrays
    allocated wide enough for the conformations of the list, and a first
    genotype that has some conformation of energy at most 0, the pass
    completes and,
    for every genotype: the stored native energy is at most every energy
    of the list; if some conformation has an energy below 0, the stored
    conformation is one of the list and has the stored energy, which is
    then the minimum over the list; if none has, the stored energy is 0
    and the stored conformation is the empty string. *)
Theorem native_state_is_seeded_minimum (table : Type)
    (fold_energy : str -> str -> table -> R) (self : gpm table)
    (conf_list : list str) :
  target_conf self = None -> allocated self ->
  (forall conf, In conf conf_list -> len conf <= width self) ->
  (forall g0, nth_error (genotypes self) 0 = Some g0 ->
     exists conf, In conf conf_list /\ (fe fold_energy self g0 conf <= 0)%R) ->
  exists self',
    recalculate_partition_sum fold_energy self conf_list = Ok self' /\
    forall i g, nth_error (genotypes self) i = Some g ->
      exists e c z b,
        slot self' i = Some (e, c, z, b) /\
        (forall conf, In conf conf_list ->
           (e <= fe fold_energy self g conf)%R) /\
        ((exists conf, In conf conf_list /\
                       (fe fold_energy self g conf < 0)%R) ->
         In c conf_list /\ fe fold_energy self g c = e) /\
        ((forall conf, In conf conf_list ->
            (0 <= fe fold_energy self g conf)%R) ->
         e = 0%R /\ c = lit "").
Proof.
  intros Ht Ha Hw Hfirst.
  destruct (@recalculate_partition_sum_scores table fold_energy conf_list
              self Ht Ha Hfirst) as (self' & Hrun & _ & _ & Hsc).
  exists self'. split; [exact Hrun|]. intros i g Hg.
  destruct (Hsc i) as (g' & f0 & b & Hg' & Hfl & Hslot).
  { apply nth_error_Some. unfold n. congruence. }
  assert (g' = g) by congruence. subst g'. cbv zeta in Hfl, Hslot.
  pose proof (@inner_min table fold_energy self g conf_list f0)
    as (H0 & Hle & Hneg & Hzero). cbv zeta in H0, Hle, Hneg, Hzero.
  set (l := inner fold_energy self g conf_list f0) in *.
  exists (min_energy l), (firstn (width self) (min_conf l)), (z l), b.
  split; [exact Hslot|]. split; [exact Hle|]. split.
  - intros (conf & Hc & Hlt).
    assert (Hm : (min_energy l < 0)%R) by (specialize (Hle conf Hc); lra).
    destruct (Hneg Hm) as [Hin He].
    rewrite firstn_all2 by (now apply Hw). now split.
  - intros Hpos.
    assert (Hm : min_energy l = 0%R).
    { destruct (Rle_lt_or_eq_dec _ _ H0) as [Hlt|Heq]; [|exact Heq].
      destruct (Hneg Hlt) as [Hin He]. specialize (Hpos _ Hin). lra. }
    split; [exact Hm|]. rewrite (Hzero Hm). now destruct (width self).
Qed.

Lemma native_state_is_seeded_minimum_witness :
  exists self',
    recalculate_partition_sum only_A_folds
      (blank_map [lit "ABC"; lit "BBC"] 1) [lit "UR"] = Ok self' /\
    forall i g,
      nth_error (genotypes (blank_map [lit "ABC"; lit "BBC"] 1)) i
      = Some g ->
      exists e c z b,
        slot self' i = Some (e, c, z, b) /\
        (forall conf, In conf [lit "UR"] ->
           (e <= fe only_A_folds
                   (blank_map [lit "ABC"; lit "BBC"] 1) g conf)%R) /\
        ((exists conf, In conf [lit "UR"] /\
            (fe only_A_folds
                (blank_map [lit "ABC"; lit "BBC"] 1) g conf < 0)%R) ->
         In c [lit "UR"] /\
         fe only_A_folds (blank_map [lit "ABC"; lit "BBC"] 1) g c = e) /\
        ((forall conf, In conf [lit "UR"] ->
            (0 <= fe only_A_folds
                    (blank_map [lit "ABC"; lit "BBC"] 1) g conf)%R) ->
         e = 0%R /\ c = lit "").
Proof.
  apply (@native_state_is_seeded_minimum unit only_A_folds
           (blank_map [lit "ABC"; lit "BBC"] 1) [lit "UR"]).
  - reflexivity.
  - apply blank_map_allocated.
  - intros conf [<-|[]]. unfold width. cbn. lia.
  - intros g0 [= <-]. exists (lit "UR"). split; [now left|].
    unfold fe, only_A_folds. cbn. lra.
Defined.

(** The claim of the spec on the partition sum and on ties, as it is
    worded: after the pass every genotype's partition sum is the sum of
    the weights and, when its minimum energy over the list is reached
    twice or more, that minimum is stored and the genotype is not
    folded. *)
Definition ties_are_recorded (table : Type)
    (fold_energy : str -> str -> table -> R) (self : gpm table)
    (conf_list : list str) (self' : gpm table) : Prop :=
  forall i g, nth_error (genotypes self) i = Some g ->
    exists e c z b,
      slot self' i = Some (e, c, z, b) /\
      z = boltzmann_sum fold_energy self g conf_list /\
      forall m,
        (forall conf, In conf conf_list ->
           (m <= fe fold_energy self g conf)%R) ->
        count_occ Req_dec_T (energies fold_energy self g conf_list) m >= 2 ->
        e = m /\ b = false.

(** A tie at a minimum above 0 is not recorded. Two genotypes, two
    conformations: "ABC" has energy -1 in both, "BBC" has energy +1 in
    both. The pass completes;
    the two conformations share the minimum energy 1 of "BBC", and the
    energy stored for it is 0. *)
Lemma tied_minimum_not_recorded :
  ~ exists self',
      recalculate_partition_sum only_A_folds
        (blank_map [lit "ABC"; lit "BBC"] 1) [lit "UR"; lit "RU"]
      = Ok self' /\
      ties_are_recorded only_A_folds
        (blank_map [lit "ABC"; lit "BBC"] 1) [lit "UR"; lit "RU"] self'.
Proof.
  intros (self' & Hrun & Hclaim).
  destruct (Hclaim 1 (lit "BBC") eq_refl)
    as (e & c & z0 & b & Hslot & _ & Htie).
  destruct (Htie 1%R) as [He _].
  { intros conf _. unfold fe, only_A_folds. cbn. lra. }
  { unfold energies, fe, only_A_folds. cbn [map count_occ lit
      list_ascii_of_string].
    destruct (Req_dec_T 1 1); [lia|congruence]. }
  destruct (@recalculate_partition_sum_scores unit only_A_folds
              [lit "UR"; lit "RU"] (blank_map [lit "ABC"; lit "BBC"] 1))
    as (self'' & Hrun' & _ & _ & Hsc).
  - reflexivity.
  - apply blank_map_allocated.
  - intros g0 [= <-]. exists (lit "UR"). split; [now left|].
    unfold fe, only_A_folds. cbn. lra.
  - assert (self'' = self') by congruence. subst self''.
    destruct (Hsc 1) as (g & f0 & b' & Hg & Hfl & Hslot');
      [unfold n; cbn; lia|].
    assert (Hgeq : g = lit "BBC")
      by (cbn in Hg; injection Hg as <-; reflexivity).
    cbv zeta in Hslot'.
    destruct (@inner_folded_untouched unit only_A_folds
                (blank_map [lit "ABC"; lit "BBC"] 1) g
                [lit "UR"; lit "RU"] f0) as [_ Hmin].
    { intros conf _. rewrite Hgeq. unfold fe, only_A_folds. cbn. lra. }
    rewrite Hmin in Hslot'. rewrite Hslot in Hslot'.
    injection Hslot' as He0 _ _ _. lra.
Qed.

(** Where the code does record ties (the behaviour of the code, not
    the intended one). With no target conformation, the arrays allocated
    and a first genotype that has some conformation of energy at most 0,
    the pass completes and, for every genotype, the stored partition sum
    is
    the sum of exp(-energy/temperature) over the list; and when the
    minimum energy over the list is at most 0 and reached by two
    conformations or more, that minimum is the stored native energy and
    the genotype is stored as not folded. *)
Theorem partition_sum_and_tied_minimum (table : Type)
    (fold_energy : str -> str -> table -> R) (self : gpm table)
    (conf_list : list str) :
  target_conf self = None -> allocated self ->
  (forall g0, nth_error (genotypes self) 0 = Some g0 ->
     exists conf, In conf conf_list /\ (fe fold_energy self g0 conf <= 0)%R) ->
  exists self',
    recalculate_partition_sum fold_energy self conf_list = Ok self' /\
    forall i g, nth_error (genotypes self) i = Some g ->
      exists e c z b,
        slot self' i = Some (e, c, z, b) /\
        z = boltzmann_sum fold_energy self g conf_list /\
        forall m,
          (m <= 0)%R ->
          (forall conf, In conf conf_list ->
             (m <= fe fold_energy self g conf)%R) ->
          count_occ Req_dec_T (energies fold_energy self g conf_list) m >= 2 ->
          e = m /\ b = false.
Proof.
  intros Ht Ha Hfirst.
  destruct (@recalculate_partition_sum_scores table fold_energy conf_list
              self Ht Ha Hfirst) as (self' & Hrun & _ & _ & Hsc).
  exists self'. split; [exact Hrun|]. intros i g Hg.
  destruct (Hsc i) as (g' & f0 & b & Hg' & Hfl & Hslot).
  { apply nth_error_Some. unfold n. congruence. }
  assert (g' = g) by congruence. subst g'. cbv zeta in Hfl, Hslot.
  pose proof (@inner_min table fold_energy self g conf_list f0)
    as (H0 & Hle & Hneg & _). cbv zeta in H0, Hle, Hneg.
  pose proof (@inner_folded_bound table fold_energy self g conf_list f0)
    as Hbound. cbv zeta in Hbound.
  set (l := inner fold_energy self g conf_list f0) in *.
  exists (min_energy l), (firstn (width self) (min_conf l)), (z l), b.
  split; [exact Hslot|]. split; [apply inner_z|].
  intros m Hm0 Hmin Hcount.
  assert (Hin : In m (energies fold_energy self g conf_list)).
  { apply (count_occ_In Req_dec_T). lia. }
  apply in_map_iff in Hin as (cm & Hcm & Hcin).
  assert (He : min_energy l = m).
  { pose proof (Hle cm Hcin) as Hle'. rewrite Hcm in Hle'.
    destruct (Rle_lt_or_eq_dec _ _ H0) as [Hlt|Heq]; [|lra].
    destruct (Hneg Hlt) as [Hin He]. specialize (Hmin _ Hin). lra. }
  split; [exact He|].
  destruct Hbound as (b' & Hb' & Hiff).
  { exists cm. split; [exact Hcin|lra]. }
  assert (b' = b) by congruence. subst b'.
  destruct b; [|reflexivity].
  destruct (proj1 Hiff eq_refl) as [_ Hone]. rewrite He in Hone. lia.
Qed.

(** The example of the spec: one genotype, two conformations of energy
    -2 each, temperature 1. *)
Lemma partition_sum_and_tied_minimum_witness :
  exists self' c,
    recalculate_partition_sum (flat_energy (-2))
      (blank_map [lit "ABC"] 1) [lit "UR"; lit "RU"] = Ok self' /\
    slot self' 0 = Some ((-2)%R, c, (exp 2 + exp 2)%R, false).
Proof.
  destruct (@partition_sum_and_tied_minimum unit (flat_energy (-2))
              (blank_map [lit "ABC"] 1) [lit "UR"; lit "RU"])
    as (self' & Hrun & Hall).
  - reflexivity.
  - apply blank_map_allocated.
  - intros g0 _. exists (lit "UR"). split; [now left|].
    unfold fe, flat_energy. lra.
  - destruct (Hall 0 (lit "ABC") eq_refl) as (e & c & z0 & b & Hslot & Hz & Htie).
    destruct (Htie (-2)%R) as [He Hb].
    + lra.
    + intros conf _. unfold fe, flat_energy. lra.
    + unfold energies, fe, flat_energy. cbn [map count_occ].
      destruct (Req_dec_T (-2) (-2)); [lia|congruence].
    + exists self', c. split; [exact Hrun|].
      rewrite Hslot, He, Hb, Hz. unfold boltzmann_sum, fe, flat_energy.
      cbn [map fold_right temperature blank_map].
      replace (- -2 / 1)%R with 2%R by lra.
      replace (exp 2 + (exp 2 + 0))%R with (exp 2 + exp 2)%R by lra.
      reflexivity.
Defined.

End Thermodynamics.

(** ** Derived phenotypes *)

Module Phenotypes.
Import Gpm.

Lemma nth_error_zip {A B : Type} (a : list A) (b : list B) (i : nat)
    (x : A) (y : B) :
  nth_error a i = Some x -> nth_error b i = Some y ->
  nth_error (combine a b) i = Some (x, y).
Proof.
  revert b i; induction a as [|x0 a IH]; intros [|y0 b] [|i]; simpl;
    try discriminate; try congruence.
  apply IH.
Qed.

Lemma np_binop_same_length (f : R -> R -> R) (a b : list R) :
  len a = len b ->
  np_binop f a b = Ok (map (fun p => f (fst p) (snd p)) (combine a b)).
Proof. intros H. unfold np_binop. now rewrite H, Nat.eqb_refl. Qed.

Lemma np_binop_nth (f : R -> R -> R) (a b : list R) (i : nat) (x y : R) :
  nth_error a i = Some x -> nth_error b i = Some y ->
  nth_error (map (fun p => f (fst p) (snd p)) (combine a b)) i
  = Some (f x y).
Proof.
  intros Ha Hb. rewrite nth_error_map, (nth_error_zip _ _ _ Ha Hb).
  reflexivity.
Qed.

Section Formulas.

Variable table : Type.
Variable self : gpm table.
Variables nE Z : list R.
Hypothesis HnE : _nativeEs self = Some nE.
Hypothesis HZ : _partition_sum self = Some Z.
Hypothesis Hlen : len nE = len Z.

(** The array [stabilities] returns on a scored map. *)
Definition stability_array : list R :=
  map (fun p => (fst p + snd p)%R)
    (combine nE
       (map (Rmult (temperature self))
          (map ln
             (map (fun p => (fst p - snd p)%R)
                (combine Z
                   (map exp
                      (map (fun x => (x / temperature self)%R)
                         (map Ropp nE)))))))).

Lemma stabilities_array : stabilities self = Ok stability_array.
Proof.
  unfold stabilities, nativeEs. rewrite HnE, HZ. cbn [getattr bind].
  rewrite np_binop_same_length by (now rewrite !length_map).
  cbn [bind]. rewrite np_binop_same_length; [reflexivity|].
  rewrite !length_map, length_combine, !length_map. lia.
Qed.

Lemma stability_nth (i : nat) (e z : R) :
  nth_error nE i = Some e -> nth_error Z i = Some z ->
  nth_error stability_array i
  = Some (e + temperature self * ln (z - exp (- e / temperature self)))%R.
Proof.
  intros He Hz. unfold stability_array.
  apply (np_binop_nth Rplus); [exact He|].
  rewrite !nth_error_map.
  rewrite (@nth_error_zip _ _ Z _ i z (exp (- e / temperature self)));
    [reflexivity|exact Hz|].
  rewrite !nth_error_map, He. reflexivity.
Qed.

End Formulas.

(** C7. On a scored map (native energies and partition sums present,
    one per genotype), [stabilities] and [fracfolded] return arrays, and
    at every genotype whose partition sum exceeds
    exp(-native_energy/temperature) the stability is
    native_energy + temperature * ln(partition_sum -
    exp(-native_energy/temperature)) and the fraction folded is
    1 / (1 + exp(stability/temperature)) for that same stability. *)
Theorem stability_and_fraction_folded (table : Type) (self : gpm table)
    (nE Z : list R) :
  _nativeEs self = Some nE -> _partition_sum self = Some Z ->
  len nE = len Z ->
  exists S F,
    stabilities self = Ok S /\ fracfolded self = Ok F /\
    forall i e z,
      nth_error nE i = Some e -> nth_error Z i = Some z ->
      (exp (- e / temperature self) < z)%R ->
      exists s,
        s = (e + temperature self
                 * ln (z - exp (- e / temperature self)))%R /\
        nth_error S i = Some s /\
        nth_error F i = Some (1 / (1 + exp (s / temperature self)))%R.
Proof.
  intros HnE HZ Hlen.
  exists (stability_array self nE Z).
  eexists. split; [now apply stabilities_array|]. split.
  - unfold fracfolded. rewrite (@stabilities_array _ self nE Z HnE HZ Hlen).
    cbn [bind]. reflexivity.
  - intros i e z He Hz _. eexists. split; [reflexivity|].
    pose proof (@stability_nth _ self nE Z i e z He Hz) as Hs.
    split; [exact Hs|].
    rewrite !nth_error_map, Hs. reflexivity.
Qed.

(** A scored map of one genotype: the record of the tied example. *)
Definition scored_example : gpm unit :=
  {| wildtype := lit "ABC"; mutations := [(0%Z, Some [lit "A"; lit "B"])];
     interaction_energies := tt; temperature := 1; target_conf := None;
     _phenotype_type := lit "stabilities"; genotypes := [lit "ABC"];
     log_transform := false;
     _nativeEs := Some [(-2)%R];
     _confs := Some {| itemsize := 2; items := [lit "UR"] |};
     _partition_sum := Some [(exp 2 + exp 2)%R];
     _folded := Some [false];
     partition_confs := Some [lit "UR"; lit "RU"];
     partition_confs_ := None; Conformations := None |}.

Lemma stability_and_fraction_folded_witness :
  exists S F s,
    stabilities scored_example = Ok S /\
    fracfolded scored_example = Ok F /\
    (exp (- -2 / 1) < exp 2 + exp 2)%R /\
    s = (-2 + 1 * ln (exp 2 + exp 2 - exp (- -2 / 1)))%R /\
    nth_error S 0 = Some s /\
    nth_error F 0 = Some (1 / (1 + exp (s / 1)))%R.
Proof.
  destruct (@stability_and_fraction_folded unit scored_example
              [(-2)%R] [(exp 2 + exp 2)%R] eq_refl eq_refl eq_refl)
    as (S & F & HS & HF & Hall).
  assert (Hlt : (exp (- -2 / 1) < exp 2 + exp 2)%R).
  { replace (- -2 / 1)%R with 2%R by lra. pose proof (exp_pos 2). lra. }
  destruct (Hall 0 (-2)%R (exp 2 + exp 2)%R eq_refl eq_refl Hlt)
    as (s & Hs & HSs & HFs).
  exists S, F, s. repeat split; assumption.
Defined.

End Phenotypes.

(** ** Construction and the interaction table *)

Module Construction.
Import Gpm.

Lemma str_eqb_refl (a : str) : str_eqb a a = true.
Proof. unfold str_eqb. now destruct (list_eq_dec ascii_dec a a). Qed.

Lemma valid_phenotype_type (p : str) :
  In p types -> existsb (str_eqb p) types = true.
Proof.
  intros H. apply existsb_exists. exists p. split; [exact H|].
  apply str_eqb_refl.
Qed.

(** Rescoring and recomputing against a target conformation read the
    table from the attribute and leave the attribute as it is. *)
Ltac step_bind H :=
  match type of H with
  | bind ?m _ = Ok _ =>
      let E := fresh "E" in
      destruct m eqn:E; [cbn [bind] in H|discriminate H]
  end.

Lemma stores_keep_table (table : Type) (self self' : gpm table)
    (i : nat) :
  (forall v, store_partition_sum self i v = Ok self' ->
             interaction_energies self' = interaction_energies self) /\
  (forall v, store_nativeE self i v = Ok self' ->
             interaction_energies self' = interaction_energies self) /\
  (forall v, store_folded self i v = Ok self' ->
             interaction_energies self' = interaction_energies self) /\
  (forall v, store_conf self i v = Ok self' ->
             interaction_energies self' = interaction_energies self).
Proof.
  unfold store_partition_sum, store_nativeE, store_folded, store_conf.
  repeat split; intros v H; do 2 step_bind H; now injection H as <-.
Qed.

Lemma score_genotypes_keeps_table (table : Type)
    (fold_energy : str -> str -> table -> R) (conf_list : list str)
    (indices : list nat) :
  forall (self self' : gpm table) (f0 f' : option bool),
  score_genotypes fold_energy conf_list self f0 indices = Ok (self', f') ->
  interaction_energies self' = interaction_energies self.
Proof.
  induction indices as [|i rest IH]; intros self self' f0 f' H.
  - cbn in H. now injection H as <- _.
  - cbn [score_genotypes] in H. step_bind H.
    rewrite (IH _ _ _ _ H). clear H IH.
    unfold score_genotype in E. step_bind E. step_bind E.
    apply (stores_keep_table self) in E1.
    destruct (target_conf a1); [injection E as <-; exact E1|].
    step_bind E. apply (stores_keep_table a1) in E2.
    step_bind E. step_bind E. apply (stores_keep_table a2) in E4.
    step_bind E. apply (stores_keep_table a4) in E5.
    injection E as <-. cbn [fst]. congruence.
Qed.

Lemma recalculate_partition_sum_keeps_table (table : Type)
    (fold_energy : str -> str -> table -> R) (self self' : gpm table)
    (conf_list : list str) :
  recalculate_partition_sum fold_energy self conf_list = Ok self' ->
  interaction_energies self' = interaction_energies self.
Proof.
  unfold recalculate_partition_sum. intros H. step_bind H.
  destruct a as [s1 f1]. injection H as <-. cbn [fst].
  now rewrite (score_genotypes_keeps_table _ _ _ _ _ E).
Qed.

Lemma retarget_keeps_table (table : Type)
    (fold_energy : str -> str -> table -> R) (target : str)
    (indices : list nat) :
  forall (self self' : gpm table),
  retarget fold_energy self target indices = Ok self' ->
  interaction_energies self' = interaction_energies self.
Proof.
  induction indices as [|i rest IH]; intros self self' H.
  - cbn in H. now injection H as <-.
  - cbn [retarget] in H. step_bind H. step_bind H.
    apply (stores_keep_table self) in E0.
    step_bind H. apply (stores_keep_table a0) in E1.
    rewrite (IH _ _ H). congruence.
Qed.

Lemma set_target_conf_keeps_table (table : Type)
    (fold_energy : str -> str -> table -> R) (self self' : gpm table)
    (target : str) :
  set_target_conf fold_energy self target = Ok self' ->
  interaction_energies self' = interaction_energies self.
Proof.
  unfold set_target_conf. intros H.
  now rewrite (retarget_keeps_table _ _ _ _ H).
Qed.

(** C8 (the code departs from the claim). Whatever table the caller
    passes as [interaction_energies], the map [__init__] builds holds
    the default table [miyazawa_jernigan], and the energies the scoring
    loop computes are those of the default table. *)
Theorem init_discards_callers_table (table : Type)
    (miyazawa_jernigan callers_table : table)
    (mutations_to_genotypes : str -> mutations_t -> list str)
    (fold_energy : str -> str -> table -> R)
    (wildtype_ : str) (mutations_ : mutations_t) (target : option str)
    (T : R) :
  exists self,
    __init__ miyazawa_jernigan mutations_to_genotypes wildtype_ mutations_
      target T (lit "stabilities") callers_table = Ok self /\
    interaction_energies self = miyazawa_jernigan /\
    forall g conf,
      Thermodynamics.fe fold_energy self g conf
      = fold_energy g conf miyazawa_jernigan.
Proof.
  eexists. split; [reflexivity|]. split; reflexivity.
Qed.

(** The same on an instance: the table is one number, the energy of
    every fold is that number, the default table is -1 and the caller's
    is -5. The energy stored for the wildtype is -1. *)
Definition table_energy : str -> str -> R -> R := fun _ _ t => t.

Lemma scoring_uses_default_table :
  exists self self' c z b,
    __init__ (-1)%R (fun w _ => [w]) (lit "ABC") [] None 1
      (lit "stabilities") (-5)%R = Ok self /\
    fold table_energy (fun _ _ => 0%R) (fun _ => lit "") (fun _ => false)
      self (Some [lit "UR"]) None = Ok self' /\
    Thermodynamics.slot self' 0 = Some ((-1)%R, c, z, b).
Proof.
  eexists. 
  match goal with
  | |- exists self' c z b, ?I = Ok ?s /\ _ =>
      assert (Hinit : I = Ok s) by reflexivity
  end.
  match type of Hinit with _ = Ok ?s => set (self := s) in * end.
  destruct (@Thermodynamics.fold_allocates R table_energy (fun _ _ => 0%R)
              (fun _ => lit "") (fun _ => false) self [lit "UR"])
    as (self0 & Ha & Hg & Ht & HT & Hi & Hw & Hfold); [discriminate|].
  destruct (@Thermodynamics.recalculate_partition_sum_scores R table_energy
              [lit "UR"] self0) as (self' & Hrun & Hsame & _ & Hsc).
  - exact Ht.
  - exact Ha.
  - intros g0 _. exists (lit "UR"). split; [now left|].
    unfold Thermodynamics.fe, table_energy. rewrite Hi. cbn. lra.
  - destruct (Hsc 0) as (g & f0 & b & Hg0 & Hfl & Hslot).
    { unfold n. rewrite Hg. cbn. lia. }
    cbv zeta in Hslot.
    pose proof (@Thermodynamics.inner_min R table_energy self0 g
                  [lit "UR"] f0) as (_ & Hle & Hneg & _).
    cbv zeta in Hle, Hneg.
    assert (Hfe : forall conf,
               Thermodynamics.fe table_energy self0 g conf = (-1)%R).
    { intros conf. unfold Thermodynamics.fe, table_energy.
      rewrite Hi. reflexivity. }
    specialize (Hle (lit "UR") (or_introl eq_refl)). rewrite Hfe in Hle.
    destruct Hneg as [_ Hmin]; [lra|]. rewrite Hfe in Hmin.
    rewrite <- Hmin in Hslot.
    exists self'. do 3 eexists. split; [exact Hinit|]. split; [|exact Hslot].
    rewrite Hfold, Hrun. cbn [bind].
    destruct Hsame as (_ & Ht' & _). rewrite Ht', Ht. reflexivity.
Qed.

End Construction.

(** ** Persistence *)

Module Persistence.
Import Gpm.

Lemma as_floats_JNum (l : list R) : as_floats (map JNum l) = Some l.
Proof. induction l as [|x l IH]; simpl; [reflexivity|now rewrite IH]. Qed.

Lemma as_strs_JStr (l : list str) : as_strs (map JStr l) = Some l.
Proof. induction l as [|x l IH]; simpl; [reflexivity|now rewrite IH]. Qed.

Lemma as_bools_JBool (l : list bool) : as_bools (map JBool l) = Some l.
Proof. induction l as [|x l IH]; simpl; [reflexivity|now rewrite IH]. Qed.

(** Reading an attribute of a loaded map as an array of floats, of
    strings, of booleans. *)
Definition floats_of (obj : list (string * pyval)) (name : string)
  : option (list R) :=
  match array_of (dict_get obj name) with
  | Some l => as_floats l
  | None => None
  end.

Definition strs_of (obj : list (string * pyval)) (name : string)
  : option (list str) :=
  match array_of (dict_get obj name) with
  | Some l => as_strs l
  | None => None
  end.

Definition bools_of (obj : list (string * pyval)) (name : string)
  : option (list bool) :=
  match array_of (dict_get obj name) with
  | Some l => as_bools l
  | None => None
  end.

(** C6. A scored map (the four arrays present, a valid phenotype type)
    is exported without error, the exported document loads without
    error, and the loaded map holds arrays with the same genotypes in
    the same order, the same native energies, partition sums, native
    conformations and folded flags. (Floats are real numbers here, so
    the equality of the energies and sums is exact.) *)
Theorem json_round_trip (table : Type)
    (invalid_phenotype_type : pyval -> exn) (self : gpm table)
    (nE Z : list R) (c : ustr_array) (f : list bool) :
  _nativeEs self = Some nE -> _confs self = Some c ->
  _partition_sum self = Some Z -> _folded self = Some f ->
  In (_phenotype_type self) types ->
  exists data obj,
    to_json self = Ok data /\
    from_json invalid_phenotype_type data [] = Ok obj /\
    strs_of obj "genotypes" = Some (genotypes self) /\
    floats_of obj "_nativeEs" = Some nE /\
    floats_of obj "_partition_sum" = Some Z /\
    strs_of obj "_confs" = Some (items c) /\
    bools_of obj "_folded" = Some f.
Proof.
  intros HnE Hc HZ Hf Hp.
  pose proof (Construction.valid_phenotype_type Hp) as Hv.
  unfold to_json, nativeEs, partition_sum, confs, get_folded.
  rewrite HnE, Hc, HZ, Hf. cbn [getattr bind].
  eexists. eexists. split; [reflexivity|].
  unfold from_json, necessary_args.
  cbn -[existsb types]. rewrite Hv. cbn -[existsb types].
  split; [reflexivity|].
  unfold strs_of, floats_of, bools_of. cbn -[existsb types].
  now rewrite !as_strs_JStr, !as_floats_JNum, as_bools_JBool.
Qed.

Lemma json_round_trip_witness :
  exists data obj,
    to_json Phenotypes.scored_example = Ok data /\
    from_json (fun _ => TypeError "") data [] = Ok obj /\
    strs_of obj "genotypes" = Some [lit "ABC"] /\
    floats_of obj "_nativeEs" = Some [(-2)%R] /\
    floats_of obj "_partition_sum" = Some [(exp 2 + exp 2)%R] /\
    strs_of obj "_confs" = Some [lit "UR"] /\
    bools_of obj "_folded" = Some [false].
Proof.
  apply (@json_round_trip unit (fun _ => TypeError "")
           Phenotypes.scored_example [(-2)%R] [(exp 2 + exp 2)%R]
           {| itemsize := 2; items := [lit "UR"] |} [false]);
    try reflexivity.
  right. now left.
Defined.

End Persistence.

(** * Further properties *)

(** ** generate_binary_space: the ends and the contents of the space *)

Module Enumeration.
Import Utils BinarySpace.

(** [s] takes, site by site, the character of [wildtype] or the one of
    [mutant]. *)
Inductive combines : str -> str -> str -> Prop :=
| combines_nil : combines [] [] []
| combines_wildtype (w m : ascii) (ws ms s : str) :
    combines ws ms s -> combines (w :: ws) (m :: ms) (w :: s)
| combines_mutant (w m : ascii) (ws ms s : str) :
    combines ws ms s -> combines (w :: ws) (m :: ms) (m :: s).

Lemma chosen_zeros (wildtype mutant : str) :
  len mutant = len wildtype ->
  chosen wildtype mutant (repeat "0"%char (len wildtype)) = wildtype.
Proof.
  revert mutant; induction wildtype as [|w ws IH]; intros [|m ms] Hl;
    try discriminate; [reflexivity|].
  cbn [len repeat]. rewrite chosen_cons. cbn. f_equal. apply IH.
  simpl in Hl. lia.
Qed.

Lemma chosen_ones (wildtype mutant : str) :
  len mutant = len wildtype ->
  chosen wildtype mutant (repeat "1"%char (len wildtype)) = mutant.
Proof.
  revert mutant; induction wildtype as [|w ws IH]; intros [|m ms] Hl;
    try discriminate; [reflexivity|].
  cbn [len repeat]. rewrite chosen_cons. cbn. f_equal. apply IH.
  simpl in Hl. lia.
Qed.

Lemma product_first (L : nat) :
  nth_error (product (lit "01") L) 0 = Some (repeat "0"%char L).
Proof.
  induction L as [|L IH]; [reflexivity|].
  rewrite product_01, nth_error_app1.
  - rewrite nth_error_map. unfold str in *. now rewrite IH.
  - rewrite length_map, product_length.
    pose proof (Nat.pow_nonzero 2 L). lia.
Qed.

Lemma product_last (L : nat) :
  nth_error (product (lit "01") L) (2 ^ L - 1) = Some (repeat "1"%char L).
Proof.
  induction L as [|L IH]; [reflexivity|].
  pose proof (Nat.pow_nonzero 2 L) as Hnz.
  rewrite product_01, nth_error_app2;
    rewrite length_map, product_length; [|rewrite Nat.pow_succ_r'; lia].
  replace (2 ^ S L - 1 - 2 ^ L) with (2 ^ L - 1)
    by (rewrite Nat.pow_succ_r'; lia).
  rewrite nth_error_map. unfold str in *. now rewrite IH.
Qed.

Lemma combines_chosen (wildtype mutant b : str) :
  len mutant = len wildtype -> len b = len wildtype ->
  combines wildtype mutant (chosen wildtype mutant b).
Proof.
  revert mutant b; induction wildtype as [|w ws IH];
    intros [|m ms] [|c cs] Hm Hb; try discriminate; [constructor|].
  rewrite chosen_cons. simpl in Hm, Hb.
  destruct (Ascii.eqb c "0"%char); constructor; apply IH; lia.
Qed.

Lemma combines_is_chosen (wildtype mutant s : str) :
  combines wildtype mutant s ->
  exists b, len b = len wildtype /\ Forall is_bit b /\
            chosen wildtype mutant b = s.
Proof.
  induction 1 as [|w m ws ms s _ (b & Hl & Hb & Hc)
                  |w m ws ms s _ (b & Hl & Hb & Hc)].
  - exists []. repeat split. constructor.
  - exists ("0"%char :: b). split; [simpl; lia|].
    split; [constructor; [now left|exact Hb]|].
    rewrite chosen_cons, Hc. reflexivity.
  - exists ("1"%char :: b). split; [simpl; lia|].
    split; [constructor; [now right|exact Hb]|].
    rewrite chosen_cons, Hc. reflexivity.
Qed.

(** X1. For a wildtype and a mutant that differ at every site, the
    space starts with the wildtype and ends with the mutant. *)
Theorem generate_binary_space_ends (wildtype mutant : str) :
  Forall2 (fun x y => x <> y) wildtype mutant ->
  exists space,
    generate_binary_space wildtype mutant = Ok space /\
    nth_error space 0 = Some wildtype /\
    nth_error space (2 ^ len wildtype - 1) = Some mutant.
Proof.
  intros Hd. pose proof (Forall2_length Hd) as Hl.
  eexists. split; [now apply generate_binary_space_valid|].
  rewrite !nth_error_map. unfold str in *.
  rewrite product_first, product_last. cbn [option_map].
  rewrite chosen_zeros, chosen_ones by congruence. now split.
Qed.

Lemma generate_binary_space_ends_witness :
  exists space,
    generate_binary_space (lit "AB") (lit "CD") = Ok space /\
    nth_error space 0 = Some (lit "AB") /\
    nth_error space (2 ^ len (lit "AB") - 1) = Some (lit "CD").
Proof.
  apply (@generate_binary_space_ends (lit "AB") (lit "CD")).
  repeat constructor; discriminate.
Defined.

(** X2. For a wildtype and a mutant that differ at every site, the
    space holds exactly the sequences that take, at every site, the
    wildtype's character or the mutant's. *)
Theorem generate_binary_space_contents (wildtype mutant : str) :
  Forall2 (fun x y => x <> y) wildtype mutant ->
  exists space,
    generate_binary_space wildtype mutant = Ok space /\
    forall s, In s space <-> combines wildtype mutant s.
Proof.
  intros Hd. pose proof (Forall2_length Hd) as Hl.
  eexists. split; [now apply generate_binary_space_valid|].
  intros s. rewrite in_map_iff. split.
  - intros (b & <- & Hb). apply product_complete in Hb as [Hb _].
    apply combines_chosen; congruence.
  - intros Hc. apply combines_is_chosen in Hc as (b & Hb & Hbits & Hc).
    exists b. split; [exact Hc|]. now apply product_complete.
Qed.

Lemma generate_binary_space_contents_witness :
  exists space,
    generate_binary_space (lit "AB") (lit "CD") = Ok space /\
    forall s, In s space <-> combines (lit "AB") (lit "CD") s.
Proof.
  apply (@generate_binary_space_contents (lit "AB") (lit "CD")).
  repeat constructor; discriminate.
Defined.

End Enumeration.

(** ** The searches: which pair comes back, and when none can *)

Module SearchRuns.
Import Utils LandscapeSearch.

Section Runs.

Variable RandomSequence : nat -> str.
Variable passes : str -> bool.
Variable length : nat.
Variable max_iter : Z.

(** Passes that leave [sequences] as it is only move the counter. *)
Lemma while_loop_skip (d fuel : nat) (counter : Z) (sequences : list str) :
  len sequences < 2 -> (0 <= counter)%Z ->
  (counter + Z.of_nat d <= max_iter)%Z ->
  (forall k, (Z.to_nat counter <= k < Z.to_nat counter + d)%nat ->
     body RandomSequence passes length (Z.of_nat k) sequences = sequences) ->
  while_loop RandomSequence passes length max_iter (d + fuel) counter
    sequences
  = while_loop RandomSequence passes length max_iter fuel
      (counter + Z.of_nat d)%Z sequences.
Proof.
  revert counter; induction d as [|d IH]; intros counter Hl Hc Hm Hb.
  - cbn [Nat.add]. now rewrite Z.add_0_r.
  - cbn [Nat.add while_loop].
    rewrite (proj2 (Nat.ltb_lt _ _) Hl).
    rewrite (proj2 (Z.ltb_lt counter max_iter)) by lia. cbn [andb].
    replace (body RandomSequence passes length counter sequences)
      with sequences.
    + rewrite IH; try lia.
      * f_equal. lia.
      * intros k Hk. apply Hb. lia.
    + symmetry. rewrite <- (Z2Nat.id counter) at 1 by lia.
      apply Hb. lia.
Qed.

Lemma body_rejects (k : Z) (sequences : list str) :
  passes (RandomSequence (Z.to_nat k)) = false ->
  body RandomSequence passes length k sequences = sequences.
Proof. intros H. unfold body. now rewrite H. Qed.

(** With a budget that is not negative, when none of the draws the
    budget allows passes the threshold test, the search raises. *)
Lemma search_none_passes :
  (0 <= max_iter)%Z ->
  (forall k, (k < Z.to_nat max_iter)%nat ->
     passes (RandomSequence k) = false) ->
  search RandomSequence passes length max_iter
  = Raise (Exception max_iterations_msg).
Proof.
  intros Hm Hnone. unfold search.
  pose proof (@while_loop_skip (Z.to_nat max_iter) 0 0%Z []) as Hskip.
  rewrite Nat.add_0_r in Hskip. rewrite Hskip.
  - cbn [while_loop]. rewrite Z.add_0_l, Z2Nat.id by lia.
    now rewrite Z.eqb_refl.
  - simpl. lia.
  - lia.
  - lia.
  - intros k Hk. apply body_rejects. rewrite Nat2Z.id. apply Hnone.
    simpl in Hk. lia.
Qed.

(** The pair that comes back: the first draw to pass the test, then the
    first after it to pass the test and be accepted as fully divergent
    from it, provided a draw of the budget is left after that one. *)
Lemma search_first_pair (k0 k1 : nat) :
  k0 < k1 -> (Z.of_nat k1 + 1 < max_iter)%Z ->
  (forall k, k < k0 -> passes (RandomSequence k) = false) ->
  passes (RandomSequence k0) = true ->
  (forall k, k0 < k < k1 ->
     passes (RandomSequence k) = false \/
     int_is (HammingDistance (RandomSequence k0) (RandomSequence k)) length
     = false) ->
  passes (RandomSequence k1) = true ->
  int_is (HammingDistance (RandomSequence k0) (RandomSequence k1)) length
  = true ->
  search RandomSequence passes length max_iter
  = Ok [RandomSequence k0; RandomSequence k1].
Proof.
  intros Hk Hbudget Hbefore Hp0 Hbetween Hp1 Hd1. unfold search.
  set (rest := Z.to_nat max_iter - (k1 + 1)).
  replace (Z.to_nat max_iter)
    with (k0 + S ((k1 - k0 - 1) + S rest)) by (unfold rest; lia).
  rewrite while_loop_skip; try (simpl; lia).
  2:{ intros k Hk'. apply body_rejects. rewrite Nat2Z.id. apply Hbefore.
      simpl in Hk'. lia. }
  rewrite Z.add_0_l. cbn [while_loop len Nat.ltb Nat.leb andb].
  rewrite (proj2 (Z.ltb_lt (Z.of_nat k0) max_iter)) by lia.
  unfold body at 1. rewrite Nat2Z.id, Hp0. cbn [app join].
  unfold join.
  rewrite while_loop_skip; try (simpl; lia).
  2:{ intros k Hk'. replace (Z.to_nat (Z.of_nat k0 + 1)) with (S k0) in Hk'
        by lia.
      unfold body. rewrite Nat2Z.id.
      destruct (Hbetween k) as [Hf|Hf]; [lia| |]; rewrite Hf;
        [reflexivity|]. destruct (passes (RandomSequence k)); reflexivity. }
  replace (Z.of_nat k0 + 1 + Z.of_nat (k1 - k0 - 1))%Z with (Z.of_nat k1)
    by lia.
  cbn [while_loop len Nat.ltb Nat.leb andb].
  rewrite (proj2 (Z.ltb_lt (Z.of_nat k1) max_iter)) by lia.
  unfold body at 1. rewrite Nat2Z.id, Hp1, Hd1. cbn [app]. unfold join.
  assert (Hexit : forall fuel c,
             while_loop RandomSequence passes length max_iter fuel c
               [RandomSequence k0; RandomSequence k1]
             = (c, [RandomSequence k0; RandomSequence k1]))
    by (intros [|fuel] c; reflexivity).
  rewrite Hexit.
  destruct (Z.eqb_spec (Z.of_nat k1 + 1) max_iter); [lia|reflexivity].
Qed.

End Runs.

(** X3. With a budget that is not negative, when no draw the budget
    allows has an energy below the threshold, [search_conformation_space]
    raises; when none has a fitness above the threshold,
    [search_fitness_landscape] raises. *)
Theorem searches_unreachable_threshold (RandomSequence : nat -> str)
    (C : Conformations) (F : FitnessOracle) (temperature threshold : R)
    (max_iter : Z) :
  (0 <= max_iter)%Z ->
  ((forall k, (k < Z.to_nat max_iter)%nat ->
      (threshold <= FoldSequence C (RandomSequence k) temperature)%R) ->
   search_conformation_space RandomSequence C temperature threshold max_iter
   = Raise (Exception max_iterations_msg)) /\
  ((forall k, (k < Z.to_nat max_iter)%nat ->
      (Fitness F (RandomSequence k) <= threshold)%R) ->
   search_fitness_landscape RandomSequence F threshold max_iter
   = Raise (Exception max_iterations_msg)).
Proof.
  intros Hm. split; intros H;
    [unfold search_conformation_space|unfold search_fitness_landscape];
    (apply search_none_passes; [exact Hm|]);
    intros k Hk; apply float_lt_false; specialize (H k Hk); lra.
Qed.

Lemma searches_unreachable_threshold_witness :
  search_conformation_space draws_A_B every_sequence_folds 1 (-2) 5
  = Raise (Exception max_iterations_msg) /\
  search_fitness_landscape draws_A_B every_sequence_fit 1 5
  = Raise (Exception max_iterations_msg).
Proof.
  destruct (@searches_unreachable_threshold draws_A_B every_sequence_folds
              every_sequence_fit 1 (-2) 5) as [H1 _]; [lia|].
  destruct (@searches_unreachable_threshold draws_A_B every_sequence_folds
              every_sequence_fit 1 1 5) as [_ H2]; [lia|].
  split; [apply H1|apply H2]; intros k _; simpl; lra.
Defined.

(** X4. Which pair [search_conformation_space] returns: when draw [k0]
    is the first with an energy below the threshold, draw [k1] is the
    first after it that has an energy below the threshold and passes
    the test of full divergence from draw [k0], and at least one draw of
    the budget is left after [k1], the result is these two draws, in
    this order. The same holds of [search_fitness_landscape] with a
    fitness above the threshold. *)
Theorem searches_return_first_pair (RandomSequence : nat -> str)
    (C : Conformations) (F : FitnessOracle) (temperature threshold : R)
    (max_iter : Z) (k0 k1 : nat) :
  k0 < k1 -> (Z.of_nat k1 + 1 < max_iter)%Z ->
  ((forall k, k < k0 ->
      (threshold <= FoldSequence C (RandomSequence k) temperature)%R) ->
   (FoldSequence C (RandomSequence k0) temperature < threshold)%R ->
   (forall k, k0 < k < k1 ->
      (threshold <= FoldSequence C (RandomSequence k) temperature)%R \/
      int_is (HammingDistance (RandomSequence k0) (RandomSequence k))
        (Length C) = false) ->
   (FoldSequence C (RandomSequence k1) temperature < threshold)%R ->
   int_is (HammingDistance (RandomSequence k0) (RandomSequence k1))
     (Length C) = true ->
   search_conformation_space RandomSequence C temperature threshold max_iter
   = Ok [RandomSequence k0; RandomSequence k1]) /\
  ((forall k, k < k0 -> (Fitness F (RandomSequence k) <= threshold)%R) ->
   (threshold < Fitness F (RandomSequence k0))%R ->
   (forall k, k0 < k < k1 ->
      (Fitness F (RandomSequence k) <= threshold)%R \/
      int_is (HammingDistance (RandomSequence k0) (RandomSequence k))
        (Fitness_Length F) = false) ->
   (threshold < Fitness F (RandomSequence k1))%R ->
   int_is (HammingDistance (RandomSequence k0) (RandomSequence k1))
     (Fitness_Length F) = true ->
   search_fitness_landscape RandomSequence F threshold max_iter
   = Ok [RandomSequence k0; RandomSequence k1]).
Proof.
  intros Hk Hb. split; intros Hbefore H0 Hbetween H1 Hd;
    [unfold search_conformation_space|unfold search_fitness_landscape];
    (apply search_first_pair;
     [exact Hk|exact Hb| | | | |exact Hd]);
    try (apply float_lt_true; assumption).
  - intros k Hk'. apply float_lt_false. specialize (Hbefore k Hk'). lra.
  - intros k Hk'. destruct (Hbetween k Hk') as [Hf|Hf];
      [left; apply float_lt_false; lra|now right].
  - intros k Hk'. apply float_lt_false. specialize (Hbefore k Hk'). lra.
  - intros k Hk'. destruct (Hbetween k Hk') as [Hf|Hf];
      [left; apply float_lt_false; lra|now right].
Qed.

Lemma searches_return_first_pair_witness :
  search_conformation_space draws_A_B every_sequence_folds 1 0 3
  = Ok [lit "A"; lit "B"] /\
  search_fitness_landscape draws_A_B every_sequence_fit 0 3
  = Ok [lit "A"; lit "B"].
Proof.
  destruct (@searches_return_first_pair draws_A_B every_sequence_folds
              every_sequence_fit 1 0 3 0 1) as [H1 H2]; [lia|lia|].
  split; [apply H1|apply H2]; try (intros k Hk; lia);
    try (simpl; lra); reflexivity.
Defined.

End SearchRuns.

(** ** recalculate_partition_sum: when it completes and what it stores *)

Module Scoring.
Import Gpm Thermodynamics.

Section Pass.

Variable table : Type.
Variable fold_energy : str -> str -> table -> R.
Variable conf_list : list str.

(** Over a list, either some energy is at most 0 or all are above 0. *)
Lemma some_nonpositive_or_all_positive (self : gpm table) (g : str)
    (confs : list str) :
  (exists conf, In conf confs /\ (fe fold_energy self g conf <= 0)%R) \/
  (forall conf, In conf confs -> (0 < fe fold_energy self g conf)%R).
Proof.
  induction confs as [|c confs [IH|IH]].
  - right. intros conf [].
  - left. destruct IH as (conf & Hin & Hle). exists conf.
    split; [now right|exact Hle].
  - destruct (Rle_lt_dec (fe fold_energy self g c) 0) as [Hle|Hlt].
    + left. exists c. split; [now left|exact Hle].
    + right. intros conf [<-|Hin]; [exact Hlt|now apply IH].
Qed.

(** The first pass of the genotype loop fails when the first genotype
    leaves [folded] unbound. *)
Lemma recalculate_raises_unbound (self : gpm table) (g : str)
    (rest : list str) :
  target_conf self = None -> allocated self ->
  genotypes self = g :: rest ->
  (forall conf, In conf conf_list -> (0 < fe fold_energy self g conf)%R) ->
  recalculate_partition_sum fold_energy self conf_list
  = Raise (UnboundLocalError "folded").
Proof.
  intros Ht Ha Hg Hpos. unfold recalculate_partition_sum.
  set (self0 := set_partition_confs_attr self conf_list).
  assert (Hn : n self0 = S (len rest)) by (unfold n; cbn; now rewrite Hg).
  rewrite Hn. cbn [seq score_genotypes].
  assert (Hstep := @score_genotype_step table fold_energy conf_list
                     self0 None 0 g Ht Ha).
  cbv zeta in Hstep.
  destruct (@inner_folded_untouched table fold_energy self0 g conf_list None)
    as [Hf _]; [exact Hpos|].
  rewrite Hf in Hstep. rewrite Hstep; [reflexivity|lia|].
  cbn. now rewrite Hg.
Qed.

Lemma same_map_sym (a b : gpm table) : same_map a b -> same_map b a.
Proof.
  intros (H1 & H2 & H3 & H4 & H5). repeat split; congruence.
Qed.

(** What a completed pass has done. *)
Lemma recalculate_ok_inv (self self' : gpm table) :
  target_conf self = None -> allocated self ->
  recalculate_partition_sum fold_energy self conf_list = Ok self' ->
  same_map self self' /\ allocated self' /\
  forall i, i < n self -> scored fold_energy conf_list self self' i.
Proof.
  intros Ht Ha Hrun.
  destruct (genotypes self) as [|g rest] eqn:Hg.
  - unfold recalculate_partition_sum in Hrun.
    replace (n (set_partition_confs_attr self conf_list)) with 0 in Hrun
      by (unfold n; cbn; now rewrite Hg).
    cbn in Hrun. injection Hrun as <-.
    split; [now repeat split|]. split; [exact Ha|].
    intros i Hi. unfold n in Hi. rewrite Hg in Hi. simpl in Hi. lia.
  - destruct (some_nonpositive_or_all_positive self g conf_list)
      as [Hex|Hall].
    + destruct (@recalculate_partition_sum_scores table fold_energy
                  conf_list self Ht Ha) as (s & Hs & Hsame & Hal & Hsc).
      { intros g0 Hg0. rewrite Hg in Hg0. injection Hg0 as <-. exact Hex. }
      assert (s = self') by congruence. subst s. auto.
    + rewrite (recalculate_raises_unbound Ht Ha Hg Hall) in Hrun.
      discriminate.
Qed.

(** Two states of one map go through the genotype loop alike: the same
    exception, or the same records at the indices of the loop. *)
Lemma score_genotypes_agree (indices : list nat) :
  forall (a b : gpm table) (f0 : option bool) (P : nat -> Prop),
  target_conf a = None -> same_map a b -> allocated a -> allocated b ->
  (forall i, In i indices -> i < n a) ->
  (forall j, P j -> slot a j = slot b j) ->
  match score_genotypes fold_energy conf_list a f0 indices with
  | Ok (a', fa) =>
      exists b',
        score_genotypes fold_energy conf_list b f0 indices = Ok (b', fa) /\
        forall j, P j \/ In j indices -> slot a' j = slot b' j
  | Raise e =>
      score_genotypes fold_energy conf_list b f0 indices = Raise e
  end.
Proof.
  induction indices as [|i rest IH]; intros a b f0 P Ht Hsame Ha Hb Hin HP.
  - cbn. exists b. split; [reflexivity|]. intros j [Hj|[]]. now apply HP.
  - assert (Hi : i < n a) by (apply Hin; now left).
    destruct (nth_error (genotypes a) i) as [g|] eqn:Hg.
    2:{ apply nth_error_None in Hg. unfold n in Hi. lia. }
    pose proof Hsame as (Hgen & Htb & _ & _ & Hw).
    assert (Hib : i < n b) by (unfold n in *; congruence).
    assert (Hgb : nth_error (genotypes b) i = Some g) by congruence.
    assert (Htb' : target_conf b = None) by congruence.
    pose proof (@score_genotype_step table fold_energy conf_list a f0 i g
                  Ht Ha Hi Hg) as Hsa.
    pose proof (@score_genotype_step table fold_energy conf_list b f0 i g
                  Htb' Hb Hib Hgb) as Hsb.
    cbv zeta in Hsa, Hsb. rewrite (inner_same_map _ _ _ _ Hsame) in Hsb.
    rewrite Hw in Hsb. cbn [score_genotypes].
    destruct (folded (inner fold_energy a g conf_list f0)) as [bb|].
    2:{ rewrite Hsa, Hsb. reflexivity. }
    destruct Hsa as (a1 & Ra & Sa & Aa & Slota & Oa).
    destruct Hsb as (b1 & Rb & Sb & Ab & Slotb & Ob).
    rewrite Ra, Rb. cbn [bind fst snd].
    assert (Hsame1 : same_map a1 b1).
    { apply (same_map_trans (same_map_sym Sa)).
      now apply (same_map_trans Hsame). }
    specialize (IH a1 b1 (Some bb) (fun j => P j \/ j = i)).
    destruct (score_genotypes fold_energy conf_list a1 (Some bb) rest)
      as [[a' fa]|e].
    + destruct IH as (b' & Rb' & Hagree); auto.
      * destruct Sa as (_ & Hta & _). congruence.
      * intros j Hj. destruct Sa as (Hga & _). unfold n. rewrite Hga.
        apply Hin. now right.
      * intros j [Hj| ->]; [|congruence].
        destruct (Nat.eq_dec j i) as [->|Hne]; [congruence|].
        rewrite Oa, Ob by exact Hne. now apply HP.
      * exists b'. split; [exact Rb'|].
        intros j [Hj|[<-|Hj]]; apply Hagree; auto.
    + apply IH; auto.
      * destruct Sa as (_ & Hta & _). congruence.
      * intros j Hj. destruct Sa as (Hga & _). unfold n. rewrite Hga.
        apply Hin. now right.
      * intros j [Hj| ->]; [|congruence].
        destruct (Nat.eq_dec j i) as [->|Hne]; [congruence|].
        rewrite Oa, Ob by exact Hne. now apply HP.
Qed.

Lemma recalculate_agree (a b : gpm table) :
  target_conf a = None -> same_map a b -> allocated a -> allocated b ->
  match recalculate_partition_sum fold_energy a conf_list with
  | Ok a' =>
      exists b',
        recalculate_partition_sum fold_energy b conf_list = Ok b' /\
        forall j, j < n a -> slot a' j = slot b' j
  | Raise e => recalculate_partition_sum fold_energy b conf_list = Raise e
  end.
Proof.
  intros Ht Hsame Ha Hb. unfold recalculate_partition_sum.
  set (a0 := set_partition_confs_attr a conf_list).
  set (b0 := set_partition_confs_attr b conf_list).
  assert (Hn : n b0 = n a0) by (destruct Hsame as [Hg _]; unfold n; cbn;
                                  now rewrite Hg).
  rewrite Hn.
  assert (H : forall i, In i (seq 0 (n a0)) -> i < n a0)
    by (intros i Hi; apply in_seq in Hi; lia).
  pose proof (@score_genotypes_agree (seq 0 (n a0)) a0 b0 None
                (fun _ => False) Ht Hsame Ha Hb H
                (fun j (F : False) => match F with end)) as Hagree.
  destruct (score_genotypes fold_energy conf_list a0 None (seq 0 (n a0)))
    as [[a' fa]|e].
  - destruct Hagree as (b' & Rb & Hagree).
    rewrite Rb. cbn [bind fst]. exists b'. split; [reflexivity|].
    intros j Hj. apply Hagree. right. apply in_seq.
    unfold n in *. simpl in *. lia.
  - now rewrite Hagree.
Qed.

End Pass.

(** X5. With no target conformation, the arrays allocated and at least
    one genotype, [recalculate_partition_sum] returns a map exactly when
    some conformation of the list gives the first genotype an energy of
    at most 0; otherwise it ends in the name error on [folded]. *)
Theorem recalculate_completes_iff (table : Type)
    (fold_energy : str -> str -> table -> R) (self : gpm table)
    (conf_list : list str) (g : str) (rest : list str) :
  target_conf self = None -> allocated self ->
  genotypes self = g :: rest ->
  ((exists self',
      recalculate_partition_sum fold_energy self conf_list = Ok self')
   <-> exists conf, In conf conf_list /\
                    (fold_energy g conf (interaction_energies self) <= 0)%R)
  /\
  ((forall self',
      recalculate_partition_sum fold_energy self conf_list <> Ok self')
   -> recalculate_partition_sum fold_energy self conf_list
      = Raise (UnboundLocalError "folded")).
Proof.
  intros Ht Ha Hg.
  destruct (@some_nonpositive_or_all_positive table fold_energy self g
              conf_list) as [Hex|Hall].
  - destruct (@recalculate_partition_sum_scores table fold_energy conf_list
                self Ht Ha) as (self' & Hrun & _).
    { intros g0 Hg0. rewrite Hg in Hg0. injection Hg0 as <-. exact Hex. }
    split; [split; [intros _; exact Hex|intros _; now exists self']|].
    intros Hno. now destruct (Hno self').
  - pose proof (@recalculate_raises_unbound table fold_energy conf_list
                  self g rest Ht Ha Hg Hall) as Hraise.
    split; [|intros _; exact Hraise]. split.
    + intros [self' Hrun]. congruence.
    + intros (conf & Hin & Hle). specialize (Hall conf Hin).
      unfold fe in Hall. lra.
Qed.

Lemma recalculate_completes_iff_witness :
  ((exists self',
      recalculate_partition_sum only_A_folds
        (blank_map [lit "ABC"; lit "BBC"] 1) [lit "UR"] = Ok self')
   <-> exists conf, In conf [lit "UR"] /\
                    (only_A_folds (lit "ABC") conf tt <= 0)%R)
  /\
  ((forall self',
      recalculate_partition_sum only_A_folds
        (blank_map [lit "ABC"; lit "BBC"] 1) [lit "UR"] <> Ok self')
   -> recalculate_partition_sum only_A_folds
        (blank_map [lit "ABC"; lit "BBC"] 1) [lit "UR"]
      = Raise (UnboundLocalError "folded")).
Proof.
  apply (@recalculate_completes_iff unit only_A_folds
           (blank_map [lit "ABC"; lit "BBC"] 1) [lit "UR"]
           (lit "ABC") [lit "BBC"]).
  - reflexivity.
  - apply blank_map_allocated.
  - reflexivity.
Defined.

(** A map like [blank_map] whose arrays hold records of an earlier
    scoring. *)
Definition used_map (genos : list str) (T : R) : gpm unit :=
  {| wildtype := lit "ABC"; mutations := [];
     interaction_energies := tt; temperature := T; target_conf := None;
     _phenotype_type := lit "stabilities"; genotypes := genos;
     log_transform := false;
     _nativeEs := Some (map (fun _ => (-7)%R) genos);
     _confs := Some {| itemsize := 2; items := map (fun _ => lit "RU") genos |};
     _partition_sum := Some (map (fun _ => 9%R) genos);
     _folded := Some (map (fun _ => true) genos);
     partition_confs := Some [lit "RU"]; partition_confs_ := None;
     Conformations := None |}.

Lemma used_map_allocated (genos : list str) (T : R) :
  allocated (used_map genos T).
Proof.
  unfold allocated, n. cbn. do 4 eexists.
  repeat (split; [reflexivity|]). cbn. now rewrite !length_map.
Qed.

(** X6. A pass overwrites every record: for two states of one map (the
    same genotypes, temperature, table and array shapes, no target
    conformation), whatever their arrays held before,
    [recalculate_partition_sum] either returns maps with the same four
    values at every genotype, or raises the same exception. *)
Theorem recalculate_ignores_old_records (table : Type)
    (fold_energy : str -> str -> table -> R) (conf_list : list str)
    (a b : gpm table) :
  target_conf a = None -> same_map a b -> allocated a -> allocated b ->
  (forall a', recalculate_partition_sum fold_energy a conf_list = Ok a' ->
     exists b',
       recalculate_partition_sum fold_energy b conf_list = Ok b' /\
       forall j, j < n a -> slot a' j = slot b' j) /\
  (forall e, recalculate_partition_sum fold_energy a conf_list = Raise e ->
     recalculate_partition_sum fold_energy b conf_list = Raise e).
Proof.
  intros Ht Hsame Ha Hb.
  pose proof (@recalculate_agree table fold_energy conf_list a b
                Ht Hsame Ha Hb) as H.
  destruct (recalculate_partition_sum fold_energy a conf_list) as [a0|e0].
  - split; [|discriminate]. now intros a' [= <-].
  - split; [discriminate|]. now intros e [= <-].
Qed.

Lemma recalculate_ignores_old_records_witness :
  (forall a',
     recalculate_partition_sum only_A_folds
       (blank_map [lit "ABC"; lit "BBC"] 1) [lit "UR"] = Ok a' ->
     exists b',
       recalculate_partition_sum only_A_folds
         (used_map [lit "ABC"; lit "BBC"] 1) [lit "UR"] = Ok b' /\
       forall j, j < n (blank_map [lit "ABC"; lit "BBC"] 1) ->
         slot a' j = slot b' j) /\
  (forall e,
     recalculate_partition_sum only_A_folds
       (blank_map [lit "ABC"; lit "BBC"] 1) [lit "UR"] = Raise e ->
     recalculate_partition_sum only_A_folds
       (used_map [lit "ABC"; lit "BBC"] 1) [lit "UR"] = Raise e).
Proof.
  apply (@recalculate_ignores_old_records unit only_A_folds [lit "UR"]
           (blank_map [lit "ABC"; lit "BBC"] 1)
           (used_map [lit "ABC"; lit "BBC"] 1)).
  - reflexivity.
  - repeat split.
  - apply blank_map_allocated.
  - apply used_map_allocated.
Defined.

(** X7. Scoring twice is scoring once: after a pass that completed, a
    second pass over the same conformation list completes as well and
    leaves the four values of every genotype as they are. *)
Theorem recalculate_idempotent (table : Type)
    (fold_energy : str -> str -> table -> R) (conf_list : list str)
    (self self' : gpm table) :
  target_conf self = None -> allocated self ->
  recalculate_partition_sum fold_energy self conf_list = Ok self' ->
  exists self'',
    recalculate_partition_sum fold_energy self' conf_list = Ok self'' /\
    forall j, j < n self -> slot self'' j = slot self' j.
Proof.
  intros Ht Ha Hrun.
  destruct (@recalculate_ok_inv table fold_energy conf_list self self'
              Ht Ha Hrun) as (Hsame & Ha' & _).
  pose proof (@recalculate_agree table fold_energy conf_list self self'
                Ht Hsame Ha Ha') as H.
  rewrite Hrun in H. destruct H as (self'' & Hrun' & Hagree).
  exists self''. split; [exact Hrun'|].
  intros j Hj. symmetry. now apply Hagree.
Qed.

Lemma recalculate_idempotent_witness :
  exists self' self'',
    recalculate_partition_sum only_A_folds
      (blank_map [lit "ABC"; lit "BBC"] 1) [lit "UR"] = Ok self' /\
    recalculate_partition_sum only_A_folds self' [lit "UR"] = Ok self'' /\
    forall j, j < n (blank_map [lit "ABC"; lit "BBC"] 1) ->
      slot self'' j = slot self' j.
Proof.
  destruct (@recalculate_partition_sum_scores unit only_A_folds [lit "UR"]
              (blank_map [lit "ABC"; lit "BBC"] 1) eq_refl
              (blank_map_allocated _ _)) as (self' & Hrun & _).
  - intros g0 [= <-]. exists (lit "UR"). split; [now left|].
    unfold fe, only_A_folds. cbn. lra.
  - destruct (@recalculate_idempotent unit only_A_folds [lit "UR"]
                (blank_map [lit "ABC"; lit "BBC"] 1) self' eq_refl
                (blank_map_allocated _ _) Hrun) as (self'' & Hrun' & Hsame).
    exists self', self''. auto.
Defined.

(** The conformation the loop keeps is the first of the list with the
    minimum energy. *)
Lemma inner_first_min (table : Type) (fold_energy : str -> str -> table -> R)
    (self : gpm table) (g : str) (confs : list str)
    (folded0 : option bool) :
  let l := inner fold_energy self g confs folded0 in
  (min_energy l < 0)%R ->
  exists pre post,
    confs = pre ++ min_conf l :: post /\
    forall c, In c pre -> (min_energy l < fe fold_energy self g c)%R.
Proof.
  induction confs as [|conf confs IH] using rev_ind.
  - simpl. lra.
  - rewrite inner_snoc.
    pose proof (@inner_min table fold_energy self g confs folded0)
      as (_ & Hle & _). cbv zeta in Hle, IH.
    set (l := inner fold_energy self g confs folded0) in *.
    unfold score_conf. fold (fe fold_energy self g conf).
    destruct (float_lt_spec (fe fold_energy self g conf) (min_energy l))
      as [Hlt|Hge];
      [|destruct (float_eq_spec (fe fold_energy self g conf) (min_energy l))];
      cbn [min_energy min_conf].
    + intros _. exists confs, []. split; [reflexivity|].
      intros c Hc. specialize (Hle c Hc). lra.
    + intros Hm. destruct (IH Hm) as (pre & post & He & Hpre).
      exists pre, (post ++ [conf]). split; [|exact Hpre].
      rewrite He at 1. now rewrite <- app_assoc.
    + intros Hm. destruct (IH Hm) as (pre & post & He & Hpre).
      exists pre, (post ++ [conf]). split; [|exact Hpre].
      rewrite He at 1. now rewrite <- app_assoc.
Qed.

(** X8. After a pass that completed, a genotype with some conformation
    of energy at most 0 is stored as folded exactly when its stored
    native energy is below 0 and exactly one conformation of the list
    has that energy. (So a minimum of exactly 0, even a unique one, is
    stored as not folded.) *)
Theorem folded_iff_unique_negative_minimum (table : Type)
    (fold_energy : str -> str -> table -> R) (conf_list : list str)
    (self self' : gpm table) :
  target_conf self = None -> allocated self ->
  recalculate_partition_sum fold_energy self conf_list = Ok self' ->
  forall i g, nth_error (genotypes self) i = Some g ->
    (exists conf, In conf conf_list /\
                  (fe fold_energy self g conf <= 0)%R) ->
    exists e c z b,
      slot self' i = Some (e, c, z, b) /\
      (b = true <->
       (e < 0)%R /\
       count_occ Req_dec_T (energies fold_energy self g conf_list) e = 1).
Proof.
  intros Ht Ha Hrun i g Hg Hex.
  destruct (@recalculate_ok_inv table fold_energy conf_list self self'
              Ht Ha Hrun) as (_ & _ & Hsc).
  destruct (Hsc i) as (g' & f0 & b & Hg' & Hfl & Hslot).
  { apply nth_error_Some. unfold n. congruence. }
  assert (g' = g) by congruence. subst g'. cbv zeta in Hfl, Hslot.
  destruct (@inner_folded_bound table fold_energy self g conf_list f0 Hex)
    as (b' & Hb' & Hiff).
  assert (b' = b) by congruence. subst b'.
  do 4 eexists. split; [exact Hslot|exact Hiff].
Qed.

Lemma folded_iff_unique_negative_minimum_witness :
  exists self',
    recalculate_partition_sum (flat_energy 0)
      (blank_map [lit "ABC"] 1) [lit "UR"] = Ok self' /\
    exists e c z b,
      slot self' 0 = Some (e, c, z, b) /\
      (b = true <->
       (e < 0)%R /\
       count_occ Req_dec_T
         (energies (flat_energy 0) (blank_map [lit "ABC"] 1)
            (lit "ABC") [lit "UR"]) e = 1).
Proof.
  assert (Hex : exists conf, In conf [lit "UR"] /\
            (fe (flat_energy 0) (blank_map [lit "ABC"] 1) (lit "ABC") conf
             <= 0)%R).
  { exists (lit "UR"). split; [now left|]. unfold fe, flat_energy. lra. }
  destruct (@recalculate_partition_sum_scores unit (flat_energy 0)
              [lit "UR"] (blank_map [lit "ABC"] 1) eq_refl
              (blank_map_allocated _ _)) as (self' & Hrun & _).
  - intros g0 [= <-]. exact Hex.
  - exists self'. split; [exact Hrun|].
    exact (@folded_iff_unique_negative_minimum unit (flat_energy 0)
             [lit "UR"] (blank_map [lit "ABC"] 1) self' eq_refl
             (blank_map_allocated _ _) Hrun 0 (lit "ABC") eq_refl Hex).
Defined.

(** X9. After a pass that completed, with the array of conformations
    wide enough for the list, the native conformation stored for a
    genotype that has a conformation of energy below 0 is the first
    conformation of the list with the minimum energy: it has the stored
    native energy, no conformation of the list has a lower energy, and
    every conformation before it in the list has a higher one. *)
Theorem native_conformation_is_first_minimum (table : Type)
    (fold_energy : str -> str -> table -> R) (conf_list : list str)
    (self self' : gpm table) :
  target_conf self = None -> allocated self ->
  (forall conf, In conf conf_list -> len conf <= width self) ->
  recalculate_partition_sum fold_energy self conf_list = Ok self' ->
  forall i g, nth_error (genotypes self) i = Some g ->
    (exists conf, In conf conf_list /\
                  (fe fold_energy self g conf < 0)%R) ->
    exists e c z b pre post,
      slot self' i = Some (e, c, z, b) /\
      conf_list = pre ++ c :: post /\
      fe fold_energy self g c = e /\
      (forall conf', In conf' conf_list ->
         (e <= fe fold_energy self g conf')%R) /\
      forall c', In c' pre -> (e < fe fold_energy self g c')%R.
Proof.
  intros Ht Ha Hw Hrun i g Hg (conf & Hin & Hlt).
  destruct (@recalculate_ok_inv table fold_energy conf_list self self'
              Ht Ha Hrun) as (_ & _ & Hsc).
  destruct (Hsc i) as (g' & f0 & b & Hg' & Hfl & Hslot).
  { apply nth_error_Some. unfold n. congruence. }
  assert (g' = g) by congruence. subst g'. cbv zeta in Hfl, Hslot.
  pose proof (@inner_min table fold_energy self g conf_list f0)
    as (_ & Hle & Hneg & _). cbv zeta in Hle, Hneg.
  pose proof (@inner_first_min table fold_energy self g conf_list f0)
    as Hfirst. cbv zeta in Hfirst.
  set (l := inner fold_energy self g conf_list f0) in *.
  assert (Hm : (min_energy l < 0)%R) by (specialize (Hle conf Hin); lra).
  destruct (Hneg Hm) as [Hmin He].
  destruct (Hfirst Hm) as (pre & post & Hsplit & Hpre).
  rewrite firstn_all2 in Hslot by (now apply Hw).
  exists (min_energy l), (min_conf l), (z l), b, pre, post. auto.
Qed.

Lemma native_conformation_is_first_minimum_witness :
  exists self',
    recalculate_partition_sum (flat_energy (-2))
      (blank_map [lit "ABC"] 1) [lit "UR"; lit "RU"] = Ok self' /\
    exists e c z b pre post,
      slot self' 0 = Some (e, c, z, b) /\
      [lit "UR"; lit "RU"] = pre ++ c :: post /\
      fe (flat_energy (-2)) (blank_map [lit "ABC"] 1) (lit "ABC") c = e /\
      (forall conf', In conf' [lit "UR"; lit "RU"] ->
         (e <= fe (flat_energy (-2)) (blank_map [lit "ABC"] 1)
                 (lit "ABC") conf')%R) /\
      forall c', In c' pre ->
        (e < fe (flat_energy (-2)) (blank_map [lit "ABC"] 1)
               (lit "ABC") c')%R.
Proof.
  assert (Hex : exists conf, In conf [lit "UR"; lit "RU"] /\
            (fe (flat_energy (-2)) (blank_map [lit "ABC"] 1) (lit "ABC") conf
             < 0)%R).
  { exists (lit "UR"). split; [now left|]. unfold fe, flat_energy. lra. }
  destruct (@recalculate_partition_sum_scores unit (flat_energy (-2))
              [lit "UR"; lit "RU"] (blank_map [lit "ABC"] 1) eq_refl
              (blank_map_allocated _ _)) as (self' & Hrun & _).
  - intros g0 _. exists (lit "UR"). split; [now left|].
    unfold fe, flat_energy. lra.
  - exists self'. split; [exact Hrun|].
    apply (@native_conformation_is_first_minimum unit (flat_energy (-2))
             [lit "UR"; lit "RU"] (blank_map [lit "ABC"] 1) self' eq_refl
             (blank_map_allocated _ _)); auto.
    intros c [<-|[<-|[]]]; unfold width; cbn; lia.
Defined.

(** *** What [folded] carries from one genotype to the next *)

Section Carry.

Variable table : Type.
Variable fold_energy : str -> str -> table -> R.
Variable conf_list : list str.

(** The folded flag stored for genotype [i]. *)
Definition flag (self : gpm table) (i : nat) : option bool :=
  match slot self i with
  | Some (_, _, _, b) => Some b
  | None => None
  end.

(** The first index of a run of the loop gets its flag from the value
    of [folded] on entry. *)
Lemma score_genotypes_head (j : nat) (post : list nat)
    (self self' : gpm table) (f0 f' : option bool) :
  target_conf self = None -> allocated self ->
  (forall i, In i (j :: post) -> i < n self) -> NoDup (j :: post) ->
  score_genotypes fold_energy conf_list self f0 (j :: post)
  = Ok (self', f') ->
  exists g b self1,
    nth_error (genotypes self) j = Some g /\
    folded (inner fold_energy self g conf_list f0) = Some b /\
    flag self' j = Some b /\
    same_map self self1 /\ allocated self1 /\
    score_genotypes fold_energy conf_list self1 (Some b) post
    = Ok (self', f').
Proof.
  intros Ht Ha Hin Hnd Hrun.
  assert (Hj : j < n self) by (apply Hin; now left).
  destruct (nth_error (genotypes self) j) as [g|] eqn:Hg.
  2:{ apply nth_error_None in Hg. unfold n in Hj. lia. }
  pose proof (@score_genotype_step table fold_energy conf_list self f0 j g
                Ht Ha Hj Hg) as Hstep.
  cbv zeta in Hstep. cbn [score_genotypes] in Hrun.
  destruct (folded (inner fold_energy self g conf_list f0)) as [b|] eqn:Hfl.
  2:{ rewrite Hstep in Hrun. discriminate. }
  destruct Hstep as (self1 & R1 & S1 & A1 & Slot1 & _).
  rewrite R1 in Hrun. cbn [bind fst snd] in Hrun.
  exists g, b, self1. split; [reflexivity|]. split; [exact Hfl|].
  split; [|split; [exact S1|split; [exact A1|exact Hrun]]].
  inversion Hnd as [|? ? Hnotin Hnd']; subst.
  destruct (@score_genotypes_spec table fold_energy conf_list post self1
              (Some b)) as (s & f & Rs & _ & _ & _ & Hother).
  - destruct S1 as (_ & Ht1 & _). congruence.
  - exact A1.
  - intros k Hk. destruct S1 as (Hg1 & _). unfold n. rewrite Hg1.
    apply Hin. now right.
  - exact Hnd'.
  - discriminate.
  - assert (s = self') by congruence. subst s.
    unfold flag. rewrite (Hother j Hnotin), Slot1. reflexivity.
Qed.

(** Two indices that follow each other in a run: the second gets its
    flag from the flag stored for the first. *)
Lemma score_genotypes_adjacent (indices : list nat) :
  forall (self self' : gpm table) (f0 f' : option bool)
         (pre : list nat) (i j : nat) (post : list nat),
  target_conf self = None -> allocated self ->
  (forall k, In k indices -> k < n self) -> NoDup indices ->
  score_genotypes fold_energy conf_list self f0 indices = Ok (self', f') ->
  indices = pre ++ i :: j :: post ->
  exists g b,
    nth_error (genotypes self) j = Some g /\
    folded (inner fold_energy self g conf_list (flag self' i)) = Some b /\
    flag self' j = Some b.
Proof.
  induction indices as [|x rest IH];
    intros self self' f0 f' pre i j post Ht Ha Hin Hnd Hrun Hsplit.
  - destruct pre; discriminate.
  - destruct (@score_genotypes_head x rest self self' f0 f' Ht Ha Hin Hnd
                Hrun) as (gx & bx & self1 & Hgx & Hfx & Hflag & S1 & A1 & R1).
    pose proof S1 as (Hg1 & Ht1 & _).
    assert (Hin1 : forall k, In k rest -> k < n self1).
    { intros k Hk. unfold n. rewrite Hg1. apply Hin. now right. }
    inversion Hnd as [|? ? Hnotin Hnd']; subst.
    destruct pre as [|x' pre'].
    + cbn [app] in Hsplit. injection Hsplit as -> ->.
      destruct (@score_genotypes_head j post self1 self' (Some bx) f')
        as (g & b & _ & Hg & Hf & Hfl & _); auto; [congruence|].
      exists g, b. rewrite <- Hg1. split; [exact Hg|].
      rewrite Hflag, <- (inner_same_map _ _ _ _ S1). auto.
    + cbn [app] in Hsplit. injection Hsplit as -> ->.
      destruct (IH self1 self' (Some bx) f' pre' i j post)
        as (g & b & Hg & Hf & Hfl); auto; [congruence|].
      exists g, b. rewrite <- Hg1. split; [exact Hg|].
      rewrite <- (inner_same_map _ _ _ _ S1). auto.
Qed.

End Carry.

(** X10. The folded flag leaks from one genotype to the next: after a
    pass that completed, a genotype (not the first) whose energies over
    the list are all above 0 is stored with the folded flag of the
    genotype before it, with native energy 0 and with the empty
    conformation. *)
Theorem folded_carries_over (table : Type)
    (fold_energy : str -> str -> table -> R) (conf_list : list str)
    (self self' : gpm table) (i : nat) (g : str) :
  target_conf self = None -> allocated self ->
  recalculate_partition_sum fold_energy self conf_list = Ok self' ->
  nth_error (genotypes self) (S i) = Some g ->
  (forall conf, In conf conf_list ->
     (0 < fe fold_energy self g conf)%R) ->
  exists e0 c0 z0 z b,
    slot self' i = Some (e0, c0, z0, b) /\
    slot self' (S i) = Some (0%R, lit "", z, b).
Proof.
  intros Ht Ha Hrun Hg Hpos.
  destruct (@recalculate_ok_inv table fold_energy conf_list self self'
              Ht Ha Hrun) as (_ & _ & Hsc).
  assert (Hn : S i < n self) by (apply nth_error_Some; unfold n; congruence).
  unfold recalculate_partition_sum in Hrun.
  set (self0 := set_partition_confs_attr self conf_list) in *.
  destruct (score_genotypes fold_energy conf_list self0 None
              (seq 0 (n self0))) as [[s1 f1]|] eqn:Hs; [|discriminate].
  cbn [bind fst] in Hrun. injection Hrun as ->.
  assert (Hn0 : n self0 = n self) by reflexivity.
  assert (Hseq : seq 0 (n self0)
                 = seq 0 i ++ i :: S i
                     :: seq (S (S i)) (n self0 - S (S i))).
  { replace (n self0) with (i + (2 + (n self0 - S (S i)))) at 1 by lia.
    rewrite seq_app. reflexivity. }
  destruct (@score_genotypes_adjacent table fold_energy conf_list
              (seq 0 (n self0)) self0 self' None f1 (seq 0 i) i (S i)
              (seq (S (S i)) (n self0 - S (S i))))
    as (g' & b & Hg' & Hf & Hfl); auto.
  - intros k Hk. apply in_seq in Hk. lia.
  - apply seq_NoDup.
  - change (genotypes self0) with (genotypes self) in Hg'.
    assert (g' = g) by congruence. subst g'.
    rewrite (@inner_same_map table fold_energy conf_list self self0 g)
      in Hf by now repeat split.
    destruct (@inner_folded_untouched table fold_energy self g conf_list
                (flag self' i) Hpos) as [Hkeep _].
    rewrite Hkeep in Hf.
    destruct (Hsc (S i) Hn) as (g2 & f0 & b2 & Hg2 & Hfl2 & Hslot).
    assert (g2 = g) by congruence. subst g2. cbv zeta in Hfl2, Hslot.
    destruct (@inner_folded_untouched table fold_energy self g conf_list
                f0 Hpos) as [_ Hmin].
    pose proof (@inner_min table fold_energy self g conf_list f0)
      as (_ & _ & _ & Hzero). cbv zeta in Hzero.
    rewrite (Hzero Hmin), Hmin in Hslot.
    replace (firstn (width self) (lit "")) with (lit "") in Hslot
      by now destruct (width self).
    unfold flag in Hfl. rewrite Hslot in Hfl. injection Hfl as ->.
    unfold flag in Hf.
    destruct (slot self' i) as [[[[e0 c0] z0] b0]|]; [|discriminate].
    injection Hf as ->.
    exists e0, c0, z0, (z (inner fold_energy self g conf_list f0)), b.
    split; [reflexivity|exact Hslot].
Qed.

Lemma folded_carries_over_witness :
  exists self' e0 c0 z0 z b,
    recalculate_partition_sum only_A_folds
      (blank_map [lit "ABC"; lit "BBC"] 1) [lit "UR"] = Ok self' /\
    slot self' 0 = Some (e0, c0, z0, b) /\
    slot self' 1 = Some (0%R, lit "", z, b).
Proof.
  destruct (@recalculate_partition_sum_scores unit only_A_folds [lit "UR"]
              (blank_map [lit "ABC"; lit "BBC"] 1) eq_refl
              (blank_map_allocated _ _)) as (self' & Hrun & _).
  - intros g0 [= <-]. exists (lit "UR"). split; [now left|].
    unfold fe, only_A_folds. cbn. lra.
  - destruct (@folded_carries_over unit only_A_folds [lit "UR"]
                (blank_map [lit "ABC"; lit "BBC"] 1) self' 0 (lit "BBC")
                eq_refl (blank_map_allocated _ _) Hrun eq_refl)
      as (e0 & c0 & z0 & z1 & b & H0 & H1).
    + intros conf _. unfold fe, only_A_folds. cbn. lra.
    + exists self', e0, c0, z0, z1, b. auto.
Defined.

End Scoring.

(** ** Target conformations and the folding oracle *)

Module Modes.
Import Gpm Thermodynamics.

Section Stores.

Variable table : Type.

(** On allocated arrays every slot of a genotype holds a record. *)
Lemma slot_defined (self : gpm table) (i : nat) :
  allocated self -> i < n self ->
  exists e c z b, slot self i = Some (e, c, z, b).
Proof.
  intros (nE & c & Z & f & HnE & Hc & HZ & Hf & LnE & Lc & LZ & Lf) Hi.
  unfold slot. rewrite HnE, Hc, HZ, Hf.
  destruct (nth_error nE i) as [e|] eqn:E1;
    [|apply nth_error_None in E1; lia].
  destruct (nth_error (items c) i) as [s|] eqn:E2;
    [|apply nth_error_None in E2; lia].
  destruct (nth_error Z i) as [z0|] eqn:E3;
    [|apply nth_error_None in E3; lia].
  destruct (nth_error f i) as [b|] eqn:E4;
    [|apply nth_error_None in E4; lia].
  now exists e, s, z0, b.
Qed.

(** What one store changes: its own field of slot [i]. *)
Definition stores (self self1 : gpm table) (i : nat)
    (change : R * str * R * bool -> R * str * R * bool) : Prop :=
  same_map self self1 /\ allocated self1 /\
  (forall r, slot self i = Some r -> slot self1 i = Some (change r)) /\
  (forall j, j <> i -> slot self1 j = slot self j).

Lemma store_nativeE_ok (self : gpm table) (i : nat) (v : R) :
  allocated self -> i < n self ->
  exists self1,
    store_nativeE self i v = Ok self1 /\
    stores self self1 i
      (fun r => (v, snd (fst (fst r)), snd (fst r), snd r)).
Proof.
  intros (nE & c & Z & f & HnE & Hc & HZ & Hf & LnE & Lc & LZ & Lf) Hi.
  unfold store_nativeE, setitem. rewrite HnE. cbn [getattr bind].
  rewrite (proj2 (Nat.ltb_lt i (len nE))) by lia. cbn [bind].
  eexists. split; [reflexivity|]. split; [|split; [|split]].
  - unfold same_map, width. cbn. now repeat split.
  - unfold allocated, n. cbn. exists (update nE i v), c, Z, f.
    rewrite update_length. unfold n in *. tauto.
  - unfold slot. cbn. rewrite HnE, Hc, HZ, Hf.
    rewrite update_same by lia. intros [[[e s] z0] b].
    destruct (nth_error nE i), (nth_error (items c) i), (nth_error Z i),
      (nth_error f i); try discriminate. now intros [= _ -> -> ->].
  - intros j Hj. unfold slot. cbn. rewrite HnE, Hc, HZ, Hf.
    now rewrite update_other.
Qed.

Lemma store_partition_sum_ok (self : gpm table) (i : nat) (v : R) :
  allocated self -> i < n self ->
  exists self1,
    store_partition_sum self i v = Ok self1 /\
    stores self self1 i
      (fun r => (fst (fst (fst r)), snd (fst (fst r)), v, snd r)).
Proof.
  intros (nE & c & Z & f & HnE & Hc & HZ & Hf & LnE & Lc & LZ & Lf) Hi.
  unfold store_partition_sum, setitem. rewrite HZ. cbn [getattr bind].
  rewrite (proj2 (Nat.ltb_lt i (len Z))) by lia. cbn [bind].
  eexists. split; [reflexivity|]. split; [|split; [|split]].
  - unfold same_map, width. cbn. now repeat split.
  - unfold allocated, n. cbn. exists nE, c, (update Z i v), f.
    rewrite update_length. unfold n in *. tauto.
  - unfold slot. cbn. rewrite HnE, Hc, HZ, Hf.
    rewrite update_same by lia. intros [[[e s] z0] b].
    destruct (nth_error nE i), (nth_error (items c) i), (nth_error Z i),
      (nth_error f i); try discriminate. now intros [= -> -> _ ->].
  - intros j Hj. unfold slot. cbn. rewrite HnE, Hc, HZ, Hf.
    now rewrite update_other.
Qed.

Lemma store_folded_ok (self : gpm table) (i : nat) (v : bool) :
  allocated self -> i < n self ->
  exists self1,
    store_folded self i v = Ok self1 /\
    stores self self1 i
      (fun r => (fst (fst (fst r)), snd (fst (fst r)), snd (fst r), v)).
Proof.
  intros (nE & c & Z & f & HnE & Hc & HZ & Hf & LnE & Lc & LZ & Lf) Hi.
  unfold store_folded, setitem. rewrite Hf. cbn [getattr bind].
  rewrite (proj2 (Nat.ltb_lt i (len f))) by lia. cbn [bind].
  eexists. split; [reflexivity|]. split; [|split; [|split]].
  - unfold same_map, width. cbn. now repeat split.
  - unfold allocated, n. cbn. exists nE, c, Z, (update f i v).
    rewrite update_length. unfold n in *. tauto.
  - unfold slot. cbn. rewrite HnE, Hc, HZ, Hf.
    rewrite update_same by lia. intros [[[e s] z0] b].
    destruct (nth_error nE i), (nth_error (items c) i), (nth_error Z i),
      (nth_error f i); try discriminate. now intros [= -> -> -> _].
  - intros j Hj. unfold slot. cbn. rewrite HnE, Hc, HZ, Hf.
    now rewrite update_other.
Qed.

Lemma store_conf_ok (self : gpm table) (i : nat) (v : str) :
  allocated self -> i < n self ->
  exists self1,
    store_conf self i v = Ok self1 /\
    stores self self1 i
      (fun r => (fst (fst (fst r)), firstn (width self) v,
                 snd (fst r), snd r)).
Proof.
  intros (nE & c & Z & f & HnE & Hc & HZ & Hf & LnE & Lc & LZ & Lf) Hi.
  unfold store_conf, setitem_U, setitem. rewrite Hc. cbn [getattr bind].
  rewrite (proj2 (Nat.ltb_lt i (len (items c)))) by lia. cbn [bind].
  eexists. split; [reflexivity|]. split; [|split; [|split]].
  - unfold same_map, width. cbn. rewrite Hc. now repeat split.
  - unfold allocated, n. cbn.
    exists nE, {| itemsize := itemsize c;
                  items := update (items c) i (firstn (itemsize c) v) |},
           Z, f.
    cbn [items]. rewrite update_length. unfold n in *. tauto.
  - unfold slot, width. cbn. rewrite HnE, Hc, HZ, Hf.
    rewrite update_same by lia. intros [[[e s] z0] b].
    destruct (nth_error nE i), (nth_error (items c) i), (nth_error Z i),
      (nth_error f i); try discriminate. now intros [= -> _ -> ->].
  - intros j Hj. unfold slot. cbn. rewrite HnE, Hc, HZ, Hf.
    now rewrite update_other.
Qed.

Lemma stores_n (self self1 : gpm table) (i : nat)
    (change : R * str * R * bool -> R * str * R * bool) :
  stores self self1 i change -> n self1 = n self.
Proof. intros ((Hg & _) & _). unfold n. now rewrite Hg. Qed.

End Stores.

Section Loops.

Variable table : Type.
Variable fold_energy : str -> str -> table -> R.

(** [set_target_conf], index by index. *)
Lemma retarget_spec (target : str) (indices : list nat) :
  forall self : gpm table,
  allocated self -> (forall i, In i indices -> i < n self) ->
  NoDup indices ->
  exists self',
    retarget fold_energy self target indices = Ok self' /\
    same_map self self' /\ allocated self' /\
    (forall i g r, In i indices ->
       nth_error (genotypes self) i = Some g -> slot self i = Some r ->
       slot self' i
       = Some (fold_energy g target (interaction_energies self),
               firstn (width self) target, snd (fst r), snd r)) /\
    (forall j, ~ In j indices -> slot self' j = slot self j).
Proof.
  induction indices as [|i rest IH]; intros self Ha Hin Hnd.
  - exists self. split; [reflexivity|]. split; [apply same_map_refl|].
    split; [exact Ha|]. split; [intros i g r []|reflexivity].
  - assert (Hi : i < n self) by (apply Hin; now left).
    inversion Hnd as [|? ? Hnotin Hnd']; subst.
    destruct (nth_error (genotypes self) i) as [g|] eqn:Hg.
    2:{ apply nth_error_None in Hg. unfold n in Hi. lia. }
    cbn [retarget]. unfold getitem. rewrite Hg. cbn [bind].
    destruct (store_nativeE_ok
                (fold_energy g target (interaction_energies self)) Ha Hi)
      as (s1 & R1 & S1 & A1 & C1 & O1).
    rewrite R1. cbn [bind].
    assert (Hi1 : i < n s1) by (destruct S1 as (Hg1 & _); unfold n in *;
                                 congruence).
    destruct (store_conf_ok target A1 Hi1) as (s2 & R2 & S2 & A2 & C2 & O2).
    rewrite R2. cbn [bind].
    pose proof (same_map_trans S1 S2) as S12.
    destruct (IH s2) as (self' & R' & S' & A' & C' & O'); auto.
    { intros j Hj. destruct S12 as (Hg2 & _). unfold n. rewrite Hg2.
      apply Hin. now right. }
    exists self'. split; [exact R'|].
    split; [now apply (same_map_trans S12)|]. split; [exact A'|].
    pose proof S12 as (Hg12 & _ & _ & Hi12 & Hw12).
    pose proof S1 as (_ & _ & _ & _ & Hw1).
    split.
    + intros j gj r [<-|Hj] Hgj Hr.
      * assert (gj = g) by congruence. subst gj.
        rewrite (O' i Hnotin). rewrite (C2 _ (C1 _ Hr)). cbn.
        now rewrite Hw1.
      * assert (Hne : j <> i) by (intros ->; contradiction).
        rewrite (C' j gj r Hj); [now rewrite Hi12, Hw12|congruence|].
        now rewrite O2, O1.
    + intros j Hj. rewrite O' by (intros Hr; apply Hj; now right).
      assert (Hne : j <> i) by (intros ->; apply Hj; now left).
      now rewrite O2, O1.
Qed.

(** The genotype loop of [recalculate_partition_sum] when a target
    conformation is set. *)
Lemma score_genotypes_with_target (conf_list : list str) (target : str)
    (indices : list nat) :
  forall (self : gpm table) (f0 : option bool),
  target_conf self = Some target -> allocated self ->
  (forall i, In i indices -> i < n self) -> NoDup indices ->
  exists self' f',
    score_genotypes fold_energy conf_list self f0 indices = Ok (self', f') /\
    same_map self self' /\ allocated self' /\
    (forall i g r, In i indices ->
       nth_error (genotypes self) i = Some g -> slot self i = Some r ->
       slot self' i
       = Some (fst (fst (fst r)), snd (fst (fst r)),
               boltzmann_sum fold_energy self g conf_list, snd r)) /\
    (forall j, ~ In j indices -> slot self' j = slot self j).
Proof.
  induction indices as [|i rest IH]; intros self f0 Ht Ha Hin Hnd.
  - exists self, f0. split; [reflexivity|]. split; [apply same_map_refl|].
    split; [exact Ha|]. split; [intros i g r []|reflexivity].
  - assert (Hi : i < n self) by (apply Hin; now left).
    inversion Hnd as [|? ? Hnotin Hnd']; subst.
    destruct (nth_error (genotypes self) i) as [g|] eqn:Hg.
    2:{ apply nth_error_None in Hg. unfold n in Hi. lia. }
    cbn [score_genotypes]. unfold score_genotype, getitem.
    rewrite Hg. cbn [bind].
    fold (inner fold_energy self g conf_list f0). rewrite inner_z.
    destruct (store_partition_sum_ok
                (boltzmann_sum fold_energy self g conf_list) Ha Hi)
      as (s1 & R1 & S1 & A1 & C1 & O1).
    rewrite R1. cbn [bind].
    pose proof S1 as (Hg1 & Ht1 & _).
    rewrite Ht1, Ht. cbn [bind fst snd].
    destruct (IH s1 (folded (inner fold_energy self g conf_list f0)))
      as (self' & f' & R' & S' & A' & C' & O'); auto; [congruence| |].
    { intros j Hj. unfold n. rewrite Hg1. apply Hin. now right. }
    exists self', f'. split; [exact R'|].
    split; [now apply (same_map_trans S1)|]. split; [exact A'|].
    split.
    + intros j gj r [<-|Hj] Hgj Hr.
      * assert (gj = g) by congruence. subst gj.
        rewrite (O' i Hnotin). now rewrite (C1 _ Hr).
      * assert (Hne : j <> i) by (intros ->; contradiction).
        rewrite (C' j gj r Hj); [|congruence|now rewrite O1].
        do 2 f_equal. unfold boltzmann_sum, fe.
        destruct S1 as (_ & _ & HT & HI & _). now rewrite HT, HI.
    + intros j Hj. rewrite O' by (intros Hr; apply Hj; now right).
      assert (Hne : j <> i) by (intros ->; apply Hj; now left).
      now rewrite O1.
Qed.

(** The loop of [fold] over the oracle's outputs. *)
Lemma fold_with_oracle_spec (C : fold_oracle) (indexed : list (nat * str)) :
  forall self : gpm table,
  allocated self -> (forall p, In p indexed -> fst p < n self) ->
  NoDup (map fst indexed) ->
  exists self',
    fold_with_oracle self C indexed = Ok self' /\
    same_map self self' /\ allocated self' /\
    (forall i g, In (i, g) indexed ->
       slot self' i
       = Some (fst (fst (fst (C g (temperature self)))),
               firstn (width self)
                 (snd (fst (fst (C g (temperature self))))),
               snd (fst (C g (temperature self))),
               snd (C g (temperature self)))) /\
    (forall j, ~ In j (map fst indexed) -> slot self' j = slot self j).
Proof.
  induction indexed as [|[i g] rest IH]; intros self Ha Hin Hnd.
  - exists self. split; [reflexivity|]. split; [apply same_map_refl|].
    split; [exact Ha|]. split; [intros i g []|reflexivity].
  - assert (Hi : i < n self) by (apply (Hin (i, g)); now left).
    cbn [map fst] in Hnd. inversion Hnd as [|? ? Hnotin Hnd']; subst.
    cbn [fold_with_oracle].
    set (output := C g (temperature self)).
    destruct (slot_defined Ha Hi) as (e0 & c0 & z0 & b0 & Hslot).
    destruct (store_nativeE_ok (fst (fst (fst output))) Ha Hi)
      as (s1 & R1 & S1 & A1 & C1 & O1).
    rewrite R1. cbn [bind].
    assert (Hi1 : i < n s1) by (rewrite (stores_n (conj S1 (conj A1
                                   (conj C1 O1)))); exact Hi).
    destruct (store_conf_ok (snd (fst (fst output))) A1 Hi1)
      as (s2 & R2 & S2 & A2 & C2 & O2).
    rewrite R2. cbn [bind].
    assert (Hi2 : i < n s2) by (rewrite (stores_n (conj S2 (conj A2
                                   (conj C2 O2)))); exact Hi1).
    destruct (store_partition_sum_ok (snd (fst output)) A2 Hi2)
      as (s3 & R3 & S3 & A3 & C3 & O3).
    rewrite R3. cbn [bind].
    assert (Hi3 : i < n s3) by (rewrite (stores_n (conj S3 (conj A3
                                   (conj C3 O3)))); exact Hi2).
    destruct (store_folded_ok (snd output) A3 Hi3)
      as (s4 & R4 & S4 & A4 & C4 & O4).
    rewrite R4. cbn [bind].
    pose proof (same_map_trans (same_map_trans (same_map_trans S1 S2) S3) S4)
      as S14.
    destruct (IH s4) as (self' & R' & S' & A' & C' & O'); auto.
    { intros p Hp. destruct S14 as (Hg4 & _). unfold n. rewrite Hg4.
      apply Hin. now right. }
    exists self'. split; [exact R'|].
    split; [now apply (same_map_trans S14)|]. split; [exact A'|].
    pose proof S14 as (_ & _ & HT & _ & Hw).
    pose proof S1 as (_ & _ & _ & _ & Hw1).
    split.
    + intros j gj [[= <- <-]|Hj].
      * rewrite (O' i Hnotin).
        rewrite (C4 _ (C3 _ (C2 _ (C1 _ Hslot)))). cbn.
        now rewrite Hw1.
      * rewrite (C' j gj Hj). now rewrite HT, Hw.
    + intros j Hj. cbn [map fst] in Hj.
      rewrite O' by (intros Hr; apply Hj; now right).
      assert (Hne : j <> i) by (intros ->; apply Hj; now left).
      now rewrite O4, O3, O2, O1.
Qed.

End Loops.

Section Fold.

Variable table : Type.
Variable fold_energy : str -> str -> table -> R.
Variable uninit_float : string -> nat -> R.
Variable uninit_str : nat -> str.
Variable uninit_bool : nat -> bool.

(** The map once [fold] has made its four arrays, of width [w] for the
    conformations. *)
Definition allocate (self : gpm table) (w : nat) : gpm table :=
  set_folded
    (set_partition_sum
       (set_confs
          (set_nativeEs self
             (Some (np_empty (uninit_float "_nativeEs") (n self))))
          (Some {| itemsize := w; items := np_empty uninit_str (n self) |}))
       (Some (np_empty (uninit_float "_partition_sum") (n self))))
    (Some (np_empty uninit_bool (n self))).

Lemma np_empty_nth {A : Type} (junk : nat -> A) (k i : nat) :
  i < k -> nth_error (np_empty junk k) i = Some (junk i).
Proof.
  intros Hi. unfold np_empty. rewrite nth_error_map.
  rewrite (nth_error_nth' _ 0) by (rewrite length_seq; exact Hi).
  now rewrite seq_nth.
Qed.

Lemma allocate_allocated (self : gpm table) (w : nat) :
  allocated (allocate self w).
Proof.
  unfold allocated, allocate, n, np_empty. cbn. do 4 eexists.
  repeat (split; [reflexivity|]).
  cbn [items]. rewrite !length_map, !length_seq. tauto.
Qed.

Lemma allocate_slot (self : gpm table) (w i : nat) :
  i < n self ->
  slot (allocate self w) i
  = Some (uninit_float "_nativeEs" i, uninit_str i,
          uninit_float "_partition_sum" i, uninit_bool i).
Proof.
  intros Hi. unfold slot, allocate. cbn.
  now rewrite !np_empty_nth by exact Hi.
Qed.

Lemma fold_unfold (self : gpm table) (conf_list : option (list str))
    (C : option fold_oracle) :
  wildtype self <> [] ->
  fold fold_energy uninit_float uninit_str uninit_bool self conf_list C
  = (self1 <-
       match conf_list, C with
       | Some confs, _ =>
           recalculate_partition_sum fold_energy
             (allocate self (Nat.max 1 (len (wildtype self) - 1))) confs
       | None, Some C =>
           fold_with_oracle
             (set_Conformations
                (allocate self (Nat.max 1 (len (wildtype self) - 1))) C)
             C (combine (seq 0 (n self)) (genotypes self))
       | None, None =>
           Raise (Exception "Not to give conf_list or Conformations object")
       end ;;
     match target_conf self1 with
     | Some target => set_target_conf fold_energy self1 target
     | None => Ok self1
     end).
Proof.
  intros Hw. unfold fold, confs_itemsize, length.
  cbn [wildtype set_nativeEs].
  destruct (wildtype self) as [|c0 w]; [congruence|].
  cbn [len bind]. replace (S (len w) - 1) with (len w) by lia.
  reflexivity.
Qed.

(** A pass with a target conformation set. *)
Lemma recalculate_with_target_spec (conf_list : list str) (target : str)
    (self : gpm table) :
  target_conf self = Some target -> allocated self ->
  exists self',
    recalculate_partition_sum fold_energy self conf_list = Ok self' /\
    same_map self self' /\ allocated self' /\
    forall i g r,
      nth_error (genotypes self) i = Some g -> slot self i = Some r ->
      slot self' i
      = Some (fst (fst (fst r)), snd (fst (fst r)),
              boltzmann_sum fold_energy self g conf_list, snd r).
Proof.
  intros Ht Ha. unfold recalculate_partition_sum.
  set (self0 := set_partition_confs_attr self conf_list).
  destruct (@score_genotypes_with_target table fold_energy conf_list target
              (seq 0 (n self0)) self0 None Ht Ha)
    as (self' & f' & R' & S' & A' & C' & _).
  - intros i Hi. apply in_seq in Hi. lia.
  - apply seq_NoDup.
  - exists self'. rewrite R'. cbn [bind fst]. split; [reflexivity|].
    split; [exact S'|]. split; [exact A'|].
    intros i g r Hg Hr. apply (C' i g r); auto.
    apply in_seq. split; [lia|]. simpl.
    apply nth_error_Some. change (genotypes self0) with (genotypes self).
    congruence.
Qed.

Lemma set_target_conf_spec (target : str) (self : gpm table) :
  allocated self ->
  exists self',
    set_target_conf fold_energy self target = Ok self' /\
    target_conf self' = Some target /\
    genotypes self' = genotypes self /\ allocated self' /\
    forall i g r,
      nth_error (genotypes self) i = Some g -> slot self i = Some r ->
      slot self' i
      = Some (fold_energy g target (interaction_energies self),
              firstn (width self) target, snd (fst r), snd r).
Proof.
  intros Ha. unfold set_target_conf.
  set (self0 := set_target self (Some target)).
  destruct (@retarget_spec table fold_energy target (seq 0 (n self0)) self0 Ha)
    as (self' & R' & S' & A' & C' & _).
  - intros i Hi. apply in_seq in Hi. lia.
  - apply seq_NoDup.
  - exists self'. split; [exact R'|].
    destruct S' as (Hg' & Ht' & _).
    split; [now rewrite Ht'|]. split; [exact Hg'|]. split; [exact A'|].
    intros i g r Hg Hr. apply (C' i g r); auto.
    apply in_seq. split; [lia|]. simpl.
    apply nth_error_Some. change (genotypes self0) with (genotypes self).
    congruence.
Qed.

End Fold.

Lemma map_fst_combine {A B : Type} (l : list A) (l' : list B) :
  len l = len l' -> map fst (combine l l') = l.
Proof.
  revert l'; induction l as [|x l IH]; intros [|y l'] H; try discriminate;
    [reflexivity|]. simpl. f_equal. apply IH. simpl in H. lia.
Qed.

Lemma enumerate_In {B : Type} (l : list B) (i : nat) (x : B) :
  nth_error l i = Some x -> In (i, x) (combine (seq 0 (len l)) l).
Proof.
  intros H. apply (nth_error_In _ i).
  apply Phenotypes.nth_error_zip; [|exact H].
  assert (Hi : i < len l) by (apply nth_error_Some; congruence).
  rewrite (nth_error_nth' _ 0) by (rewrite length_seq; exact Hi).
  now rewrite seq_nth.
Qed.

(** A map with its arrays allocated and a target conformation. *)
Definition targeted_map (genos : list str) (T : R) (target : str)
  : gpm unit :=
  set_target (blank_map genos T) (Some target).

(** An oracle that folds every sequence into "UR" with energy -1,
    partition sum 3, folded. *)
Definition constant_oracle : fold_oracle :=
  fun _ _ => ((-1)%R, lit "UR", 3%R, true).

(** X11. With a target conformation set and the arrays allocated,
    [recalculate_partition_sum] always completes (it never reads
    [folded]); it stores for every genotype the sum of
    exp(-energy/temperature) over the list and leaves the native energy,
    the native conformation and the folded flag of every genotype as
    they were. *)
Theorem recalculate_with_target (table : Type)
    (fold_energy : str -> str -> table -> R) (conf_list : list str)
    (target : str) (self : gpm table) :
  target_conf self = Some target -> allocated self ->
  exists self',
    recalculate_partition_sum fold_energy self conf_list = Ok self' /\
    forall i g, nth_error (genotypes self) i = Some g ->
      exists e c z b,
        slot self i = Some (e, c, z, b) /\
        slot self' i
        = Some (e, c, boltzmann_sum fold_energy self g conf_list, b).
Proof.
  intros Ht Ha.
  destruct (@recalculate_with_target_spec table fold_energy conf_list
              target self Ht Ha) as (self' & R' & _ & _ & C').
  exists self'. split; [exact R'|]. intros i g Hg.
  destruct (@slot_defined table self i Ha) as (e & c & z0 & b & Hslot).
  { apply nth_error_Some. unfold n. congruence. }
  exists e, c, z0, b. split; [exact Hslot|].
  now rewrite (C' i g _ Hg Hslot).
Qed.

Lemma recalculate_with_target_witness :
  exists self',
    recalculate_partition_sum (flat_energy 1)
      (targeted_map [lit "ABC"] 1 (lit "UR")) [lit "UR"; lit "RU"]
    = Ok self' /\
    forall i g,
      nth_error (genotypes (targeted_map [lit "ABC"] 1 (lit "UR"))) i
      = Some g ->
      exists e c z b,
        slot (targeted_map [lit "ABC"] 1 (lit "UR")) i = Some (e, c, z, b) /\
        slot self' i
        = Some (e, c,
                boltzmann_sum (flat_energy 1)
                  (targeted_map [lit "ABC"] 1 (lit "UR")) g
                  [lit "UR"; lit "RU"], b).
Proof.
  apply (@recalculate_with_target unit (flat_energy 1) [lit "UR"; lit "RU"]
           (lit "UR") (targeted_map [lit "ABC"] 1 (lit "UR"))).
  - reflexivity.
  - exact (blank_map_allocated [lit "ABC"] 1).
Defined.

(** X12. On allocated arrays [set_target_conf] completes; it records
    the target, stores for every genotype the energy of the genotype in
    the target conformation and the target conformation (cut to the
    width of the array), and leaves every partition sum and folded flag
    as they were. *)
Theorem set_target_conf_records (table : Type)
    (fold_energy : str -> str -> table -> R) (target : str)
    (self : gpm table) :
  allocated self ->
  exists self',
    set_target_conf fold_energy self target = Ok self' /\
    target_conf self' = Some target /\
    forall i g, nth_error (genotypes self) i = Some g ->
      exists e c z b,
        slot self i = Some (e, c, z, b) /\
        slot self' i
        = Some (fold_energy g target (interaction_energies self),
                firstn (width self) target, z, b).
Proof.
  intros Ha.
  destruct (@set_target_conf_spec table fold_energy target self Ha)
    as (self' & R' & Ht' & _ & _ & C').
  exists self'. split; [exact R'|]. split; [exact Ht'|]. intros i g Hg.
  destruct (@slot_defined table self i Ha) as (e & c & z0 & b & Hslot).
  { apply nth_error_Some. unfold n. congruence. }
  exists e, c, z0, b. split; [exact Hslot|].
  now rewrite (C' i g _ Hg Hslot).
Qed.

Lemma set_target_conf_records_witness :
  exists self',
    set_target_conf (flat_energy 1) (blank_map [lit "ABC"] 1) (lit "UR")
    = Ok self' /\
    target_conf self' = Some (lit "UR") /\
    forall i g, nth_error (genotypes (blank_map [lit "ABC"] 1)) i = Some g ->
      exists e c z b,
        slot (blank_map [lit "ABC"] 1) i = Some (e, c, z, b) /\
        slot self' i
        = Some (flat_energy 1 g (lit "UR")
                  (interaction_energies (blank_map [lit "ABC"] 1)),
                firstn (width (blank_map [lit "ABC"] 1)) (lit "UR"), z, b).
Proof.
  apply (@set_target_conf_records unit (flat_energy 1) (lit "UR")
           (blank_map [lit "ABC"] 1)).
  apply blank_map_allocated.
Defined.

(** X13. [fold] with a conformation list on a map with a target
    conformation (and a wildtype of two characters or more) completes,
    whatever the energies are. Every genotype gets the energy of the target
    conformation as native energy, the target conformation (cut to the
    array's width, L-1) as native conformation and the sum of
    exp(-energy/temperature) over the list as partition sum; its folded
    flag is never assigned and is what [np.empty] left in the array. *)
Theorem fold_conf_list_with_target (table : Type)
    (fold_energy : str -> str -> table -> R)
    (uninit_float : string -> nat -> R) (uninit_str : nat -> str)
    (uninit_bool : nat -> bool) (self : gpm table) (conf_list : list str)
    (C : option fold_oracle) (target : str) :
  2 <= len (wildtype self) -> target_conf self = Some target ->
  exists self',
    fold fold_energy uninit_float uninit_str uninit_bool self
      (Some conf_list) C = Ok self' /\
    forall i g, nth_error (genotypes self) i = Some g ->
      slot self' i
      = Some (fold_energy g target (interaction_energies self),
              firstn (len (wildtype self) - 1) target,
              boltzmann_sum fold_energy self g conf_list,
              uninit_bool i).
Proof.
  intros Hlen Ht.
  assert (Hw : wildtype self <> [])
    by (intros E; rewrite E in Hlen; simpl in Hlen; lia).
  replace (len (wildtype self) - 1)
    with (Nat.max 1 (len (wildtype self) - 1)) by lia.
  rewrite fold_unfold by exact Hw.
  set (w := Nat.max 1 (len (wildtype self) - 1)).
  set (self0 := allocate uninit_float uninit_str uninit_bool self w).
  assert (Ha0 : allocated self0)
    by apply (allocate_allocated fold_energy).
  destruct (@recalculate_with_target_spec table fold_energy conf_list
              target self0 Ht Ha0) as (self1 & R1 & S1 & A1 & C1).
  rewrite R1. cbn [bind]. pose proof S1 as (Hg1 & Ht1 & _ & Hi1 & Hw1).
  rewrite Ht1. change (target_conf self0) with (target_conf self).
  rewrite Ht.
  destruct (@set_target_conf_spec table fold_energy target self1 A1)
    as (self' & R' & _ & _ & _ & C').
  exists self'. split; [exact R'|]. intros i g Hg.
  assert (Hi : i < n self) by (apply nth_error_Some; unfold n; congruence).
  assert (Hslot0 : slot self0 i
                   = Some (uninit_float "_nativeEs"%string i, uninit_str i,
                           uninit_float "_partition_sum"%string i,
                           uninit_bool i))
    by (apply allocate_slot; exact Hi).
  pose proof (C1 i g _ Hg Hslot0) as Hslot1.
  rewrite (C' i g _ (eq_trans (f_equal (fun l => nth_error l i) Hg1) Hg)
             Hslot1).
  rewrite Hi1, Hw1. reflexivity.
Qed.

Lemma fold_conf_list_with_target_witness :
  exists self',
    fold (flat_energy 1) (fun _ _ => 0%R) (fun _ => lit "")
      (fun _ => false) (targeted_map [lit "ABC"] 1 (lit "UR"))
      (Some [lit "UR"; lit "RU"]) None = Ok self' /\
    forall i g,
      nth_error (genotypes (targeted_map [lit "ABC"] 1 (lit "UR"))) i
      = Some g ->
      slot self' i
      = Some (flat_energy 1 g (lit "UR")
                (interaction_energies
                   (targeted_map [lit "ABC"] 1 (lit "UR"))),
              firstn
                (len (wildtype (targeted_map [lit "ABC"] 1 (lit "UR")))
                 - 1)
                (lit "UR"),
              boltzmann_sum (flat_energy 1)
                (targeted_map [lit "ABC"] 1 (lit "UR")) g
                [lit "UR"; lit "RU"],
              false).
Proof.
  apply (@fold_conf_list_with_target unit (flat_energy 1) (fun _ _ => 0%R)
           (fun _ => lit "") (fun _ => false)
           (targeted_map [lit "ABC"] 1 (lit "UR")) [lit "UR"; lit "RU"]
           None (lit "UR")).
  - simpl. lia.
  - reflexivity.
Defined.

(** What [fold] does with an oracle, before the target conformation is
    looked at. *)
Lemma fold_oracle_loop (table : Type) (uninit_float : string -> nat -> R)
    (uninit_str : nat -> str) (uninit_bool : nat -> bool)
    (self : gpm table) (C : fold_oracle) (w : nat) :
  exists self1,
    fold_with_oracle
      (set_Conformations
         (allocate uninit_float uninit_str uninit_bool self w) C)
      C (combine (seq 0 (n self)) (genotypes self)) = Ok self1 /\
    genotypes self1 = genotypes self /\
    target_conf self1 = target_conf self /\
    interaction_energies self1 = interaction_energies self /\
    width self1 = w /\ allocated self1 /\
    forall i g, nth_error (genotypes self) i = Some g ->
      slot self1 i
      = Some (fst (fst (fst (C g (temperature self)))),
              firstn w (snd (fst (fst (C g (temperature self))))),
              snd (fst (C g (temperature self))),
              snd (C g (temperature self))).
Proof.
  set (self0 := set_Conformations
                  (allocate uninit_float uninit_str uninit_bool self w) C).
  assert (Ha0 : allocated self0)
    by apply (allocate_allocated (fun _ _ _ => 0%R)).
  destruct (@fold_with_oracle_spec table C
              (combine (seq 0 (n self)) (genotypes self)) self0 Ha0)
    as (self1 & R1 & S1 & A1 & C1 & _).
  - intros [i g] Hp. apply in_combine_l in Hp. apply in_seq in Hp.
    cbn [fst]. change (n self0) with (n self). lia.
  - rewrite map_fst_combine by (now rewrite length_seq).
    apply seq_NoDup.
  - exists self1. split; [exact R1|].
    destruct S1 as (Hg1 & Ht1 & _ & Hi1 & Hw1).
    split; [exact Hg1|]. split; [exact Ht1|]. split; [exact Hi1|].
    split; [exact Hw1|]. split; [exact A1|].
    intros i g Hg. apply (C1 i g). now apply enumerate_In.
Qed.

(** X14. [fold] with an oracle and no conformation list, on a map
    without target conformation (and with a wildtype of two characters
    or more), completes and stores for every genotype what the oracle
    returns for it at the map's temperature: the native energy, the
    conformation (cut to the array's width, L-1), the partition
    sum and the folded flag. *)
Theorem fold_oracle_records (table : Type)
    (fold_energy : str -> str -> table -> R)
    (uninit_float : string -> nat -> R) (uninit_str : nat -> str)
    (uninit_bool : nat -> bool) (self : gpm table) (C : fold_oracle) :
  2 <= len (wildtype self) -> target_conf self = None ->
  exists self',
    fold fold_energy uninit_float uninit_str uninit_bool self None (Some C)
    = Ok self' /\
    forall i g, nth_error (genotypes self) i = Some g ->
      slot self' i
      = Some (fst (fst (fst (C g (temperature self)))),
              firstn (len (wildtype self) - 1)
                (snd (fst (fst (C g (temperature self))))),
              snd (fst (C g (temperature self))),
              snd (C g (temperature self))).
Proof.
  intros Hlen Ht.
  assert (Hw : wildtype self <> [])
    by (intros E; rewrite E in Hlen; simpl in Hlen; lia).
  replace (len (wildtype self) - 1)
    with (Nat.max 1 (len (wildtype self) - 1)) by lia.
  rewrite fold_unfold by exact Hw.
  destruct (@fold_oracle_loop table uninit_float uninit_str uninit_bool
              self C (Nat.max 1 (len (wildtype self) - 1)))
    as (self1 & R1 & _ & Ht1 & _ & _ & _ & C1).
  rewrite R1. cbn [bind]. rewrite Ht1, Ht.
  exists self1. split; [reflexivity|exact C1].
Qed.

Lemma fold_oracle_records_witness :
  exists self',
    fold (flat_energy 1) (fun _ _ => 0%R) (fun _ => lit "")
      (fun _ => false) (blank_map [lit "ABC"] 1) None (Some constant_oracle)
    = Ok self' /\
    forall i g, nth_error (genotypes (blank_map [lit "ABC"] 1)) i = Some g ->
      slot self' i
      = Some (fst (fst (fst (constant_oracle g
                               (temperature (blank_map [lit "ABC"] 1))))),
              firstn (len (wildtype (blank_map [lit "ABC"] 1)) - 1)
                (snd (fst (fst (constant_oracle g
                                  (temperature
                                     (blank_map [lit "ABC"] 1)))))),
              snd (fst (constant_oracle g
                          (temperature (blank_map [lit "ABC"] 1)))),
              snd (constant_oracle g
                     (temperature (blank_map [lit "ABC"] 1)))).
Proof.
  apply (@fold_oracle_records unit (flat_energy 1) (fun _ _ => 0%R)
           (fun _ => lit "") (fun _ => false) (blank_map [lit "ABC"] 1)
           constant_oracle).
  - simpl. lia.
  - reflexivity.
Defined.

(** X15. [fold] with an oracle on a map with a target conformation:
    the partition sum and the folded flag of every genotype are the
    oracle's, its native energy is the energy of the genotype in the
    target conformation and its native conformation is the target (cut
    to the array's width, L-1; the wildtype has two characters or
    more). *)
Theorem fold_oracle_with_target (table : Type)
    (fold_energy : str -> str -> table -> R)
    (uninit_float : string -> nat -> R) (uninit_str : nat -> str)
    (uninit_bool : nat -> bool) (self : gpm table) (C : fold_oracle)
    (target : str) :
  2 <= len (wildtype self) -> target_conf self = Some target ->
  exists self',
    fold fold_energy uninit_float uninit_str uninit_bool self None (Some C)
    = Ok self' /\
    forall i g, nth_error (genotypes self) i = Some g ->
      slot self' i
      = Some (fold_energy g target (interaction_energies self),
              firstn (len (wildtype self) - 1) target,
              snd (fst (C g (temperature self))),
              snd (C g (temperature self))).
Proof.
  intros Hlen Ht.
  assert (Hw : wildtype self <> [])
    by (intros E; rewrite E in Hlen; simpl in Hlen; lia).
  replace (len (wildtype self) - 1)
    with (Nat.max 1 (len (wildtype self) - 1)) by lia.
  rewrite fold_unfold by exact Hw.
  destruct (@fold_oracle_loop table uninit_float uninit_str uninit_bool
              self C (Nat.max 1 (len (wildtype self) - 1)))
    as (self1 & R1 & Hg1 & Ht1 & Hi1 & Hw1 & A1 & C1).
  rewrite R1. cbn [bind]. rewrite Ht1, Ht.
  destruct (@set_target_conf_spec table fold_energy target self1 A1)
    as (self' & R' & _ & _ & _ & C').
  exists self'. split; [exact R'|]. intros i g Hg.
  rewrite (C' i g _ (eq_trans (f_equal (fun l => nth_error l i) Hg1) Hg)
             (C1 i g Hg)).
  rewrite Hi1, Hw1. reflexivity.
Qed.

Lemma fold_oracle_with_target_witness :
  exists self',
    fold (flat_energy 1) (fun _ _ => 0%R) (fun _ => lit "")
      (fun _ => false) (targeted_map [lit "ABC"] 1 (lit "RU")) None
      (Some constant_oracle) = Ok self' /\
    forall i g,
      nth_error (genotypes (targeted_map [lit "ABC"] 1 (lit "RU"))) i
      = Some g ->
      slot self' i
      = Some (flat_energy 1 g (lit "RU")
                (interaction_energies
                   (targeted_map [lit "ABC"] 1 (lit "RU"))),
              firstn
                (len (wildtype (targeted_map [lit "ABC"] 1 (lit "RU")))
                 - 1)
                (lit "RU"),
              snd (fst (constant_oracle g
                          (temperature
                             (targeted_map [lit "ABC"] 1 (lit "RU"))))),
              snd (constant_oracle g
                     (temperature
                        (targeted_map [lit "ABC"] 1 (lit "RU"))))).
Proof.
  apply (@fold_oracle_with_target unit (flat_energy 1) (fun _ _ => 0%R)
           (fun _ => lit "") (fun _ => false)
           (targeted_map [lit "ABC"] 1 (lit "RU")) constant_oracle
           (lit "RU")).
  - simpl. lia.
  - reflexivity.
Defined.

End Modes.

(** ** Construction and loading: what is checked, and when *)

Module Validation.
Import Gpm.

Lemma str_eqb_spec (a b : str) : reflect (a = b) (str_eqb a b).
Proof.
  unfold str_eqb. destruct (list_eq_dec ascii_dec a b); now constructor.
Qed.

Lemma invalid_phenotype_type (p : str) :
  ~ In p types -> existsb (str_eqb p) types = false.
Proof.
  intros H. destruct (existsb (str_eqb p) types) eqn:E; [|reflexivity].
  apply existsb_exists in E as (q & Hq & Hpq).
  destruct (str_eqb_spec p q); [subst; contradiction|discriminate].
Qed.

Lemma dict_mem_wrap {A B : Type} (f : A -> B) (data : list (string * A))
    (k : string) :
  dict_mem (map (fun kv => (fst kv, f (snd kv))) data) k = dict_mem data k.
Proof.
  unfold dict_mem. induction data as [|[k' v] data IH]; [reflexivity|].
  cbn. destruct (String.eqb k' k); [reflexivity|exact IH].
Qed.

Lemma check_necessary_args_missing (pre : list string) (arg : string)
    (post : list string) (data : list (string * pyval)) :
  (forall a, In a pre -> dict_mem data a = true) ->
  dict_mem data arg = false ->
  check_necessary_args (pre ++ arg :: post) data
  = Raise (Exception (arg ++ " not in json.")).
Proof.
  induction pre as [|a pre IH]; intros Hpre Harg; cbn.
  - now rewrite Harg.
  - rewrite (Hpre a (or_introl eq_refl)). cbn.
    apply IH; [|exact Harg]. intros b Hb. apply Hpre. now right.
Qed.

(** X16. [from_json] refuses a document that lacks a necessary key: it
    raises for the first key of [necessary_args], in their order, that
    the document does not hold, and a keyword argument of that name does
    not make up for it. *)
Theorem from_json_missing_key (invalid : pyval -> exn)
    (data : list (string * json)) (kwargs : list (string * pyval))
    (pre : list string) (arg : string) (post : list string) :
  necessary_args = pre ++ arg :: post ->
  (forall a, In a pre -> dict_mem data a = true) ->
  dict_mem data arg = false ->
  from_json invalid data kwargs = Raise (Exception (arg ++ " not in json.")).
Proof.
  intros Hargs Hpre Harg. unfold from_json. rewrite Hargs.
  rewrite check_necessary_args_missing; [reflexivity| |].
  - intros a Ha. rewrite dict_mem_wrap. now apply Hpre.
  - now rewrite dict_mem_wrap.
Qed.

Lemma from_json_missing_key_witness :
  from_json (fun _ => TypeError "")
    [("wildtype"%string, JStr (lit "ABC"))]
    [("genotypes"%string, ndarray [JStr (lit "ABC")])]
  = Raise (Exception "genotypes not in json.").
Proof.
  apply (@from_json_missing_key (fun _ => TypeError "")
           [("wildtype"%string, JStr (lit "ABC"))]
           [("genotypes"%string, ndarray [JStr (lit "ABC")])]
           ["wildtype"%string] "genotypes"%string
           ["nativeEs"; "partition_sum"; "confs"; "folded";
            "phenotype_type"; "temperature"; "mutations"]%string).
  - reflexivity.
  - intros a [<-|[]]. reflexivity.
  - reflexivity.
Defined.

(** X17. A keyword argument overrides the value of the document and is
    validated like it: loading the export of a scored map with
    [phenotype_type=p] gives a map of phenotype type [p] when [p] is one
    of the three valid types, and raises the error of the setter when
    it is not. *)
Theorem from_json_override_phenotype_type (table : Type)
    (invalid : pyval -> exn) (self : gpm table) (nE Z : list R)
    (c : ustr_array) (f : list bool) (p : str) :
  _nativeEs self = Some nE -> _confs self = Some c ->
  _partition_sum self = Some Z -> _folded self = Some f ->
  exists data,
    to_json self = Ok data /\
    (In p types ->
     exists obj,
       from_json invalid data [("phenotype_type"%string, Plain (JStr p))]
       = Ok obj /\
       dict_get obj "_phenotype_type" = Some (Plain (JStr p)) /\
       Persistence.floats_of obj "_nativeEs" = Some nE) /\
    (~ In p types ->
     from_json invalid data [("phenotype_type"%string, Plain (JStr p))]
     = Raise (Exception (string_of_list_ascii p
                           ++ " is not a valid phenotype type."))).
Proof.
  intros HnE Hc HZ Hf.
  unfold to_json, nativeEs, partition_sum, confs, get_folded.
  rewrite HnE, Hc, HZ, Hf. cbn [getattr bind].
  eexists. split; [reflexivity|]. split.
  - intros Hp. pose proof (Construction.valid_phenotype_type Hp) as Hv.
    unfold from_json, necessary_args.
    cbn -[existsb types]. rewrite Hv. cbn -[existsb types].
    eexists. split; [reflexivity|]. split; [reflexivity|].
    unfold Persistence.floats_of. cbn -[existsb types].
    apply Persistence.as_floats_JNum.
  - intros Hp. pose proof (invalid_phenotype_type Hp) as Hv.
    unfold from_json, necessary_args.
    cbn -[existsb types]. rewrite Hv. reflexivity.
Qed.

Lemma from_json_override_phenotype_type_witness :
  exists data,
    to_json Phenotypes.scored_example = Ok data /\
    (In (lit "nativeEs") types ->
     exists obj,
       from_json (fun _ => TypeError "") data
         [("phenotype_type"%string, Plain (JStr (lit "nativeEs")))]
       = Ok obj /\
       dict_get obj "_phenotype_type"
       = Some (Plain (JStr (lit "nativeEs"))) /\
       Persistence.floats_of obj "_nativeEs" = Some [(-2)%R]) /\
    (~ In (lit "nativeEs") types ->
     from_json (fun _ => TypeError "") data
       [("phenotype_type"%string, Plain (JStr (lit "nativeEs")))]
     = Raise (Exception (string_of_list_ascii (lit "nativeEs")
                           ++ " is not a valid phenotype type."))).
Proof.
  exact (@from_json_override_phenotype_type unit (fun _ => TypeError "")
           Phenotypes.scored_example [(-2)%R] [(exp 2 + exp 2)%R]
           {| itemsize := 2; items := [lit "UR"] |} [false]
           (lit "nativeEs") eq_refl eq_refl eq_refl eq_refl).
Defined.

(** X18. [__init__] checks the phenotype type before it enumerates the
    genotypes: with one of the three valid types it returns a map with
    that type, the genotypes of [mutations_to_genotypes] and none of the
    four arrays; with any other type it raises the error of the
    setter. *)
Theorem init_validates_phenotype_type (table : Type)
    (miyazawa_jernigan callers_table : table)
    (mutations_to_genotypes : str -> mutations_t -> list str)
    (wildtype_ : str) (mutations_ : mutations_t) (target : option str)
    (T : R) (p : str) :
  (In p types ->
   exists self,
     __init__ miyazawa_jernigan mutations_to_genotypes wildtype_ mutations_
       target T p callers_table = Ok self /\
     _phenotype_type self = p /\
     genotypes self = mutations_to_genotypes wildtype_ mutations_ /\
     target_conf self = target /\ temperature self = T /\
     _nativeEs self = None /\ _confs self = None /\
     _partition_sum self = None /\ _folded self = None) /\
  (~ In p types ->
   __init__ miyazawa_jernigan mutations_to_genotypes wildtype_ mutations_
     target T p callers_table
   = Raise (Exception (string_of_list_ascii p
                         ++ " is not a valid phenotype type."))).
Proof.
  split; intros Hp; unfold __init__, phenotype_type_setter.
  - rewrite (Construction.valid_phenotype_type Hp). cbn.
    eexists. split; [reflexivity|]. now repeat split.
  - rewrite (invalid_phenotype_type Hp). reflexivity.
Qed.

Lemma init_validates_phenotype_type_witness :
  (exists self,
     __init__ tt (fun w _ => [w]) (lit "ABC") [] None 1
       (lit "fracfolded") tt = Ok self /\
     _phenotype_type self = lit "fracfolded") /\
  __init__ tt (fun w _ => [w]) (lit "ABC") [] None 1 (lit "energies") tt
  = Raise (Exception "energies is not a valid phenotype type.").
Proof.
  split.
  - destruct (@init_validates_phenotype_type unit tt tt (fun w _ => [w])
                (lit "ABC") [] None 1 (lit "fracfolded")) as [H _].
    destruct H as (self & Hrun & Hp & _).
    + right. right. now left.
    + now exists self.
  - apply (@init_validates_phenotype_type unit tt tt (fun w _ => [w])
             (lit "ABC") [] None 1 (lit "energies")).
    intros [H|[H|[H|[]]]]; discriminate.
Defined.

(** X19. A map fresh from [__init__] has no thermodynamic arrays:
    until [fold] has run, [to_json], [stabilities] and [fracfolded]
    raise the attribute error on [_nativeEs], and, when the map has a
    genotype, [set_partition_confs] raises it on [_partition_sum] and
    [set_target_conf] on [_nativeEs]. *)
Theorem unfolded_map_has_no_arrays (table : Type)
    (miyazawa_jernigan callers_table : table)
    (mutations_to_genotypes : str -> mutations_t -> list str)
    (fold_energy : str -> str -> table -> R)
    (wildtype_ : str) (mutations_ : mutations_t) (target : option str)
    (T : R) (p : str) (self : gpm table) :
  __init__ miyazawa_jernigan mutations_to_genotypes wildtype_ mutations_
    target T p callers_table = Ok self ->
  to_json self = Raise (AttributeError "_nativeEs") /\
  stabilities self = Raise (AttributeError "_nativeEs") /\
  fracfolded self = Raise (AttributeError "_nativeEs") /\
  (genotypes self <> [] ->
   forall confs c,
     set_partition_confs fold_energy self confs
     = Raise (AttributeError "_partition_sum") /\
     set_target_conf fold_energy self c
     = Raise (AttributeError "_nativeEs")).
Proof.
  unfold __init__, phenotype_type_setter.
  destruct (existsb (str_eqb p) types); [|discriminate].
  cbn. intros [= <-].
  split; [reflexivity|]. split; [reflexivity|]. split; [reflexivity|].
  intros Hg confs c. cbn in Hg. split.
  - unfold set_partition_confs, recalculate_partition_sum, n. cbn.
    destruct (mutations_to_genotypes wildtype_ mutations_);
      [congruence|reflexivity].
  - unfold set_target_conf, n. cbn.
    destruct (mutations_to_genotypes wildtype_ mutations_);
      [congruence|reflexivity].
Qed.

Lemma unfolded_map_has_no_arrays_witness :
  exists self,
    __init__ tt (fun w _ => [w]) (lit "ABC") [] None 1
      (lit "stabilities") tt = Ok self /\
    to_json self = Raise (AttributeError "_nativeEs") /\
    stabilities self = Raise (AttributeError "_nativeEs") /\
    fracfolded self = Raise (AttributeError "_nativeEs") /\
    (genotypes self <> [] ->
     forall confs c,
       set_partition_confs (Thermodynamics.flat_energy 1) self confs
       = Raise (AttributeError "_partition_sum") /\
       set_target_conf (Thermodynamics.flat_energy 1) self c
       = Raise (AttributeError "_nativeEs")).
Proof.
  eexists. split; [reflexivity|].
  apply (@unfolded_map_has_no_arrays unit tt tt (fun w _ => [w])
           (Thermodynamics.flat_energy 1) (lit "ABC") [] None 1
           (lit "stabilities")).
  reflexivity.
Defined.

End Validation.

(** ** from_mutant *)

Module Constructors.
Import Gpm Thermodynamics Modes.

(** [from_mutant]: [binary_mutations_map] is [gpmap]'s; the keyword
    arguments that [__init__] reads are given by value; [Conformations]
    may be [None]. *)
Definition from_mutant (table : Type) (miyazawa_jernigan : table)
    (mutations_to_genotypes : str -> mutations_t -> list str)
    (binary_mutations_map : str -> str -> mutations_t)
    (fold_energy : str -> str -> table -> R)
    (uninit_float : string -> nat -> R) (uninit_str : nat -> str)
    (uninit_bool : nat -> bool)
    (wildtype_ mutant : str) (Conformations_ : option fold_oracle)
    (target_conf_ : option str) (temperature_ : R) (phenotype_type : str)
    (interaction_energies_ : table) : result (gpm table) :=
  let mutations_ := binary_mutations_map wildtype_ mutant in
  self <- __init__ miyazawa_jernigan mutations_to_genotypes wildtype_
            mutations_ target_conf_ temperature_ phenotype_type
            interaction_energies_ ;;
  self <- fold fold_energy uninit_float uninit_str uninit_bool self
            None Conformations_ ;;
  Ok self.

(** X20. [from_mutant] with a valid phenotype type, a wildtype of two
    characters or more and no target conformation: given an oracle it
    returns a map over the genotypes enumerated from the wildtype and
    the mutations of the pair, holding for every genotype the oracle's
    output at the given temperature (the conformation cut to L-1
    characters) and the default interaction table; given no oracle it
    raises the exception of [fold]. *)
Theorem from_mutant_records (table : Type)
    (miyazawa_jernigan callers_table : table)
    (mutations_to_genotypes : str -> mutations_t -> list str)
    (binary_mutations_map : str -> str -> mutations_t)
    (fold_energy : str -> str -> table -> R)
    (uninit_float : string -> nat -> R) (uninit_str : nat -> str)
    (uninit_bool : nat -> bool)
    (wildtype_ mutant : str) (C : fold_oracle) (T : R) (p : str) :
  In p types -> 2 <= len wildtype_ ->
  (exists self',
     from_mutant miyazawa_jernigan mutations_to_genotypes
       binary_mutations_map fold_energy uninit_float uninit_str uninit_bool
       wildtype_ mutant (Some C) None T p callers_table = Ok self' /\
     genotypes self'
     = mutations_to_genotypes wildtype_
         (binary_mutations_map wildtype_ mutant) /\
     interaction_energies self' = miyazawa_jernigan /\
     forall i g, nth_error (genotypes self') i = Some g ->
       slot self' i
       = Some (fst (fst (fst (C g T))),
               firstn (len wildtype_ - 1) (snd (fst (fst (C g T)))),
               snd (fst (C g T)), snd (C g T))) /\
  from_mutant miyazawa_jernigan mutations_to_genotypes
    binary_mutations_map fold_energy uninit_float uninit_str uninit_bool
    wildtype_ mutant None None T p callers_table
  = Raise (Exception "Not to give conf_list or Conformations object").
Proof.
  intros Hp Hlen.
  assert (Hw : wildtype_ <> [])
    by (intros E; rewrite E in Hlen; simpl in Hlen; lia).
  unfold from_mutant, __init__, phenotype_type_setter.
  rewrite (Construction.valid_phenotype_type Hp). cbn [negb bind].
  match goal with
  | |- context [fold _ _ _ _ ?s None None] => set (self := s)
  end.
  assert (Hws : wildtype self <> []) by exact Hw.
  rewrite !fold_unfold by exact Hws.
  split; [|reflexivity].
  destruct (@fold_oracle_loop table uninit_float uninit_str uninit_bool
              self C (Nat.max 1 (len (wildtype self) - 1)))
    as (self1 & R1 & Hg1 & Ht1 & Hi1 & _ & _ & C1).
  rewrite R1. cbn [bind]. rewrite Ht1.
  change (target_conf self) with (@None str). cbn [bind].
  exists self1. split; [reflexivity|]. split; [exact Hg1|].
  split; [exact Hi1|]. intros i g Hg. rewrite Hg1 in Hg.
  rewrite (C1 i g Hg).
  change (wildtype self) with wildtype_.
  change (temperature self) with T.
  replace (Nat.max 1 (len wildtype_ - 1)) with (len wildtype_ - 1) by lia.
  reflexivity.
Qed.

Lemma from_mutant_records_witness :
  (exists self',
     from_mutant tt (fun w _ => [w]) (fun _ _ => [])
       (flat_energy 1) (fun _ _ => 0%R) (fun _ => lit "") (fun _ => false)
       (lit "ABC") (lit "DEF") (Some constant_oracle) None 1
       (lit "stabilities") tt = Ok self' /\
     genotypes self' = [lit "ABC"] /\
     interaction_energies self' = tt /\
     forall i g, nth_error (genotypes self') i = Some g ->
       slot self' i
       = Some (fst (fst (fst (constant_oracle g 1%R))),
               firstn (len (lit "ABC") - 1)
                 (snd (fst (fst (constant_oracle g 1%R)))),
               snd (fst (constant_oracle g 1%R)),
               snd (constant_oracle g 1%R))) /\
  from_mutant tt (fun w _ => [w]) (fun _ _ => [])
    (flat_energy 1) (fun _ _ => 0%R) (fun _ => lit "") (fun _ => false)
    (lit "ABC") (lit "DEF") None None 1 (lit "stabilities") tt
  = Raise (Exception "Not to give conf_list or Conformations object").
Proof.
  apply (@from_mutant_records unit tt tt (fun w _ => [w]) (fun _ _ => [])
           (flat_energy 1) (fun _ _ => 0%R) (fun _ => lit "")
           (fun _ => false) (lit "ABC") (lit "DEF") constant_oracle 1
           (lit "stabilities")).
  - right. now left.
  - simpl. lia.
Defined.

End Constructors.

(** ** The minimum search starts from 0

    [recalculate_partition_sum] seeds its search with [min_energy = 0]
    and [min_conf = ""] and not with the first conformation of the list,
    and it writes [fold = True] where the flag it later reads is
    [folded]. Its docstring promises that the conformation from the list
    with the lowest energy is stored as the native state. The two runs
    below show what is stored for a genotype whose energies are all
    above 0. *)

Module ZeroSeed.
Import Gpm Thermodynamics.

(** C2 (the code departs from the claim). Genotypes "ABC" and "BBC",
    the conformation list ["UR"], temperature 1, no target conformation:
    "ABC" has energy -1 in "UR" and "BBC" has energy +1. The pass
    completes, and for "BBC" it stores the native energy 0 and the empty
    native conformation, where the minimum of the energies over the list
    is 1 and the only conformation of the list is "UR". *)
Theorem native_energy_below_list_minimum :
  exists self' z b,
    recalculate_partition_sum only_A_folds
      (blank_map [lit "ABC"; lit "BBC"] 1) [lit "UR"] = Ok self' /\
    slot self' 1 = Some (0%R, lit "", z, b) /\
    forall conf, In conf [lit "UR"] ->
      only_A_folds (lit "BBC") conf tt = 1%R.
Proof.
  destruct (@recalculate_partition_sum_scores unit only_A_folds [lit "UR"]
              (blank_map [lit "ABC"; lit "BBC"] 1) eq_refl
              (blank_map_allocated _ _)) as (self' & Hrun & _ & _ & Hsc).
  - intros g0 [= <-]. exists (lit "UR"). split; [now left|].
    unfold fe, only_A_folds. cbn. lra.
  - destruct (Hsc 1) as (g & f0 & b & Hg & Hfl & Hslot);
      [unfold n; cbn; lia|].
    assert (Hgeq : g = lit "BBC")
      by (cbn in Hg; injection Hg as <-; reflexivity).
    subst g. cbv zeta in Hfl, Hslot.
    destruct (@inner_folded_untouched unit only_A_folds
                (blank_map [lit "ABC"; lit "BBC"] 1) (lit "BBC")
                [lit "UR"] f0) as [_ Hmin].
    { intros conf _. unfold fe, only_A_folds. cbn. lra. }
    pose proof (@inner_min unit only_A_folds
                  (blank_map [lit "ABC"; lit "BBC"] 1) (lit "BBC")
                  [lit "UR"] f0) as (_ & _ & _ & Hzero).
    cbv zeta in Hzero. rewrite (Hzero Hmin), Hmin in Hslot.
    eexists self', _, b. split; [exact Hrun|]. split; [exact Hslot|].
    intros conf _. reflexivity.
Qed.

(** C3 (the code departs from the claim). Genotypes "ABC" and "BBC",
    the conformation list ["UR"; "RU"], temperature 1, no target
    conformation: "ABC" has energies -2 and -1, "BBC" has energy +1 in
    both conformations, which so share its minimum energy. The pass
    completes, and for "BBC" it stores the partition sum
    exp(-1) + exp(-1), the native energy 0 in place of the shared
    minimum 1, and the folded flag True, left over from "ABC". *)
Theorem tie_above_zero_stored_as_folded :
  exists self',
    recalculate_partition_sum first_conformation_best
      (blank_map [lit "ABC"; lit "BBC"] 1) [lit "UR"; lit "RU"] = Ok self' /\
    slot self' 1 = Some (0%R, lit "", (exp (-1) + exp (-1))%R, true) /\
    forall conf, In conf [lit "UR"; lit "RU"] ->
      first_conformation_best (lit "BBC") conf tt = 1%R.
Proof.
  set (self := blank_map [lit "ABC"; lit "BBC"] 1).
  set (confs := [lit "UR"; lit "RU"]).
  assert (Hpos : forall f0 : option bool,
            folded (inner first_conformation_best self (lit "BBC") confs f0)
            = f0 /\
            min_energy (inner first_conformation_best self (lit "BBC") confs f0)
            = 0%R).
  { intros f0. apply inner_folded_untouched.
    intros conf _. unfold fe, first_conformation_best. cbn. lra. }
  destruct (@recalculate_partition_sum_scores unit first_conformation_best
              confs self eq_refl (blank_map_allocated _ _))
    as (self' & Hrun & _ & _ & Hsc).
  { intros g0 [= <-]. exists (lit "UR"). split; [now left|].
    unfold fe, first_conformation_best. cbn. lra. }
  exists self'. split; [exact Hrun|]. split; [|intros conf _; reflexivity].
  (* slot 0: a single minimum, folded *)
  destruct (Hsc 0) as (g0 & f0 & b0 & Hg0 & Hfl0 & Hslot0);
    [unfold n; cbn; lia|].
  assert (g0 = lit "ABC")
    by (cbn in Hg0; injection Hg0 as <-; reflexivity).
  subst g0. cbv zeta in Hfl0, Hslot0.
  assert (Hb0 : b0 = true).
  { destruct (@inner_folded_bound unit first_conformation_best self
                (lit "ABC") confs f0) as (b & Hb & Hiff).
    { exists (lit "UR"). split; [now left|].
      unfold fe, first_conformation_best. cbn. lra. }
    cbv zeta in Hb, Hiff.
    assert (b = b0) by congruence. subst b. apply Hiff.
    pose proof (@inner_min unit first_conformation_best self (lit "ABC")
                  confs f0) as (_ & Hle & Hneg & _).
    cbv zeta in Hle, Hneg.
    set (l := inner first_conformation_best self (lit "ABC") confs f0) in *.
    assert (Hm : min_energy l = (-2)%R).
    { assert (H1 : (min_energy l <= -2)%R)
        by exact (Hle (lit "UR") (or_introl eq_refl)).
      destruct Hneg as [Hin He]; [lra|].
      destruct Hin as [Hin|[Hin|[]]]; rewrite <- Hin in He.
      - symmetry. exact He.
      - change ((-1)%R = min_energy l) in He. lra. }
    split; [lra|]. rewrite Hm.
    unfold energies, confs, fe, first_conformation_best.
    cbn [map count_occ lit list_ascii_of_string].
    destruct (Req_dec_T (-2) (-2)); [|congruence].
    destruct (Req_dec_T (-1) (-2)); [lra|reflexivity]. }
  subst b0.
  (* slot 1: nothing at or below the seed, the flag of slot 0 remains *)
  destruct (Hsc 1) as (g1 & f1 & b1 & Hg1 & Hfl1 & Hslot1);
    [unfold n; cbn; lia|].
  assert (g1 = lit "BBC")
    by (cbn in Hg1; injection Hg1 as <-; reflexivity).
  subst g1. cbv zeta in Hfl1, Hslot1.
  destruct (Hpos f1) as [_ Hmin].
  pose proof (@inner_min unit first_conformation_best self (lit "BBC")
                confs f1) as (_ & _ & _ & Hzero).
  cbv zeta in Hzero. rewrite (Hzero Hmin), Hmin, inner_z in Hslot1.
  assert (Hz : boltzmann_sum first_conformation_best self (lit "BBC") confs
               = (exp (-1) + exp (-1))%R).
  { unfold boltzmann_sum, confs, fe, first_conformation_best.
    cbn [map fold_right temperature self blank_map lit list_ascii_of_string].
    replace (- (1) / 1)%R with (-1)%R by lra. lra. }
  rewrite Hz in Hslot1.
  assert (Hb1 : b1 = true).
  { unfold recalculate_partition_sum in Hrun.
    set (self0 := set_partition_confs_attr self confs) in *.
    destruct (score_genotypes first_conformation_best confs self0 None
                (seq 0 (n self0))) as [[s1 fl]|] eqn:Hs; [|discriminate].
    cbn [bind fst] in Hrun. injection Hrun as ->.
    destruct (@Scoring.score_genotypes_adjacent unit first_conformation_best
                confs (seq 0 (n self0)) self0 self' None fl [] 0 1 [])
      as (g & b & Hg & Hf & Hflag); auto.
    - apply blank_map_allocated.
    - intros k Hk. apply in_seq in Hk. lia.
    - apply seq_NoDup.
    - assert (g = lit "BBC")
        by (cbn in Hg; injection Hg as <-; reflexivity).
      subst g.
      rewrite (@inner_same_map unit first_conformation_best confs self self0
                 (lit "BBC")) in Hf by now repeat split.
      destruct (Hpos (Scoring.flag self' 0)) as [Hkeep _].
      rewrite Hkeep in Hf. unfold Scoring.flag in Hf, Hflag.
      rewrite Hslot0 in Hf. rewrite Hslot1 in Hflag. congruence. }
  subst b1. exact Hslot1.
Qed.

End ZeroSeed.
